(** * Marketing-mix models of [Mongine/analysis_util_01.py]

    A shallow embedding of the classes [MMM], [MMMChannelsStraight],
    [MMMChannelsStraightConfounder] and [MMMFbGoogleMetrics]: the scaling
    step of the constructor, the model graphs built by [define_model], the
    bookkeeping of fitted parameter names, and the back-scaling of posterior
    draws.

    Numbers.  The program computes with floating-point columns.  The
    embedding keeps the shape of that arithmetic (a division by zero yields
    an infinity or a not-a-number and never raises; a missing value is
    skipped by [median]) and replaces the finite floats by exact rationals
    [Qc], so no rounding and no signed zero is modelled.

    Graphs.  A model graph is recorded as the program declares it: the
    named nodes in declaration order.  The modelling library has two
    reactions to a not-a-number in an array it is handed.  [pm.Data]
    refuses the array and raises; this is modelled.  For an [observed=]
    array the library returns and adds variables of its own for the
    missing entries; these are not part of the record, so statements
    about the random variables of a graph are made for observed arrays
    without a not-a-number. *)

From Stdlib Require Import QArith Qcanon.
From stdpp Require Import gmap strings list fin_maps numbers.

Local Open Scope string_scope.

(** ** Extended numbers *)

Module XNum.

Inductive xval : Type :=
| Fin (q : Qc)
| PInf
| NInf
| NaN.

Global Instance xval_eq_dec : EqDecision xval.
Proof. solve_decision. Defined.

Definition qz (n : Z) : Qc := Q2Qc (inject_Z n).

Definition zero : xval := Fin (qz 0).
Definition one : xval := Fin (qz 1).

Definition is_fin (x : xval) : bool :=
  match x with Fin _ => true | _ => false end.

Definition notna (x : xval) : bool :=
  match x with NaN => false | _ => true end.

(** Sign of a number: [Gt] positive, [Lt] negative, [Eq] zero. *)
Definition sgn (x : xval) : option comparison :=
  match x with
  | Fin q => Some (Qccompare q (qz 0))
  | PInf => Some Gt
  | NInf => Some Lt
  | NaN => None
  end.

Definition sgn_mul (a b : comparison) : comparison :=
  match a, b with
  | Eq, _ | _, Eq => Eq
  | Gt, Gt | Lt, Lt => Gt
  | Gt, Lt | Lt, Gt => Lt
  end.

(** The infinity of a given sign; a zero sign gives not-a-number, as in
    [0 * inf] and [0 / 0]. *)
Definition inf_of (c : comparison) : xval :=
  match c with Gt => PInf | Lt => NInf | Eq => NaN end.

Definition xadd (x y : xval) : xval :=
  match x, y with
  | NaN, _ | _, NaN => NaN
  | Fin a, Fin b => Fin (a + b)
  | PInf, NInf | NInf, PInf => NaN
  | PInf, _ | _, PInf => PInf
  | NInf, _ | _, NInf => NInf
  end.

Definition xmul (x y : xval) : xval :=
  match x, y with
  | Fin a, Fin b => Fin (a * b)
  | _, _ =>
      match sgn x, sgn y with
      | Some a, Some b => inf_of (sgn_mul a b)
      | _, _ => NaN
      end
  end.

(** Division as the array library performs it: total, a zero divisor
    gives an infinity (or not-a-number for [0 / 0]). *)
Definition xdiv (x y : xval) : xval :=
  match x, y with
  | NaN, _ | _, NaN => NaN
  | Fin a, Fin b =>
      if decide (b = qz 0) then inf_of (Qccompare a (qz 0)) else Fin (a / b)
  | Fin _, _ => zero
  | _, Fin b =>
      match sgn x with
      | Some a =>
          inf_of (sgn_mul a (if decide (b = qz 0) then Gt else Qccompare b (qz 0)))
      | None => NaN
      end
  | _, _ => NaN
  end.

(** [x > y] of the program is [xlt y x]: any comparison with not-a-number
    is false. *)
Definition xlt (x y : xval) : bool :=
  match x, y with
  | NaN, _ | _, NaN => false
  | Fin a, Fin b => match Qccompare a b with Lt => true | _ => false end
  | NInf, NInf | PInf, _ | _, NInf => false
  | _, _ => true
  end.

Definition xgt (x y : xval) : bool := xlt y x.

Definition xleb (x y : xval) : bool := negb (xlt y x).

(** *** Median, skipping missing values *)

Fixpoint insert_sorted (x : xval) (l : list xval) : list xval :=
  match l with
  | [] => [x]
  | y :: l' => if xleb x y then x :: l else y :: insert_sorted x l'
  end.

Fixpoint sort (l : list xval) : list xval :=
  match l with
  | [] => []
  | x :: l' => insert_sorted x (sort l')
  end.

Definition dropna (l : list xval) : list xval :=
  List.filter notna l.

(** [Series.median()]: the middle of the sorted present values, the mean
    of the two middle ones for an even count, not-a-number when no value
    is present. *)
Definition median (l : list xval) : xval :=
  let s := sort (dropna l) in
  let n := length s in
  match n with
  | O => NaN
  | _ =>
      if Nat.even n
      then xdiv (xadd (nth (n / 2 - 1) s NaN) (nth (n / 2) s NaN)) (Fin (qz 2))
      else nth (n / 2) s NaN
  end.

End XNum.
Export XNum.

(** ** Exceptions

    A method either returns its result, here the updated object, or
    raises.  A raise ends the run: what a method had already assigned
    before raising is not kept. *)

Inductive exn : Type :=
| KeyError (key : string)
| AttributeError (attr : string)
| TypeError (msg : string)
| NotImplementedError (msg : string).

Inductive result (A : Type) : Type :=
| Ok (a : A)
| Raise (e : exn).
Arguments Ok {A} a.
Arguments Raise {A} e.

Global Instance result_ret : MRet result := fun A a => Ok a.
Global Instance result_bind : MBind result := fun A B f m =>
  match m with
  | Ok a => f a
  | Raise e => Raise e
  end.

Definition is_ok {A : Type} (r : result A) : bool :=
  match r with Ok _ => true | Raise _ => false end.

(** ** Data frames, model graphs, posteriors *)

(** A cell of the observation table: a number, or [None] for a missing
    value.  The date column is kept as day numbers. *)
Abbreviation cell := (option Qc).

Definition of_cell (c : cell) : xval :=
  match c with Some q => Fin q | None => NaN end.

(** [df[name]]: raises [KeyError] for an absent column. *)
Definition getcol {A : Type} (df : gmap string A) (name : string) : result A :=
  match df !! name with
  | Some c => Ok c
  | None => Raise (KeyError name)
  end.

(** [df[names]] for a list of names. *)
Fixpoint getcols {A : Type} (df : gmap string A) (names : list string)
  : result (list A) :=
  match names with
  | [] => Ok []
  | n :: rest =>
      c ← getcol df n;
      cs ← getcols df rest;
      Ok (c :: cs)
  end.

(** Tensor expressions of the modelling library, as far as the program
    builds them. *)
Inductive expr : Type :=
| Const (q : Qc)
| Var (name : string)
| Add (a b : expr)
| Mul (a b : expr)
| Dot (a b : expr)
| GeometricAdstock (x alpha : expr) (l_max : Z) (normalize : bool) (axis : Z)
| LogisticSaturation (x lam : expr).

Inductive dist : Type :=
| Normal (mu sigma : expr)
| HalfNormal
| Beta (alpha beta : expr)
| Gamma (alpha beta : expr).

Inductive node : Type :=
| Data (values : list (list xval)) (dims : list string)
| Prior (d : dist) (dims : list string)
| Deterministic (var : expr) (dims : list string)
| Observed (d : dist) (observed : list xval) (dims : list string).

Inductive coord : Type :=
| DateCoord (values : list cell)
| NameCoord (values : list string).

(** [pm.Model]: the coordinates and the named nodes in declaration order. *)
Record pm_Model : Type := mkModel {
  coords : list (string * coord);
  nodes : list (string * node)
}.

Definition register (name : string) (n : node) (m : pm_Model) : pm_Model :=
  mkModel (coords m) (nodes m ++ [(name, n)]).

Definition node_names (m : pm_Model) : list string := (nodes m).*1.

(** No entry of the columns is a not-a-number. *)
Definition complete (values : list (list xval)) : bool :=
  forallb (forallb notna) values.

(** [pm.Data(name, values, dims=dims)]: the library refuses an array that
    holds a not-a-number (an infinity passes), otherwise the data node is
    registered. *)
Definition pm_Data (name : string) (values : list (list xval))
    (dims : list string) (m : pm_Model) : result pm_Model :=
  if complete values
  then Ok (register name (Data values dims) m)
  else Raise (NotImplementedError
                "Masked arrays or arrays with `nan` entries are not supported. Pass them directly to `observed` if you want to trigger auto-imputation").

(** ** The base class [MMM] *)

Record MMM : Type := mkMMM {
  data_raw : gmap string (list cell);
  channelnames : list string;
  salesname : string;
  datename : string;
  dates : list cell;
  channelscale : xval;
  salesscale : xval;
  data_scaled : option (gmap string (list xval));
  model : option pm_Model;
  (** set by [fit] only; [None] is the absent attribute *)
  idata : option (gmap string (list xval))
}.

Definition set_scales (self : MMM) (c s : xval)
    (scaled : gmap string (list xval)) : MMM :=
  mkMMM (data_raw self) (channelnames self) (salesname self) (datename self)
        (dates self) c s (Some scaled) (model self) (idata self).

Definition set_model (self : MMM) (m : pm_Model) : MMM :=
  mkMMM (data_raw self) (channelnames self) (salesname self) (datename self)
        (dates self) (channelscale self) (salesscale self) (data_scaled self)
        (Some m) (idata self).

Definition set_idata (self : MMM) (i : gmap string (list xval)) : MMM :=
  mkMMM (data_raw self) (channelnames self) (salesname self) (datename self)
        (dates self) (channelscale self) (salesscale self) (data_scaled self)
        (model self) (Some i).

Definition divide_by (c : xval) (col : list xval) : list xval :=
  (fun x => xdiv x c) <$> col.

(** First loop of [set_scaling]: the running maximum of the channel
    medians of the raw table, starting from [0]. *)
Fixpoint channel_scale_loop (raw : gmap string (list cell))
    (names : list string) (scale : xval) : result xval :=
  match names with
  | [] => Ok scale
  | channel :: rest =>
      col ← getcol raw channel;
      let m := median (of_cell <$> col) in
      channel_scale_loop raw rest (if xgt m scale then m else scale)
  end.

(** Second loop: each named channel column is replaced by its quotient. *)
Fixpoint channel_divide_loop (names : list string) (c : xval)
    (scaled : gmap string (list xval)) : result (gmap string (list xval)) :=
  match names with
  | [] => Ok scaled
  | channel :: rest =>
      col ← getcol scaled channel;
      channel_divide_loop rest c (<[channel := divide_by c col]> scaled)
  end.

Definition copy_frame (raw : gmap string (list cell))
  : gmap string (list xval) :=
  (fun col : list cell => of_cell <$> col) <$> raw.

(** [MMM.set_scaling] *)
Definition set_scaling (self : MMM) : result MMM :=
  let scaled0 := copy_frame (data_raw self) in
  c ← channel_scale_loop (data_raw self) (channelnames self) zero;
  scaled1 ← channel_divide_loop (channelnames self) c scaled0;
  sales ← getcol scaled1 (salesname self);
  let s := median sales in
  let scaled2 := <[salesname self := divide_by s sales]> scaled1 in
  Ok (set_scales self c s scaled2).

(** [MMM.__init__] *)
Definition MMM_init (data : gmap string (list cell))
    (channelnames : list string) : result MMM :=
  dates ← getcol data "date";
  set_scaling (mkMMM data channelnames "sales" "date" dates
                     zero zero None None None).

(** [MMM.define_model] *)
Definition MMM_define_model (self : MMM) : result MMM :=
  Raise (NotImplementedError
           "Subclass must implement abstract method 'define_model()").

(** [MMM.get_back_scaled_idata] *)
Definition MMM_get_back_scaled_idata (self : MMM)
  : result (gmap string (list xval)) :=
  Raise (NotImplementedError
           "Subclass must implement abstract method 'get_back_scaled_idata()").

(** Reading an attribute that may still be unset. *)
Definition get_idata (self : MMM) : result (gmap string (list xval)) :=
  match idata self with
  | Some i => Ok i
  | None => Raise (AttributeError "idata")
  end.

Definition get_data_scaled (self : MMM) : result (gmap string (list xval)) :=
  match data_scaled self with
  | Some d => Ok d
  | None => Raise (TypeError "'NoneType' object is not subscriptable")
  end.

(** [posterior[name] = f(posterior[name])], elementwise over the draws. *)
Definition rescale (name : string) (f : xval -> xval)
    (posterior : gmap string (list xval)) : result (gmap string (list xval)) :=
  draws ← getcol posterior name;
  Ok (<[name := fmap (M:=list) f draws]> posterior).

(** ** [MMMChannelsStraight] *)

Record MMMChannelsStraight : Type := mkStraight {
  straight_base : MMM;
  straight_modelname : string;
  straight_fittedparmnames : list string;
  allowIntercept : bool;
  allowAdstockAndSat : bool;
  adstock_max_lag : Z
}.

(** [MMMChannelsStraight.__init__] *)
Definition Straight_init (data : gmap string (list cell))
    (channelnames : list string)
    (allowIntercept allowAdstockAndSat : bool) (adstock_max_lag : Z)
  : result MMMChannelsStraight :=
  self ← MMM_init data channelnames;
  self ← set_scaling self;
  Ok (mkStraight self "google_fb_straight" ["beta"; "sigma"]
                 allowIntercept allowAdstockAndSat adstock_max_lag).

(** [MMMChannelsStraight.get_back_scaled_idata] *)
Definition Straight_get_back_scaled_idata (self : MMMChannelsStraight)
  : result (gmap string (list xval)) :=
  let s := salesscale (straight_base self) in
  let c := channelscale (straight_base self) in
  p ← get_idata (straight_base self);
  p ← (if allowIntercept self
       then rescale "intercept" (fun x => xmul x s) p
       else Ok p);
  p ← rescale "sigma" (fun x => xmul x c) p;
  p ← rescale "beta" (fun x => xdiv (xmul x s) c) p;
  Ok p.

(** [MMMChannelsStraight.define_model] *)
Definition Straight_define_model (self : MMMChannelsStraight)
  : result MMMChannelsStraight :=
  let b := straight_base self in
  let m := mkModel [(datename b, DateCoord (dates b));
                    ("channels", NameCoord (channelnames b))] [] in
  scaled ← get_data_scaled b;
  spend_values ← getcols scaled (channelnames b);
  m ← pm_Data "spend" spend_values [datename b; "channels"] m;
  let spend := Var "spend" in
  let '(intercept, m, names) :=
    if allowIntercept self
    then (Var "intercept",
          register "intercept" (Prior (Normal (Const (qz 1)) (Const (qz 5))) []) m,
          if bool_decide ("intercept" ∈@{list string} straight_fittedparmnames self)
          then straight_fittedparmnames self
          else (straight_fittedparmnames self ++ ["intercept"])%list)
    else (Const (qz 0), m, straight_fittedparmnames self) in
  let m := register "sigma" (Prior HalfNormal []) m in
  let m := register "beta"
             (Prior (Normal (Const (qz 1)) (Const (qz 5))) ["channels"]) m in
  let beta := Var "beta" in
  let '(mu_channels, m, names) :=
    if allowAdstockAndSat self
    then
      let m := register "alpha"
                 (Prior (Beta (Const (qz 1)) (Const (qz 3))) ["channels"]) m in
      let names := (names ++ ["alpha"])%list in
      let m := register "lam"
                 (Prior (Gamma (Const (qz 3)) (Const (qz 1))) ["channels"]) m in
      let names := (names ++ ["lam"])%list in
      let m := register "channel_adstock"
                 (Deterministic
                    (GeometricAdstock spend (Var "alpha")
                                      (adstock_max_lag self) true 0)
                    ["date"; "channels"]) m in
      let m := register "channel_adstock_saturated"
                 (Deterministic
                    (LogisticSaturation (Var "channel_adstock") (Var "lam"))
                    ["date"; "channels"]) m in
      (Dot (Var "channel_adstock_saturated") beta, m, names)
    else (Dot spend beta, m, names) in
  let m := register "mu_channels" (Deterministic mu_channels [datename b]) m in
  let m := register "mu_y"
             (Deterministic (Add intercept (Var "mu_channels")) [datename b])
             m in
  sales ← getcol scaled (salesname b);
  let m := register "y"
             (Observed (Normal (Var "mu_y") (Var "sigma")) sales [datename b])
             m in
  Ok (mkStraight (set_model b m) (straight_modelname self) names
                 (allowIntercept self) (allowAdstockAndSat self)
                 (adstock_max_lag self)).

(** ** [MMMChannelsStraightConfounder] *)

Record MMMChannelsStraightConfounder : Type := mkConfounder {
  confounder_base : MMM;
  confounder_modelname : string;
  confounder_fittedparmnames : list string
}.

(** [MMMChannelsStraightConfounder.__init__] *)
Definition Confounder_init (data : gmap string (list cell))
    (channelnames : list string) : result MMMChannelsStraightConfounder :=
  self ← MMM_init data channelnames;
  Ok (mkConfounder self "google_fb_straight" ["beta"; "sigma"]).

(** [MMMChannelsStraightConfounder.get_back_scaled_idata] *)
Definition Confounder_get_back_scaled_idata
    (self : MMMChannelsStraightConfounder)
  : result (gmap string (list xval)) :=
  let s := salesscale (confounder_base self) in
  let c := channelscale (confounder_base self) in
  p ← get_idata (confounder_base self);
  p ← rescale "intercept" (fun x => xmul x s) p;
  p ← rescale "sigma" (fun x => xmul x c) p;
  p ← rescale "beta_google" (fun x => xdiv (xmul x s) c) p;
  p ← rescale "beta_fb" (fun x => xdiv (xmul x s) c) p;
  p ← rescale "spend_google_0" (fun x => xmul x c) p;
  p ← rescale "sigma_google" (fun x => xmul x c) p;
  Ok p.

(** [MMMChannelsStraightConfounder.define_model] *)
Definition Confounder_define_model (self : MMMChannelsStraightConfounder)
  : result MMMChannelsStraightConfounder :=
  let b := confounder_base self in
  let m := mkModel [(datename b, DateCoord (dates b))] [] in
  let names := ["beta_fb"; "beta_google"; "beta_fb_google"; "spend_google_0";
                "sigma"; "intercept"; "sigma_google"] in
  scaled ← get_data_scaled b;
  fb ← getcol scaled "spend_fb";
  m ← pm_Data "spend_fb" [fb] [datename b] m;
  let spend_fb := Var "spend_fb" in
  let m := register "sigma" (Prior HalfNormal []) m in
  let unit_normal := Prior (Normal (Const (qz 1)) (Const (qz 1))) [] in
  let m := register "intercept" unit_normal m in
  let intercept := Var "intercept" in
  let m := register "beta_fb" unit_normal m in
  let m := register "beta_google" unit_normal m in
  let m := register "mu_fb"
             (Deterministic (Mul (Var "beta_fb") spend_fb) [datename b]) m in
  let mu_fb := Var "mu_fb" in
  let m := register "beta_fb_google" unit_normal m in
  let m := register "spend_google_0" unit_normal m in
  let m := register "spend_google_fb"
             (Deterministic (Mul spend_fb (Var "beta_fb_google")) [datename b])
             m in
  let m := register "sigma_google" (Prior HalfNormal []) m in
  google ← getcol scaled "spend_google";
  let m := register "spend_google"
             (Observed (Normal (Add (Var "spend_google_0") (Var "spend_google_fb"))
                               (Var "sigma_google"))
                       google [datename b]) m in
  let m := register "mu_google"
             (Deterministic (Mul (Var "beta_google") (Var "spend_google"))
                            [datename b]) m in
  let mu_google := Var "mu_google" in
  let m := register "mu_channels"
             (Deterministic (Add (Add intercept mu_fb) mu_google) [datename b])
             m in
  let m := register "mu_y"
             (Deterministic (Add intercept (Var "mu_channels")) [datename b])
             m in
  sales ← getcol scaled (salesname b);
  let m := register "y"
             (Observed (Normal (Var "mu_y") (Var "sigma")) sales [datename b])
             m in
  Ok (mkConfounder (set_model b m) (confounder_modelname self) names).

(** ** [MMMFbGoogleMetrics] *)

Record MMMFbGoogleMetrics : Type := mkMetrics {
  metrics_base : MMM;
  metrics_modelname : string;
  fb_metric : string;
  google_metric : string;
  metrics_fittedparmnames : list string
}.

(** [MMMFbGoogleMetrics.__init__] *)
Definition Metrics_init (data : gmap string (list cell))
    (channelnames : list string) (fb_metric google_metric : string)
  : result MMMFbGoogleMetrics :=
  self ← MMM_init data channelnames;
  Ok (mkMetrics self "google_fb_straight" fb_metric google_metric
                ["beta_fb"; "beta_google"; "intercept"; "sigma"]).

(** [MMMFbGoogleMetrics.get_back_scaled_idata] *)
Definition Metrics_get_back_scaled_idata (self : MMMFbGoogleMetrics)
  : result (gmap string (list xval)) :=
  let s := salesscale (metrics_base self) in
  let c := channelscale (metrics_base self) in
  p ← get_idata (metrics_base self);
  p ← rescale "intercept" (fun x => xmul x s) p;
  p ← rescale "sigma" (fun x => xmul x c) p;
  p ← rescale "beta_fb" (fun x => xmul x s) p;
  p ← rescale "beta_google" (fun x => xmul x s) p;
  Ok p.

(** [MMMFbGoogleMetrics.define_model] *)
Definition Metrics_define_model (self : MMMFbGoogleMetrics)
  : result MMMFbGoogleMetrics :=
  let b := metrics_base self in
  let m := mkModel [(datename b, DateCoord (dates b))] [] in
  scaled ← get_data_scaled b;
  fb ← getcol scaled (fb_metric self);
  m ← pm_Data "fb_in" [fb] [datename b] m;
  google ← getcol scaled (google_metric self);
  m ← pm_Data "google_in" [google] [datename b] m;
  let unit_normal := Prior (Normal (Const (qz 1)) (Const (qz 1))) [] in
  let m := register "intercept" unit_normal m in
  let m := register "sigma" (Prior HalfNormal []) m in
  let m := register "beta_fb" unit_normal m in
  let m := register "beta_google" unit_normal m in
  let m := register "mu_channels"
             (Deterministic
                (Add (Mul (Var "fb_in") (Var "beta_fb"))
                     (Mul (Var "google_in") (Var "beta_google")))
                [datename b]) m in
  let m := register "mu_y"
             (Deterministic (Add (Var "intercept") (Var "mu_channels"))
                            [datename b]) m in
  sales ← getcol scaled (salesname b);
  let m := register "y"
             (Observed (Normal (Var "mu_y") (Var "sigma")) sales [datename b])
             m in
  Ok (mkMetrics (set_model b m) (metrics_modelname self) (fb_metric self)
                (google_metric self) (metrics_fittedparmnames self)).

(** ** Evaluating a model graph

    A forward pass over the nodes in declaration order, at one date and
    one draw: [roots] gives the value of every data, prior and observed
    node, each [Deterministic] node is computed from the values before it.
    Only the scalar arithmetic is interpreted; the transforms of the
    marketing library stay symbolic and have no value here. *)

Fixpoint eval (env : gmap string Qc) (e : expr) : option Qc :=
  match e with
  | Const q => Some q
  | Var name => env !! name
  | Add a b =>
      match eval env a, eval env b with
      | Some x, Some y => Some (x + y)%Qc
      | _, _ => None
      end
  | Mul a b =>
      match eval env a, eval env b with
      | Some x, Some y => Some (x * y)%Qc
      | _, _ => None
      end
  | Dot _ _ | GeometricAdstock _ _ _ _ _ | LogisticSaturation _ _ => None
  end.

Definition forward_step (env : gmap string Qc) (entry : string * node)
  : gmap string Qc :=
  match entry.2 with
  | Deterministic var _ =>
      match eval env var with
      | Some v => <[entry.1 := v]> env
      | None => env
      end
  | _ => env
  end.

Definition forward (m : pm_Model) (roots : gmap string Qc) : gmap string Qc :=
  fold_left forward_step (nodes m) roots.

(** The names under which a graph declares random variables (priors). *)
Definition prior_names (m : pm_Model) : list string :=
  (List.filter (fun entry : string * node =>
             match entry.2 with Prior _ _ => true | _ => false end)
          (nodes m)).*1.

(** ** The shared interface of the variants *)

Class Variant (T : Type) : Type := {
  base : T -> MMM;
  with_base : T -> MMM -> T;
  define_model : T -> result T;
  get_back_scaled_idata : T -> result (gmap string (list xval))
}.

Global Instance MMM_variant : Variant MMM := {
  base self := self;
  with_base _ b := b;
  define_model := MMM_define_model;
  get_back_scaled_idata := MMM_get_back_scaled_idata
}.

Global Instance Straight_variant : Variant MMMChannelsStraight := {
  base := straight_base;
  with_base self b :=
    mkStraight b (straight_modelname self) (straight_fittedparmnames self)
               (allowIntercept self) (allowAdstockAndSat self)
               (adstock_max_lag self);
  define_model := Straight_define_model;
  get_back_scaled_idata := Straight_get_back_scaled_idata
}.

Global Instance Confounder_variant : Variant MMMChannelsStraightConfounder := {
  base := confounder_base;
  with_base self b :=
    mkConfounder b (confounder_modelname self) (confounder_fittedparmnames self);
  define_model := Confounder_define_model;
  get_back_scaled_idata := Confounder_get_back_scaled_idata
}.

Global Instance Metrics_variant : Variant MMMFbGoogleMetrics := {
  base := metrics_base;
  with_base self b :=
    mkMetrics b (metrics_modelname self) (fb_metric self) (google_metric self)
              (metrics_fittedparmnames self);
  define_model := Metrics_define_model;
  get_back_scaled_idata := Metrics_get_back_scaled_idata
}.

Section Fit.
(** The sampler of the modelling library, taken as given. *)
Variable sample : pm_Model -> gmap string (list xval).

(** [MMM.fit]: builds the graph when there is none yet, then samples. *)
Definition fit {T : Type} `{Variant T} (self : T) : result T :=
  self ← (match model (base self) with
          | None => define_model self
          | Some _ => Ok self
          end);
  match model (base self) with
  | Some m => Ok (with_base self (set_idata (base self) (sample m)))
  | None => Raise (AttributeError "__enter__")
  end.
End Fit.

(** [n] calls of a method in a row, stopping at the first exception. *)
Fixpoint repeat_call {T : Type} (f : T -> result T) (n : nat) (self : T)
  : result T :=
  match n with
  | O => Ok self
  | S n' => self ← f self; repeat_call f n' self
  end.

(** How often a name is listed. *)
Fixpoint occurrences (name : string) (names : list string) : nat :=
  match names with
  | [] => 0
  | n :: rest =>
      (if decide (n = name) then 1 else 0) + occurrences name rest
  end.

(** ** Vocabulary of the statements *)

(** The median of a column of the raw table, when the column exists. *)
Definition raw_median (raw : gmap string (list cell)) (ch : string)
  : option xval :=
  (fun col : list cell => median (of_cell <$> col)) <$> raw !! ch.

(** The channel scale is the largest of [0] and the channel medians. *)
Definition max_of_medians (raw : gmap string (list cell))
    (names : list string) (c : xval) : Prop :=
  xlt c zero = false
  /\ (c = zero \/ exists ch, ch ∈ names /\ raw_median raw ch = Some c)
  /\ (forall ch m, ch ∈ names -> raw_median raw ch = Some m -> xgt m c = false).

(** What the scaled table holds, given the raw table, the channel names and
    the two scales: a column is divided by the channel scale once for each
    time it is named as a channel; the sales scale is the median of the
    sales column as it stands after that step; the sales column is then
    divided by the sales scale. *)
Definition scaled_in_two_steps (raw : gmap string (list cell))
    (names : list string) (sales_name : string) (c s : xval)
    (scaled : gmap string (list xval)) : Prop :=
  exists sales,
    Nat.iter (occurrences sales_name names) (divide_by c)
      <$> copy_frame raw !! sales_name = Some sales
    /\ s = median sales
    /\ scaled !! sales_name = Some (divide_by s sales)
    /\ forall name, name ≠ sales_name ->
         scaled !! name
         = Nat.iter (occurrences name names) (divide_by c)
             <$> copy_frame raw !! name.

(** A number or a missing value, but no infinity. *)
Definition no_inf (x : xval) : bool :=
  match x with PInf | NInf => false | _ => true end.

(** The scaled table is in place and holds the sales column and every
    named channel column; the constructor establishes this. *)
Definition ready (b : MMM) : Prop :=
  exists scaled,
    data_scaled b = Some scaled
    /\ (forall ch, ch ∈ channelnames b -> is_Some (scaled !! ch))
    /\ is_Some (scaled !! salesname b).

(** A column of the scaled table holds no not-a-number; so for a column
    that the table lacks. *)
Definition column_complete (b : MMM) (name : string) : bool :=
  match data_scaled b with
  | Some scaled =>
      match scaled !! name with
      | Some col => forallb notna col
      | None => true
      end
  | None => true
  end.

(** No scaled channel column holds a not-a-number: the array that the
    straight model hands to [pm.Data] is one the library accepts. *)
Definition channels_complete (b : MMM) : bool :=
  forallb (column_complete b) (channelnames b).

(** The constructor has returned an instance, and a check on its base
    object holds. *)
Definition constructed_with {T : Type} {V : Variant T} (check : MMM -> bool)
    (r : result T) : bool :=
  match r with
  | Ok self => check (base self)
  | Raise _ => false
  end.

(** The fitted parameter names after one call of
    [MMMChannelsStraight.define_model], from the names before it. *)
Definition straight_names_after (intercept adstock : bool)
    (names : list string) : list string :=
  let names :=
    if intercept
    then if bool_decide ("intercept" ∈@{list string} names)
         then names else (names ++ ["intercept"])%list
    else names in
  if adstock then (names ++ ["alpha"; "lam"])%list else names.

(** The draws of a parameter, each multiplied by [k]. *)
Definition times (k : xval) (draws : list xval) : list xval :=
  (fun x => xmul x k) <$> draws.

(** The factor by which back-scaling multiplies the draws of a parameter,
    per variant; [1] for a parameter it leaves alone. *)
Definition straight_factor (intercept : bool) (s c : xval) (name : string)
  : xval :=
  if decide (name = "intercept") then (if intercept then s else one)
  else if decide (name = "sigma") then c
  else if decide (name = "beta") then xdiv s c
  else one.

Definition confounder_factor (s c : xval) (name : string) : xval :=
  if decide (name = "intercept") then s
  else if decide (name = "sigma") then c
  else if decide (name = "beta_google") then xdiv s c
  else if decide (name = "beta_fb") then xdiv s c
  else if decide (name = "spend_google_0") then c
  else if decide (name = "sigma_google") then c
  else one.

Definition metrics_factor (s c : xval) (name : string) : xval :=
  if decide (name = "intercept") then s
  else if decide (name = "sigma") then c
  else if decide (name = "beta_fb") then s
  else if decide (name = "beta_google") then s
  else one.

(** Projections of a run's outcome, for evaluating examples. *)
Definition scales_of (r : result MMM) : option (xval * xval) :=
  match r with
  | Ok self => Some (channelscale self, salesscale self)
  | Raise _ => None
  end.

Definition straight_names_of (r : result MMMChannelsStraight)
  : option (list string) :=
  match r with
  | Ok self => Some (straight_fittedparmnames self)
  | Raise _ => None
  end.

Definition confounder_names_of (r : result MMMChannelsStraightConfounder)
  : option (list string) :=
  match r with
  | Ok self => Some (confounder_fittedparmnames self)
  | Raise _ => None
  end.

(** ** Example data *)

(** A column of whole numbers, none missing. *)
Definition nums (l : list Z) : list cell := (fun z => Some (qz z)) <$> l.

(** Ten days, two channels of median 100, sales of median 500. *)
Definition ten_days : gmap string (list cell) :=
  <["date" := nums [1; 2; 3; 4; 5; 6; 7; 8; 9; 10]%Z]>
  (<["spend_a" := nums [60; 140; 100; 70; 130; 80; 120; 100; 90; 110]%Z]>
  (<["spend_b" := nums [100; 50; 150; 100; 100; 200; 20; 100; 300; 100]%Z]>
  (<["sales" := nums [300; 800; 490; 400; 700; 450; 600; 510; 480; 520]%Z]> ∅))).

(** A table whose only channel has median 0. *)
Definition idle_days : gmap string (list cell) :=
  <["date" := nums [1; 2; 3]%Z]>
  (<["spend_a" := nums [0; 0; 5]%Z]>
  (<["sales" := nums [300; 500; 400]%Z]> ∅)).

(** A table for the confounder model. *)
Definition fb_google_days : gmap string (list cell) :=
  <["date" := nums [1; 2; 3; 4]%Z]>
  (<["spend_fb" := nums [10; 20; 30; 40]%Z]>
  (<["spend_google" := nums [15; 25; 45; 35]%Z]>
  (<["sales" := nums [100; 140; 200; 180]%Z]> ∅))).

(** One date and one draw for the confounder graph: intercept 1, both
    channel coefficients 0. *)
Definition intercept_only : gmap string Qc :=
  <["intercept" := qz 1]>
  (<["beta_fb" := qz 0]>
  (<["beta_google" := qz 0]>
  (<["spend_fb" := qz 10]>
  (<["spend_google" := qz 15]>
  (<["beta_fb_google" := qz 1]>
  (<["spend_google_0" := qz 5]> ∅)))))).

(** A posterior with two draws of each parameter of the three variants. *)
Definition two_draws : gmap string (list xval) :=
  <["intercept" := [Fin (qz 1); Fin (qz 2)]]>
  (<["sigma" := [Fin (qz 3); Fin (qz 4)]]>
  (<["beta" := [Fin (qz 5); Fin (qz 6)]]>
  (<["beta_fb" := [Fin (qz 7); Fin (qz 8)]]>
  (<["beta_google" := [Fin (qz 9); Fin (qz 10)]]>
  (<["beta_fb_google" := [Fin (qz 11); Fin (qz 12)]]>
  (<["spend_google_0" := [Fin (qz 13); Fin (qz 14)]]>
  (<["sigma_google" := [Fin (qz 15); Fin (qz 16)]]> ∅))))))).

(** Instances fitted with a sampler that returns [two_draws]. *)
Definition fitted_straight (intercept : bool) : result MMMChannelsStraight :=
  self ← Straight_init ten_days ["spend_a"; "spend_b"] intercept false 6;
  fit (fun _ => two_draws) self.

Definition fitted_confounder : result MMMChannelsStraightConfounder :=
  self ← Confounder_init fb_google_days ["spend_fb"; "spend_google"];
  fit (fun _ => two_draws) self.

Definition fitted_metrics : result MMMFbGoogleMetrics :=
  self ← Metrics_init fb_google_days ["spend_fb"; "spend_google"]
           "spend_fb" "spend_google";
  fit (fun _ => two_draws) self.

(** What a fitted instance carries for back-scaling. *)
Definition fitted_state {T : Type} `{Variant T} (r : result T)
  : option (xval * xval * option (gmap string (list xval))) :=
  match r with
  | Ok self =>
      Some (salesscale (base self), channelscale (base self),
            idata (base self))
  | Raise _ => None
  end.

(** ** Well-formedness of a model graph *)

(** The nodes an expression refers to. *)
Fixpoint vars_of (e : expr) : list string :=
  match e with
  | Const _ => []
  | Var name => [name]
  | Add a b | Mul a b | Dot a b => vars_of a ++ vars_of b
  | GeometricAdstock x alpha _ _ _ => vars_of x ++ vars_of alpha
  | LogisticSaturation x lam => vars_of x ++ vars_of lam
  end%list.

Definition dist_vars (d : dist) : list string :=
  match d with
  | Normal mu sigma => vars_of mu ++ vars_of sigma
  | HalfNormal => []
  | Beta alpha beta | Gamma alpha beta => vars_of alpha ++ vars_of beta
  end%list.

Definition node_vars (n : node) : list string :=
  match n with
  | Data _ _ => []
  | Prior d _ | Observed d _ _ => dist_vars d
  | Deterministic var _ => vars_of var
  end.

Definition node_dims (n : node) : list string :=
  match n with
  | Data _ dims | Prior _ dims | Deterministic _ dims | Observed _ _ dims =>
      dims
  end.

(** Every node refers only to nodes declared before it, under a name not
    used before. *)
Fixpoint declared_before_use (seen : list string)
    (entries : list (string * node)) : bool :=
  match entries with
  | [] => true
  | (name, n) :: rest =>
      forallb (fun v => bool_decide (v ∈ seen)) (node_vars n)
      && bool_decide (name ∉ seen)
      && declared_before_use (name :: seen) rest
  end.

(** Every dimension a node names is a coordinate of the model. *)
Definition dims_known (m : pm_Model) : bool :=
  forallb (fun entry : string * node =>
             forallb (fun d => bool_decide (d ∈ (coords m).*1))
                     (node_dims entry.2))
          (nodes m).

Definition well_formed (m : pm_Model) : bool :=
  declared_before_use [] (nodes m) && dims_known m.

(** A table for the metrics-driven model. *)
Definition clicks_days : gmap string (list cell) :=
  <["clicks_fb" := nums [120; 80; 100; 90]%Z]>
  (<["clicks_google" := nums [40; 60; 50; 70]%Z]> fb_google_days).

(** The priors of the straight model's graph, by flags. *)
Definition straight_priors (intercept adstock : bool) : list string :=
  ((if intercept then ["intercept"] else [])
   ++ ["sigma"; "beta"]
   ++ (if adstock then ["alpha"; "lam"] else []))%list.

(** ** Evaluating a graph with per-channel vectors

    At one date the spend of the straight model is a vector over the
    channels, and so is [beta]; [Dot] is their inner product.  The
    transforms of the marketing library have no value here either. *)

Inductive value : Type :=
| Scalar (q : Qc)
| Vector (v : list Qc).

(** Inner product; no value when the lengths differ. *)
Fixpoint dot (a b : list Qc) : option Qc :=
  match a, b with
  | [], [] => Some (qz 0)
  | x :: a', y :: b' =>
      match dot a' b' with
      | Some r => Some (x * y + r)%Qc
      | None => None
      end
  | _, _ => None
  end.

Fixpoint veval (env : gmap string value) (e : expr) : option value :=
  match e with
  | Const q => Some (Scalar q)
  | Var name => env !! name
  | Add a b =>
      match veval env a, veval env b with
      | Some (Scalar x), Some (Scalar y) => Some (Scalar (x + y)%Qc)
      | _, _ => None
      end
  | Mul a b =>
      match veval env a, veval env b with
      | Some (Scalar x), Some (Scalar y) => Some (Scalar (x * y)%Qc)
      | _, _ => None
      end
  | Dot a b =>
      match veval env a, veval env b with
      | Some (Vector x), Some (Vector y) => Scalar <$> dot x y
      | _, _ => None
      end
  | GeometricAdstock _ _ _ _ _ | LogisticSaturation _ _ => None
  end.

Definition vforward_step (env : gmap string value) (entry : string * node)
  : gmap string value :=
  match entry.2 with
  | Deterministic var _ =>
      match veval env var with
      | Some v => <[entry.1 := v]> env
      | None => env
      end
  | _ => env
  end.

Definition vforward (m : pm_Model) (roots : gmap string value)
  : gmap string value :=
  fold_left vforward_step (nodes m) roots.

(** One date and one draw for the straight graph on two channels. *)
Definition two_channel_draw : gmap string value :=
  <["spend" := Vector [qz 2; qz 3]]>
  (<["beta" := Vector [qz 5; qz 7]]>
  (<["intercept" := Scalar (qz 11)]> ∅)).

(** One date and one draw for the metrics-driven graph. *)
Definition metrics_draw : gmap string Qc :=
  <["intercept" := qz 1]>
  (<["beta_fb" := qz 2]>
  (<["beta_google" := qz 3]>
  (<["fb_in" := qz 10]>
  (<["google_in" := qz 20]> ∅)))).

(** ** Vocabulary of the back-scaling outcomes *)

(** The posterior variables a variant's [get_back_scaled_idata] assigns, in
    the order of its assignments. *)
Definition straight_rescaled (intercept : bool) : list string :=
  ((if intercept then ["intercept"] else []) ++ ["sigma"; "beta"])%list.

Definition confounder_rescaled : list string :=
  ["intercept"; "sigma"; "beta_google"; "beta_fb"; "spend_google_0";
   "sigma_google"].

Definition metrics_rescaled : list string :=
  ["intercept"; "sigma"; "beta_fb"; "beta_google"].

(** The first name of a list that a posterior has no variable for. *)
Fixpoint first_missing (names : list string) (p : gmap string (list xval))
  : option string :=
  match names with
  | [] => None
  | name :: rest =>
      match p !! name with
      | Some _ => first_missing rest p
      | None => Some name
      end
  end.

(** A run of assignments [posterior[name] = f(posterior[name])]. *)
Fixpoint rescale_all (steps : list (string * (xval -> xval)))
    (p : gmap string (list xval)) : result (gmap string (list xval)) :=
  match steps with
  | [] => Ok p
  | (name, f) :: rest => p ← rescale name f p; rescale_all rest p
  end.

(** The straight model constructed on the table whose channel scale is 0,
    with [two_draws] assigned to [idata] by hand; [fit] does not get that
    far on this table, as [define_model] raises. *)
Definition idle_with_draws : result MMMChannelsStraight :=
  self ← Straight_init idle_days ["spend_a"] true false 6;
  Ok (with_base self (set_idata (base self) two_draws)).

(** A sampler that returns one draw, the number 1, for every prior of the
    graph. *)
Definition unit_sampler (m : pm_Model) : gmap string (list xval) :=
  list_to_map ((fun name => (name, [one])) <$> prior_names m).

(** ** [MMM.plot_parm_dist]

    The drawing is the plotting library's.  What the method decides is
    which posterior and which variable names it hands over; the flag
    [original_scale] is a parameter that the body never reads. *)

Record posterior_plot : Type := mkPosteriorPlot {
  plot_idata : gmap string (list xval);
  plot_var_names : list string
}.

Definition plot_parm_dist {T : Type} {V : Variant T}
    (fittedparmnames : T -> list string) (self : T) (original_scale : bool)
  : result posterior_plot :=
  p ← get_back_scaled_idata self;
  Ok (mkPosteriorPlot p (fittedparmnames self)).

(** * Properties *)

(** ** Order on the extended numbers *)

Lemma xlt_Fin (a b : Qc) : xlt (Fin a) (Fin b) = true <-> (a < b)%Qc.
Proof.
  simpl. rewrite Qclt_alt. destruct (Qccompare a b); split; congruence.
Qed.

Lemma xlt_Fin_false (a b : Qc) : xlt (Fin a) (Fin b) = false <-> (b <= a)%Qc.
Proof.
  rewrite <- not_true_iff_false, xlt_Fin. split.
  - apply Qcnot_lt_le.
  - apply Qcle_not_lt.
Qed.

Lemma xlt_irrefl (x : xval) : xlt x x = false.
Proof.
  destruct x as [q| | |]; try reflexivity.
  apply xlt_Fin_false, Qcle_refl.
Qed.

Lemma xlt_notna (x y : xval) : xlt x y = true -> notna x = true /\ notna y = true.
Proof. destruct x, y; simpl; intros H; try discriminate; auto. Qed.

(** [a <= b <= c] gives [a <= c] when the middle value is a number. *)
Lemma xle_trans (a b c : xval) :
  notna b = true -> xlt b a = false -> xlt c b = false -> xlt c a = false.
Proof.
  destruct a as [a| | |], b as [b| | |], c as [c| | |];
    try reflexivity; try discriminate; intros _.
  rewrite !xlt_Fin_false. intros Hab Hbc. by apply Qcle_trans with b.
Qed.

Lemma xlt_asym (a b : xval) : xlt a b = true -> xlt b a = false.
Proof.
  destruct a as [a| | |], b as [b| | |]; try reflexivity; try discriminate.
  rewrite xlt_Fin, xlt_Fin_false. apply Qclt_le_weak.
Qed.

(** ** The exception monad *)

Lemma bind_Ok {A B : Type} (m : result A) (f : A -> result B) (b : B) :
  m ≫= f = Ok b <-> exists a, m = Ok a /\ f a = Ok b.
Proof.
  destruct m as [a|e]; simpl; split.
  - intros H. by exists a.
  - by intros (a' & [= ->] & H).
  - discriminate.
  - by intros (a' & [=] & _).
Qed.

Lemma getcol_Ok {A : Type} (df : gmap string A) (name : string) (c : A) :
  getcol df name = Ok c <-> df !! name = Some c.
Proof.
  unfold getcol. destruct (df !! name); split; congruence.
Qed.

Lemma getcol_present {A : Type} (df : gmap string A) (name : string) :
  is_Some (df !! name) -> exists c, getcol df name = Ok c /\ df !! name = Some c.
Proof. intros [c Hc]. exists c. by rewrite getcol_Ok. Qed.

Ltac bind_inv H :=
  repeat match type of H with
    | _ ≫= _ = Ok _ =>
        let a := fresh "a" in
        let Ha := fresh "Ha" in
        apply bind_Ok in H as (a & Ha & H)
    end.

(** ** The two loops of [set_scaling] *)

Lemma channel_scale_loop_spec raw names s0 c :
  notna s0 = true ->
  channel_scale_loop raw names s0 = Ok c ->
  notna c = true
  /\ xlt c s0 = false
  /\ (c = s0 \/ exists ch, ch ∈ names /\ raw_median raw ch = Some c)
  /\ (forall ch m, ch ∈ names -> raw_median raw ch = Some m -> xgt m c = false).
Proof.
  revert s0. induction names as [|ch rest IH]; intros s0 Hs0 H; simpl in H.
  - injection H as <-. repeat split; auto using xlt_irrefl.
    intros ch m Hin. by apply elem_of_nil in Hin.
  - apply bind_Ok in H as (col & Hcol & H). apply getcol_Ok in Hcol.
    set (m := median (of_cell <$> col)) in *.
    assert (Hm : raw_median raw ch = Some m) by (unfold raw_median; by rewrite Hcol).
    set (s1 := if xgt m s0 then m else s0) in *.
    assert (Hs1 : notna s1 = true).
    { subst s1. destruct (xgt m s0) eqn:E; [|done].
      by apply xlt_notna in E as [_ ?]. }
    assert (H01 : xlt s1 s0 = false).
    { subst s1. destruct (xgt m s0) eqn:E; [by apply xlt_asym | apply xlt_irrefl]. }
    assert (Hm1 : xlt s1 m = false).
    { subst s1. destruct (xgt m s0) eqn:E; [apply xlt_irrefl | exact E]. }
    destruct (IH s1 Hs1 H) as (Hc & H1c & Hor & Hall).
    split; [done|]. split; [by apply xle_trans with s1|]. split.
    + destruct Hor as [->|(ch' & Hin & Hch')].
      * subst s1. destruct (xgt m s0); [right | by left].
        exists ch. split; [apply elem_of_cons; by left | done].
      * right. exists ch'. split; [apply elem_of_cons; by right | done].
    + intros ch' m' Hin Hm'. apply elem_of_cons in Hin as [->|Hin].
      * rewrite Hm in Hm'. injection Hm' as <-.
        unfold xgt. by apply xle_trans with s1.
      * by apply Hall with ch'.
Qed.

Lemma channel_scale_loop_present raw names s0 c :
  channel_scale_loop raw names s0 = Ok c ->
  forall ch, ch ∈ names -> is_Some (raw !! ch).
Proof.
  revert s0. induction names as [|n rest IH]; intros s0 H ch Hin; simpl in H.
  - by apply elem_of_nil in Hin.
  - apply bind_Ok in H as (col & Hcol & H). apply getcol_Ok in Hcol.
    apply elem_of_cons in Hin as [->|Hin]; [by eexists | by eapply IH].
Qed.

Lemma channel_scale_loop_ok raw names s0 :
  (forall ch, ch ∈ names -> is_Some (raw !! ch)) ->
  exists c, channel_scale_loop raw names s0 = Ok c.
Proof.
  revert s0. induction names as [|ch rest IH]; intros s0 Hall; simpl.
  - by exists s0.
  - destruct (getcol_present raw ch) as (col & -> & _).
    { apply Hall, elem_of_cons. by left. }
    simpl. apply IH. intros ch' Hin. apply Hall, elem_of_cons. by right.
Qed.

Lemma iter_divide_shift (n : nat) (c : xval) (col : list xval) :
  Nat.iter n (divide_by c) (divide_by c col)
  = divide_by c (Nat.iter n (divide_by c) col).
Proof. induction n as [|n IH]; simpl; [done | by rewrite IH]. Qed.

Lemma channel_divide_loop_spec names c scaled scaled' :
  channel_divide_loop names c scaled = Ok scaled' ->
  forall name,
    scaled' !! name
    = Nat.iter (occurrences name names) (divide_by c) <$> scaled !! name.
Proof.
  revert scaled. induction names as [|ch rest IH]; intros scaled H name; simpl in H.
  - injection H as <-. simpl. by destruct (scaled !! name).
  - apply bind_Ok in H as (col & Hcol & H). apply getcol_Ok in Hcol.
    rewrite (IH _ H name). simpl. destruct (decide (ch = name)) as [->|Hne].
    + rewrite lookup_insert_eq, Hcol. simpl. by rewrite iter_divide_shift.
    + by rewrite lookup_insert_ne.
Qed.

Lemma channel_divide_loop_ok names c scaled :
  (forall ch, ch ∈ names -> is_Some (scaled !! ch)) ->
  exists scaled', channel_divide_loop names c scaled = Ok scaled'.
Proof.
  revert scaled. induction names as [|ch rest IH]; intros scaled Hall; simpl.
  - by exists scaled.
  - destruct (getcol_present scaled ch) as (col & -> & _).
    { apply Hall, elem_of_cons. by left. }
    simpl. apply IH. intros ch' Hin.
    destruct (decide (ch = ch')) as [->|Hne].
    + rewrite lookup_insert_eq. by eexists.
    + rewrite lookup_insert_ne by done. apply Hall, elem_of_cons. by right.
Qed.

(** ** [set_scaling] and the constructor *)

Lemma set_scaling_spec (self self' : MMM) :
  set_scaling self = Ok self' ->
  max_of_medians (data_raw self) (channelnames self) (channelscale self')
  /\ (exists scaled,
        data_scaled self' = Some scaled
        /\ scaled_in_two_steps (data_raw self) (channelnames self)
             (salesname self) (channelscale self') (salesscale self') scaled)
  /\ data_raw self' = data_raw self
  /\ channelnames self' = channelnames self
  /\ salesname self' = salesname self
  /\ notna (channelscale self') = true.
Proof.
  unfold set_scaling. intros H.
  apply bind_Ok in H as (c & Hc & H).
  apply bind_Ok in H as (scaled1 & H1 & H).
  apply bind_Ok in H as (sales & Hsales & H).
  injection H as <-. simpl. apply getcol_Ok in Hsales.
  apply channel_scale_loop_spec in Hc as (Hna & H0 & Hor & Hall); [|done].
  pose proof (channel_divide_loop_spec _ _ _ _ H1) as Hdiv.
  repeat split; try done.
  exists (<[salesname self := divide_by (median sales) sales]> scaled1).
  split; [done|]. exists sales. repeat split.
  - by rewrite <- Hdiv.
  - by rewrite lookup_insert_eq.
  - intros name Hne. rewrite lookup_insert_ne by done. apply Hdiv.
Qed.

Lemma MMM_init_spec data names self :
  MMM_init data names = Ok self ->
  set_scaling (mkMMM data names "sales" "date" (dates self)
                     zero zero None None None) = Ok self.
Proof.
  unfold MMM_init. intros H. apply bind_Ok in H as (d & Hd & H).
  assert (dates self = d) as ->; [|done].
  unfold set_scaling in H. bind_inv H. by injection H as <-.
Qed.

Lemma ten_days_scales :
  scales_of (MMM_init ten_days ["spend_a"; "spend_b"])
  = Some (Fin (qz 100), Fin (qz 500)).
Proof.
  apply (bool_decide_eq_true_1 _). vm_compute. reflexivity.
Qed.

Lemma ten_days_medians :
  raw_median ten_days "spend_a" = Some (Fin (qz 100))
  /\ raw_median ten_days "spend_b" = Some (Fin (qz 100))
  /\ raw_median ten_days "sales" = Some (Fin (qz 500))
  /\ length <$> ten_days !! "date" = Some 10.
Proof.
  repeat split; apply (bool_decide_eq_true_1 _); vm_compute; reflexivity.
Qed.

(** ** Dividing a column by a positive number *)

Section DividePositive.
Variable c : Qc.
Hypothesis c_pos : (0 < c)%Qc.

Let f (x : xval) : xval := xdiv x (Fin c).

Lemma c_nonzero : c ≠ qz 0.
Proof. intros ->. by apply (Qclt_not_eq _ _ c_pos). Qed.

Lemma c_sign : Qccompare c (qz 0) = Gt.
Proof. by apply Qcgt_alt. Qed.

Lemma div_pos_Fin (a : Qc) : f (Fin a) = Fin (a / c).
Proof. unfold f. simpl. destruct (decide (c = qz 0)); [by destruct c_nonzero | done]. Qed.

Lemma div_pos_PInf : f PInf = PInf.
Proof.
  unfold f. simpl. destruct (decide (c = qz 0)); [done|]. by rewrite c_sign.
Qed.

Lemma div_pos_NInf : f NInf = NInf.
Proof.
  unfold f. simpl. destruct (decide (c = qz 0)); [done|]. by rewrite c_sign.
Qed.

Lemma div_pos_NaN : f NaN = NaN.
Proof. done. Qed.

Lemma div_pos_notna (x : xval) : notna (f x) = notna x.
Proof.
  destruct x; [by rewrite div_pos_Fin | by rewrite div_pos_PInf
              | by rewrite div_pos_NInf | done].
Qed.

Lemma div_pos_xlt (x y : xval) : xlt (f x) (f y) = xlt x y.
Proof.
  destruct x as [a| | |], y as [b| | |];
    rewrite ?div_pos_Fin, ?div_pos_PInf, ?div_pos_NInf, ?div_pos_NaN;
    try reflexivity.
  pose proof (Qcinv_pos _ c_pos) as Hinv.
  destruct (xlt (Fin a) (Fin b)) eqn:E.
  - apply xlt_Fin. apply xlt_Fin in E. unfold Qcdiv.
    by apply Qcmult_lt_mono_pos_r.
  - apply xlt_Fin_false. apply xlt_Fin_false in E. unfold Qcdiv.
    by apply Qcmult_le_mono_pos_r.
Qed.

Lemma div_pos_dropna (l : list xval) : dropna (f <$> l) = f <$> dropna l.
Proof.
  unfold dropna. induction l as [|x l IH]; [done|].
  rewrite fmap_cons. cbn [List.filter]. rewrite div_pos_notna, IH.
  by destruct (notna x).
Qed.

Lemma div_pos_insert_sorted (x : xval) (l : list xval) :
  insert_sorted (f x) (f <$> l) = f <$> insert_sorted x l.
Proof.
  induction l as [|y l IH]; [done|].
  rewrite fmap_cons. cbn [insert_sorted]. unfold xleb. rewrite div_pos_xlt.
  destruct (xlt y x); cbn [negb]; [by rewrite fmap_cons, IH | done].
Qed.

Lemma div_pos_sort (l : list xval) : sort (f <$> l) = f <$> sort l.
Proof.
  induction l as [|x l IH]; [done|].
  rewrite fmap_cons. cbn [sort]. by rewrite IH, div_pos_insert_sorted.
Qed.

Lemma div_pos_nth (l : list xval) (i : nat) :
  nth i (f <$> l) NaN = f (nth i l NaN).
Proof. change NaN with (f NaN) at 1. apply map_nth. Qed.

Lemma two_nonzero : qz 2 ≠ qz 0.
Proof. done. Qed.

Lemma div_pos_mean (x y : xval) :
  xdiv (xadd (f x) (f y)) (Fin (qz 2)) = f (xdiv (xadd x y) (Fin (qz 2))).
Proof.
  assert (H2 : forall a, xdiv (Fin a) (Fin (qz 2)) = Fin (a / qz 2)).
  { intros a. simpl. by destruct (decide (qz 2 = qz 0)). }
  assert (HP : xdiv PInf (Fin (qz 2)) = PInf).
  { simpl. by destruct (decide (qz 2 = qz 0)). }
  assert (HN : xdiv NInf (Fin (qz 2)) = NInf).
  { simpl. by destruct (decide (qz 2 = qz 0)). }
  destruct x as [a| | |], y as [b| | |];
    rewrite ?div_pos_Fin, ?div_pos_PInf, ?div_pos_NInf, ?div_pos_NaN;
    cbn [xadd];
    rewrite ?H2, ?HP, ?HN, ?div_pos_Fin, ?div_pos_PInf, ?div_pos_NInf,
      ?div_pos_NaN; try reflexivity.
  f_equal. field. split; [apply two_nonzero | apply c_nonzero].
Qed.

(** The median commutes with the division. *)
Lemma median_divide_pos (l : list xval) :
  median (divide_by (Fin c) l) = xdiv (median l) (Fin c).
Proof.
  unfold median, divide_by. fold f.
  rewrite div_pos_dropna, div_pos_sort, length_fmap.
  destruct (length (sort (dropna l))) as [|n] eqn:Hn; [done|].
  rewrite !div_pos_nth.
  destruct (Nat.even (S n)); [apply div_pos_mean | done].
Qed.

Lemma median_iter_divide_pos (k : nat) (l : list xval) :
  median (Nat.iter k (divide_by (Fin c)) l) = Nat.iter k f (median l).
Proof.
  induction k as [|k IH]; [done|].
  by rewrite !Nat.iter_succ, median_divide_pos, IH.
Qed.

Lemma iter_div_pos_nonzero (k : nat) (m : Qc) :
  m ≠ qz 0 -> exists m', Nat.iter k f (Fin m) = Fin m' /\ m' ≠ qz 0.
Proof.
  intros Hm. induction k as [|k (m' & Hk & IH)]; [by exists m|].
  rewrite Nat.iter_succ, Hk. exists (m' / c)%Qc. split; [apply div_pos_Fin|].
  intros H. apply IH.
  rewrite <- (Qcmult_div_r m' c c_nonzero). change (qz 0) with 0%Qc in *.
  rewrite H. apply Qcmult_0_r.
Qed.
End DividePositive.

(** ** Medians of raw columns are numbers or missing *)

Lemma insert_sorted_Forall (P : xval -> Prop) (x : xval) (l : list xval) :
  P x -> Forall P l -> Forall P (insert_sorted x l).
Proof.
  intros Hx. induction 1 as [|y l Hy Hl IH]; simpl.
  - by constructor.
  - destruct (xleb x y); repeat constructor; auto.
Qed.

Lemma sort_Forall (P : xval -> Prop) (l : list xval) :
  Forall P l -> Forall P (sort l).
Proof.
  induction 1 as [|x l Hx Hl IH]; simpl; [constructor|].
  by apply insert_sorted_Forall.
Qed.

Lemma dropna_fin (l : list xval) :
  Forall (fun x => no_inf x = true) l ->
  Forall (fun x => is_fin x = true) (dropna l).
Proof.
  unfold dropna. induction 1 as [|x l Hx Hl IH]; simpl; [constructor|].
  destruct x; simpl; try done. by constructor.
Qed.

Lemma median_no_inf (l : list xval) :
  Forall (fun x => no_inf x = true) l -> no_inf (median l) = true.
Proof.
  intros Hl. apply dropna_fin, (sort_Forall _) in Hl.
  unfold median. set (s := sort (dropna l)) in *.
  destruct (length s) as [|n] eqn:Hn; [done|].
  assert (Hnth : forall i, i < length s -> exists q, nth i s NaN = Fin q).
  { intros i Hi. pose proof (proj1 (List.Forall_nth _ s) Hl i NaN Hi) as H.
    destruct (nth i s NaN); try done. by eexists. }
  assert (Hhalf : S n / 2 < S n) by (apply Nat.div_lt; lia).
  destruct (Hnth (S n / 2)) as [b Hb]; [lia|].
  destruct (Hnth (S n / 2 - 1)) as [a Ha]; [lia|].
  rewrite Ha, Hb. destruct (Nat.even (S n)); [|done].
  simpl. by destruct (decide (qz 2 = qz 0)).
Qed.

Lemma of_cell_no_inf (col : list cell) :
  Forall (fun x => no_inf x = true) (of_cell <$> col).
Proof.
  induction col as [|[q|] col IH]; rewrite ?fmap_cons; by constructor.
Qed.

Lemma raw_median_no_inf raw ch m :
  raw_median raw ch = Some m -> no_inf m = true.
Proof.
  unfold raw_median. destruct (raw !! ch) as [col|]; [|done].
  intros [= <-]. apply median_no_inf, of_cell_no_inf.
Qed.

Lemma set_scaling_ok (self : MMM) :
  (forall ch, ch ∈ channelnames self -> is_Some (data_raw self !! ch)) ->
  is_Some (data_raw self !! salesname self) ->
  exists self', set_scaling self = Ok self'.
Proof.
  intros Hch Hsales. unfold set_scaling.
  destruct (channel_scale_loop_ok (data_raw self) (channelnames self) zero Hch)
    as [c ->].
  destruct (channel_divide_loop_ok (channelnames self) c
              (copy_frame (data_raw self))) as [scaled1 H1].
  { intros ch Hin. unfold copy_frame. rewrite lookup_fmap.
    destruct (Hch ch Hin) as [col ->]. by eexists. }
  cbn [mbind result_bind]. rewrite H1. cbn [mbind result_bind].
  destruct (getcol_present scaled1 (salesname self)) as (sales & -> & _).
  { rewrite (channel_divide_loop_spec _ _ _ _ H1). unfold copy_frame.
    rewrite lookup_fmap. destruct Hsales as [col ->]. by eexists. }
  by eexists.
Qed.

Lemma MMM_init_ok data names :
  (forall ch, ch ∈ names -> is_Some (data !! ch)) ->
  is_Some (data !! "date") ->
  is_Some (data !! "sales") ->
  exists self, MMM_init data names = Ok self.
Proof.
  intros Hch [d Hd] Hsales. unfold MMM_init.
  apply getcol_Ok in Hd. rewrite Hd. cbn [mbind result_bind].
  by apply set_scaling_ok.
Qed.

(** ** Divisions by zero *)

Lemma xdiv_zero_not_fin (x : xval) : is_fin (xdiv x zero) = false.
Proof.
  destruct x as [a| | |]; simpl; try done;
    destruct (decide (qz 0 = qz 0)); try done.
  by destruct (Qccompare a (qz 0)).
Qed.

Lemma xdiv_not_fin (x y : xval) : is_fin x = false -> is_fin (xdiv x y) = false.
Proof.
  destruct x as [a| | |], y as [b| | |]; simpl; try done; intros _;
    destruct (decide (b = qz 0)); try done;
    by destruct (Qccompare b (qz 0)).
Qed.

Lemma divide_by_zero_not_fin (col : list xval) :
  Forall (fun x => is_fin x = false) (divide_by zero col).
Proof.
  unfold divide_by. apply Forall_fmap, Forall_true. intros x.
  apply xdiv_zero_not_fin.
Qed.

Lemma divide_by_not_fin (s : xval) (col : list xval) :
  Forall (fun x => is_fin x = false) col ->
  Forall (fun x => is_fin x = false) (divide_by s col).
Proof.
  unfold divide_by. intros H. apply Forall_fmap.
  revert H. apply List.Forall_impl. intros x Hx. by apply xdiv_not_fin.
Qed.

Lemma occurrences_elem_of (name : string) (names : list string) :
  name ∈ names -> exists k, occurrences name names = S k.
Proof.
  induction 1 as [name rest|name n rest Hin [k IH]]; simpl.
  - rewrite decide_True by done. by eexists.
  - rewrite IH. destruct (decide (n = name)); by eexists.
Qed.

(** The largest of 0 and non-positive medians is 0. *)
Lemma max_of_medians_nonpositive raw names c :
  notna c = true ->
  max_of_medians raw names c ->
  (forall ch m, ch ∈ names -> raw_median raw ch = Some m -> xgt m zero = false) ->
  c = zero.
Proof.
  intros Hna (Hge & [->|(ch & Hin & Hch)] & _) Hnonpos; [done|].
  pose proof (Hnonpos ch c Hin Hch) as Hle.
  apply raw_median_no_inf in Hch.
  destruct c as [q| | |]; try done.
  unfold xgt, zero in *. apply xlt_Fin_false in Hle, Hge.
  unfold zero. f_equal. by apply Qcle_antisym.
Qed.

(** The largest of 0 and the medians is positive once one median is. *)
Lemma max_of_medians_positive raw names c :
  notna c = true ->
  max_of_medians raw names c ->
  (exists ch m, ch ∈ names /\ raw_median raw ch = Some m /\ xgt m zero = true) ->
  exists q, c = Fin q /\ (0 < q)%Qc.
Proof.
  intros Hna (Hge & Hor & Hall) (ch & m & Hin & Hm & Hpos).
  pose proof (Hall ch m Hin Hm) as Hle.
  assert (Hc : no_inf c = true).
  { destruct Hor as [->|(ch' & _ & Hch')]; [done|].
    by apply raw_median_no_inf in Hch'. }
  apply raw_median_no_inf in Hm.
  destruct c as [q| | |]; try done. exists q. split; [done|].
  destruct m as [p| | |]; try done.
  unfold xgt, zero in *. apply xlt_Fin in Hpos. apply xlt_Fin_false in Hle.
  by apply Qclt_le_trans with p.
Qed.

(** ** Scaling at construction *)

(** With channels named and every channel median a number that is not
    negative, the largest of 0 and the medians is one of the medians. *)
Lemma max_of_medians_attained raw names c :
  names ≠ [] ->
  (forall ch, ch ∈ names -> is_Some (raw !! ch)) ->
  (forall ch m, ch ∈ names -> raw_median raw ch = Some m ->
                notna m = true /\ xlt m zero = false) ->
  max_of_medians raw names c ->
  exists ch, ch ∈ names /\ raw_median raw ch = Some c.
Proof.
  intros Hne Hcols Hnonneg (_ & [->|Hex] & Hall); [|done].
  destruct names as [|ch rest]; [done|]. exists ch.
  assert (Hin : ch ∈ ch :: rest) by (apply elem_of_cons; by left).
  split; [done|]. destruct (Hcols ch Hin) as [col Hcol].
  assert (Hm : raw_median raw ch = Some (median (of_cell <$> col))).
  { unfold raw_median. by rewrite Hcol. }
  rewrite Hm. f_equal.
  destruct (Hnonneg _ _ Hin Hm) as [Hna Hge].
  pose proof (Hall _ _ Hin Hm) as Hle.
  pose proof (raw_median_no_inf _ _ _ Hm) as Hfin.
  destruct (median (of_cell <$> col)) as [q| | |]; try done.
  unfold xgt, zero in *. apply xlt_Fin_false in Hge, Hle.
  f_equal. by apply Qcle_antisym.
Qed.

(** C1 (as amended).  For every table on which the constructor returns,
    the channel scale is the largest of 0 and the medians of the named
    channels in the raw table, hence the maximum of those medians when
    channels are named and their medians are numbers that are not
    negative; the scaled table has each named channel column divided by
    it; the sales scale is the median of the sales column of that
    intermediate table (the raw sales column itself when sales is not
    named as a channel), and the sales column is divided by it afterwards.
    On the ten-day table with two channels of median 100 and sales of
    median 500 the channel scale is 100 and the sales scale is 500. *)
Theorem set_scaling_two_step_order data names self :
  MMM_init data names = Ok self ->
  max_of_medians data names (channelscale self)
  /\ (names ≠ [] ->
      (forall ch m, ch ∈ names -> raw_median data ch = Some m ->
                    notna m = true /\ xlt m zero = false) ->
      exists ch, ch ∈ names /\ raw_median data ch = Some (channelscale self))
  /\ (exists scaled,
        data_scaled self = Some scaled
        /\ scaled_in_two_steps data names "sales"
             (channelscale self) (salesscale self) scaled)
  /\ (occurrences "sales" names = 0 ->
      exists sales, data !! "sales" = Some sales
                    /\ salesscale self = median (of_cell <$> sales))
  /\ (data = ten_days -> names = ["spend_a"; "spend_b"] ->
      channelscale self = Fin (qz 100) /\ salesscale self = Fin (qz 500)).
Proof.
  intros H. pose proof (MMM_init_spec _ _ _ H) as Hs.
  pose proof Hs as Hloop. unfold set_scaling in Hloop.
  apply bind_Ok in Hloop as (c & Hc & _).
  pose proof (channel_scale_loop_present _ _ _ _ Hc) as Hcols.
  apply set_scaling_spec in Hs as (Hmax & (scaled & Hscaled & Htwo) & _).
  simpl in *. split; [done|]. split; [|split; [by exists scaled|split]].
  - intros Hne Hnonneg. by apply max_of_medians_attained.
  - intros Hocc. destruct Htwo as (sales & Hsales & Hmed & _).
    rewrite Hocc in Hsales. unfold copy_frame in Hsales.
    rewrite lookup_fmap in Hsales.
    destruct (data !! "sales") as [col|]; [|done].
    exists col. split; [done|]. simpl in Hsales. by injection Hsales as <-.
  - intros -> ->. pose proof ten_days_scales as Hten.
    rewrite H in Hten. simpl in Hten. by injection Hten as -> ->.
Qed.

Lemma set_scaling_two_step_order_witness :
  exists self,
    MMM_init ten_days ["spend_a"; "spend_b"] = Ok self
    /\ channelscale self = Fin (qz 100) /\ salesscale self = Fin (qz 500).
Proof.
  destruct (MMM_init ten_days ["spend_a"; "spend_b"]) as [self|e] eqn:E.
  - exists self. split; [reflexivity|].
    apply (set_scaling_two_step_order ten_days ["spend_a"; "spend_b"] self E);
      reflexivity.
  - pose proof ten_days_scales as Hten. rewrite E in Hten. discriminate.
Defined.

(** C1 as stated fails: on a ten-day table whose two channels have median
    100 and whose sales have median 500, the sales scale is not 5. *)
Lemma sales_scale_is_not_5 :
  exists self,
    MMM_init ten_days ["spend_a"; "spend_b"] = Ok self
    /\ raw_median ten_days "spend_a" = Some (Fin (qz 100))
    /\ raw_median ten_days "spend_b" = Some (Fin (qz 100))
    /\ raw_median ten_days "sales" = Some (Fin (qz 500))
    /\ length <$> ten_days !! "date" = Some 10
    /\ channelscale self = Fin (qz 100)
    /\ salesscale self ≠ Fin (qz 5).
Proof.
  destruct (MMM_init ten_days ["spend_a"; "spend_b"]) as [self|e] eqn:E.
  - exists self. split; [reflexivity|].
    destruct ten_days_medians as (Ha & Hb & Hs & Hd).
    pose proof ten_days_scales as Hten. rewrite E in Hten. simpl in Hten.
    injection Hten as -> ->. repeat split; try done.
  - pose proof ten_days_scales as Hten. rewrite E in Hten. discriminate.
Qed.

(** C10.  On a table holding the date column, the sales column and every
    named channel column, the constructor returns.  When some named
    channel has a positive median and the sales median is a nonzero
    number, both scales are nonzero numbers, so neither division of
    [set_scaling] has a zero divisor.  When channels are named and none has
    a positive median, the channel scale is still its initial 0 and every
    named channel column is a column of quotients by 0, without a finite
    cell. *)
Theorem set_scaling_unguarded_divisions data names :
  Forall (fun ch => is_Some (data !! ch)) names ->
  is_Some (data !! "date") ->
  is_Some (data !! "sales") ->
  ((exists ch m, ch ∈ names /\ raw_median data ch = Some m
                 /\ xgt m zero = true) ->
   (exists m, raw_median data "sales" = Some (Fin m) /\ m ≠ qz 0) ->
   exists self c s,
     MMM_init data names = Ok self
     /\ channelscale self = Fin c /\ c ≠ qz 0
     /\ salesscale self = Fin s /\ s ≠ qz 0)
  /\ (names ≠ [] ->
      Forall (fun ch => forall m, raw_median data ch = Some m ->
                                  xgt m zero = false) names ->
      exists self scaled,
        MMM_init data names = Ok self
        /\ channelscale self = zero
        /\ data_scaled self = Some scaled
        /\ forall ch, ch ∈ names ->
             exists raw_col k col,
               data !! ch = Some raw_col
               /\ scaled !! ch = Some col
               /\ Forall (fun x => is_fin x = false) col
               /\ (ch ≠ "sales" ->
                   col = Nat.iter (S k) (divide_by zero) (of_cell <$> raw_col))).
Proof.
  intros Hch Hdate Hsales. rewrite list.Forall_forall in Hch.
  destruct (MMM_init_ok data names Hch Hdate Hsales) as [self Hinit].
  pose proof (MMM_init_spec _ _ _ Hinit) as Hs.
  apply set_scaling_spec in Hs
      as (Hmax & (scaled & Hscaled & Htwo) & _ & _ & _ & Hna).
  simpl in Hmax, Htwo. destruct Htwo as (sales & Hsales1 & Hmed & Hsales2 & Hother).
  unfold copy_frame in Hsales1, Hother. split.
  - intros Hpos (m & Hm & Hm0).
    destruct (max_of_medians_positive _ _ _ Hna Hmax Hpos) as (c & Hc & Hc0).
    rewrite Hc in *. unfold raw_median in Hm. rewrite lookup_fmap in Hsales1.
    destruct (data !! "sales") as [col|]; [|done].
    simpl in Hm, Hsales1. injection Hm as Hm. injection Hsales1 as <-.
    rewrite (median_iter_divide_pos c Hc0), Hm in Hmed.
    destruct (iter_div_pos_nonzero c Hc0
                (occurrences "sales" names) m Hm0) as (s & Hs & Hs0).
    exists self, c, s. repeat split; try done.
    + by apply c_nonzero.
    + by rewrite Hmed.
  - intros _ Hnonpos. rewrite list.Forall_forall in Hnonpos.
    assert (Hzero : channelscale self = zero).
    { apply (max_of_medians_nonpositive data names); try done.
      intros ch m Hin. by apply Hnonpos. }
    rewrite Hzero in *.
    exists self, scaled. repeat split; try done.
    intros ch Hin. destruct (Hch ch Hin) as [raw_col Hraw].
    destruct (occurrences_elem_of ch names Hin) as [k Hk].
    exists raw_col, k. destruct (decide (ch = "sales")) as [->|Hne].
    + exists (divide_by (salesscale self) sales).
      repeat split; try done.
      apply divide_by_not_fin.
      rewrite Hk, lookup_fmap in Hsales1.
      destruct (data !! "sales"); [|done]. injection Hsales1 as <-.
      apply divide_by_zero_not_fin.
    + exists (Nat.iter (S k) (divide_by zero) (of_cell <$> raw_col)).
      repeat split; try done.
      * rewrite (Hother ch Hne), lookup_fmap, Hraw, Hk. done.
      * rewrite Nat.iter_succ. apply divide_by_zero_not_fin.
Qed.

Lemma idle_days_median : raw_median idle_days "spend_a" = Some zero.
Proof. apply (bool_decide_eq_true_1 _). vm_compute. reflexivity. Qed.

Lemma set_scaling_unguarded_divisions_witness :
  (exists self c s,
     MMM_init ten_days ["spend_a"; "spend_b"] = Ok self
     /\ channelscale self = Fin c /\ c ≠ qz 0
     /\ salesscale self = Fin s /\ s ≠ qz 0)
  /\ (exists self scaled,
        MMM_init idle_days ["spend_a"] = Ok self
        /\ channelscale self = zero
        /\ data_scaled self = Some scaled
        /\ forall ch, ch ∈ ["spend_a"] ->
             exists raw_col k col,
               idle_days !! ch = Some raw_col
               /\ scaled !! ch = Some col
               /\ Forall (fun x => is_fin x = false) col
               /\ (ch ≠ "sales" ->
                   col = Nat.iter (S k) (divide_by zero) (of_cell <$> raw_col))).
Proof.
  assert (Hcols : forall (data : gmap string (list cell)) names,
             bool_decide (Forall (fun ch => is_Some (data !! ch)) names) = true ->
             Forall (fun ch => is_Some (data !! ch)) names).
  { intros data names. apply bool_decide_eq_true_1. }
  assert (Hcol : forall (data : gmap string (list cell)) name,
             bool_decide (is_Some (data !! name)) = true ->
             is_Some (data !! name)).
  { intros data name. apply bool_decide_eq_true_1. }
  split.
  - refine (proj1 (set_scaling_unguarded_divisions
                     ten_days ["spend_a"; "spend_b"] _ _ _) _ _).
    + apply Hcols. vm_compute. reflexivity.
    + apply Hcol. vm_compute. reflexivity.
    + apply Hcol. vm_compute. reflexivity.
    + exists "spend_a", (Fin (qz 100)). split; [apply elem_of_cons; by left|].
      split; [apply ten_days_medians | reflexivity].
    + exists (qz 500). split; [apply ten_days_medians | done].
  - refine (proj2 (set_scaling_unguarded_divisions
                     idle_days ["spend_a"] _ _ _) _ _).
    + apply Hcols. vm_compute. reflexivity.
    + apply Hcol. vm_compute. reflexivity.
    + apply Hcol. vm_compute. reflexivity.
    + done.
    + repeat constructor. intros m. rewrite idle_days_median.
      by intros [= <-].
Defined.

(** ** Model definition of the straight model *)

Lemma set_scaling_ready (self self' : MMM) :
  set_scaling self = Ok self' -> ready self'.
Proof.
  intros H. pose proof (set_scaling_spec _ _ H)
    as (_ & (scaled & Hscaled & sales & Hs1 & _ & Hs2 & Hother) & _ & Hn & Hsn & _).
  unfold set_scaling in H. apply bind_Ok in H as (c & Hc & _).
  pose proof (channel_scale_loop_present _ _ _ _ Hc) as Hraw.
  exists scaled. rewrite Hn, Hsn. split; [done|]. split; [|by eexists].
  intros ch Hin. destruct (decide (ch = salesname self)) as [->|Hne].
  - by eexists.
  - rewrite (Hother ch Hne). unfold copy_frame. rewrite lookup_fmap.
    destruct (Hraw ch Hin) as [col ->]. by eexists.
Qed.

Lemma set_scaling_model (self self' : MMM) :
  set_scaling self = Ok self' -> model self' = model self.
Proof.
  unfold set_scaling. intros H. bind_inv H. by injection H as <-.
Qed.

Lemma getcols_ok {A : Type} (df : gmap string A) (names : list string) :
  (forall n, n ∈ names -> is_Some (df !! n)) ->
  exists cs, getcols df names = Ok cs.
Proof.
  induction names as [|n rest IH]; intros Hall; simpl; [by eexists|].
  destruct (getcol_present df n) as (c & -> & _).
  { apply Hall, elem_of_cons. by left. }
  destruct IH as [cs ->].
  { intros n' Hin. apply Hall, elem_of_cons. by right. }
  by eexists.
Qed.

Lemma pm_Data_Ok name values dims (m m' : pm_Model) :
  pm_Data name values dims m = Ok m' <->
  complete values = true /\ m' = register name (Data values dims) m.
Proof.
  unfold pm_Data. destruct (complete values); split.
  - by intros [= <-].
  - by intros [_ ->].
  - discriminate.
  - by intros [? _].
Qed.

(** Inverting a run of [define_model] that has returned. *)
Ltac graph_inv H :=
  bind_inv H;
  repeat match goal with
    | Hd : pm_Data _ _ _ _ = Ok _ |- _ => apply pm_Data_Ok in Hd as [? ->]
    end.

Lemma pm_Data_refuses name values dims (m : pm_Model) :
  complete values = false ->
  exists msg, pm_Data name values dims m = Raise (NotImplementedError msg).
Proof. unfold pm_Data. intros ->. by eexists. Qed.

Lemma getcols_complete (b : MMM) scaled names cols :
  data_scaled b = Some scaled ->
  getcols scaled names = Ok cols ->
  complete cols = forallb (column_complete b) names.
Proof.
  intros Hd. revert cols. induction names as [|n rest IH]; intros cols H.
  - by injection H as <-.
  - cbn [getcols] in H. apply bind_Ok in H as (c & Hc & H).
    apply bind_Ok in H as (cs & Hcs & H). injection H as <-.
    apply getcol_Ok in Hc. cbn [complete forallb].
    unfold column_complete at 1. rewrite Hd, Hc. f_equal. by apply IH.
Qed.

Lemma Straight_init_spec data names ai aa lag self :
  Straight_init data names ai aa lag = Ok self ->
  ready (straight_base self)
  /\ model (straight_base self) = None
  /\ straight_fittedparmnames self = ["beta"; "sigma"]
  /\ allowIntercept self = ai
  /\ allowAdstockAndSat self = aa.
Proof.
  unfold Straight_init. intros H.
  apply bind_Ok in H as (b0 & H0 & H). apply bind_Ok in H as (b & Hb & H).
  injection H as <-. simpl. split; [by eapply set_scaling_ready|].
  split; [|done].
  apply MMM_init_spec, set_scaling_model in H0.
  apply set_scaling_model in Hb. by rewrite Hb, H0.
Qed.

Ltac names_solver :=
  unfold node_names, prior_names; cbn;
  apply (bool_decide_unpack _); vm_compute; exact I.

(** One call of [define_model]: on a ready instance it returns when no
    scaled channel column holds a not-a-number and raises otherwise; and
    this is what it leaves behind. *)
Lemma Straight_define_model_ok (self : MMMChannelsStraight) :
  ready (straight_base self) ->
  channels_complete (straight_base self) = true ->
  exists self', Straight_define_model self = Ok self'.
Proof.
  intros (scaled & Hscaled & Hch & Hsales) Hcomplete.
  unfold Straight_define_model, get_data_scaled. rewrite Hscaled.
  cbn [mbind result_bind].
  destruct (getcols_ok scaled _ Hch) as [cs Hcs]. rewrite Hcs.
  cbn [mbind result_bind]. unfold pm_Data.
  rewrite (getcols_complete _ _ _ _ Hscaled Hcs). fold (channels_complete
    (straight_base self)). rewrite Hcomplete. cbn [mbind result_bind].
  destruct (getcol_present _ _ Hsales) as (sales & Hs & _).
  destruct (allowIntercept self), (allowAdstockAndSat self);
    cbn [mbind result_bind]; rewrite Hs; by eexists.
Qed.

Lemma Straight_define_model_refuses (self : MMMChannelsStraight) :
  ready (straight_base self) ->
  channels_complete (straight_base self) = false ->
  exists msg, Straight_define_model self = Raise (NotImplementedError msg).
Proof.
  intros (scaled & Hscaled & Hch & Hsales) Hcomplete.
  unfold Straight_define_model, get_data_scaled. rewrite Hscaled.
  cbn [mbind result_bind].
  destruct (getcols_ok scaled _ Hch) as [cs Hcs]. rewrite Hcs.
  cbn [mbind result_bind]. unfold pm_Data.
  rewrite (getcols_complete _ _ _ _ Hscaled Hcs). fold (channels_complete
    (straight_base self)). rewrite Hcomplete. by eexists.
Qed.

Lemma Straight_define_model_spec (self self' : MMMChannelsStraight) :
  Straight_define_model self = Ok self' ->
  straight_fittedparmnames self'
  = straight_names_after (allowIntercept self) (allowAdstockAndSat self)
      (straight_fittedparmnames self)
  /\ allowIntercept self' = allowIntercept self
  /\ allowAdstockAndSat self' = allowAdstockAndSat self
  /\ (ready (straight_base self) -> ready (straight_base self'))
  /\ exists m, model (straight_base self') = Some m
     /\ (allowIntercept self = false -> "intercept" ∉ node_names m)
     /\ (allowIntercept self = true -> "intercept" ∈ prior_names m)
     /\ (allowAdstockAndSat self = false ->
         ("alpha" ∉ node_names m) /\ ("lam" ∉ node_names m))
     /\ (allowAdstockAndSat self = true ->
         ("alpha" ∈ prior_names m) /\ ("lam" ∈ prior_names m)).
Proof.
  unfold Straight_define_model, straight_names_after. intros H.
  apply bind_Ok in H as (scaled & Hscaled & H).
  apply bind_Ok in H as (cs & Hcs & H).
  apply bind_Ok in H as (m0 & [_ ->]%pm_Data_Ok & H).
  destruct (allowIntercept self) eqn:Hai, (allowAdstockAndSat self) eqn:Haa;
    cbn [mbind result_bind] in H;
    apply bind_Ok in H as (sales & Hsales & H); injection H as <-;
    cbn [straight_fittedparmnames allowIntercept allowAdstockAndSat
           straight_base];
    (split; [by rewrite <- ?app_assoc|]); (split; [done|]); (split; [done|]);
    (split; [by intros (sc & ? & ? & ?); exists sc|]);
    eexists; (split; [reflexivity|]);
    repeat (match goal with |- _ /\ _ => split end);
    intros Hflag; try discriminate Hflag; try split; names_solver.
Qed.

(** ** Repeated calls and the list of fitted parameter names *)

Lemma occurrences_app (name : string) (l1 l2 : list string) :
  occurrences name (l1 ++ l2) = occurrences name l1 + occurrences name l2.
Proof.
  induction l1 as [|n l1 IH]; simpl; [done|]. rewrite IH. lia.
Qed.

Lemma occurrences_not_elem_of (name : string) (names : list string) :
  name ∉ names <-> occurrences name names = 0.
Proof.
  split.
  - induction names as [|n rest IH]; intros Hnot; simpl; [done|].
    apply not_elem_of_cons in Hnot as [Hne Hnot].
    rewrite decide_False by done. by apply IH.
  - intros H0 Hin. apply occurrences_elem_of in Hin as [k Hk]. lia.
Qed.

Lemma repeat_call_invariant {T : Type} (f : T -> result T) (P : T -> Prop) :
  (forall x y, P x -> f x = Ok y -> P y) ->
  forall n x y, P x -> repeat_call f n x = Ok y -> P y.
Proof.
  intros Hstep. induction n as [|n IH]; intros x y Hx H; simpl in H.
  - by injection H as <-.
  - apply bind_Ok in H as (x' & Hx' & H). eapply IH; [|exact H]. eauto.
Qed.

Lemma repeat_call_ok {T : Type} (f : T -> result T) (P : T -> Prop) :
  (forall x, P x -> exists y, f x = Ok y) ->
  (forall x y, P x -> f x = Ok y -> P y) ->
  forall n x, P x -> exists y, repeat_call f n x = Ok y.
Proof.
  intros Hok Hstep. induction n as [|n IH]; intros x Hx; simpl.
  - by eexists.
  - destruct (Hok x Hx) as [x' Hx']. rewrite Hx'. cbn [mbind result_bind].
    apply IH. eauto.
Qed.

Lemma repeat_call_last {T : Type} (f : T -> result T) (n : nat) (x y : T) :
  repeat_call f (S n) x = Ok y <->
  exists x', repeat_call f n x = Ok x' /\ f x' = Ok y.
Proof.
  revert x. induction n as [|n IH]; intros x.
  - simpl. split.
    + intros H. apply bind_Ok in H as (x' & Hx' & [= <-]). by exists x.
    + intros (x' & [= <-] & ->). done.
  - change (repeat_call f (S (S n)) x) with (f x ≫= repeat_call f (S n)).
    rewrite bind_Ok. split.
    + intros (x1 & H1 & H). apply IH in H as (x' & Hn & Hx').
      exists x'. split; [|done]. simpl. rewrite H1. done.
    + intros (x' & Hn & Hx'). simpl in Hn.
      apply bind_Ok in Hn as (x1 & H1 & Hn).
      exists x1. split; [done|]. apply IH. by exists x'.
Qed.

Lemma constructed_with_Ok {T : Type} {V : Variant T} (check : MMM -> bool)
    (r : result T) :
  constructed_with check r = true ->
  exists self, r = Ok self /\ check (base self) = true.
Proof. destruct r as [self|e]; [by exists self | discriminate]. Qed.

Lemma Straight_define_model_complete (self self' : MMMChannelsStraight) :
  Straight_define_model self = Ok self' ->
  channels_complete (straight_base self')
  = channels_complete (straight_base self).
Proof.
  unfold Straight_define_model. intros H.
  apply bind_Ok in H as (scaled & _ & H). apply bind_Ok in H as (cs & _ & H).
  apply bind_Ok in H as (m0 & _ & H).
  destruct (allowIntercept self), (allowAdstockAndSat self);
    cbn [mbind result_bind] in H;
    apply bind_Ok in H as (sales & _ & H); by injection H as <-.
Qed.

Lemma Straight_repeat_ok (n : nat) (self : MMMChannelsStraight) :
  ready (straight_base self) ->
  channels_complete (straight_base self) = true ->
  exists self', repeat_call Straight_define_model n self = Ok self'.
Proof.
  intros Hready Hcomplete.
  apply (repeat_call_ok _ (fun s => ready (straight_base s)
                                    /\ channels_complete (straight_base s)
                                       = true)); [| |done].
  - intros x [Hx Hc]. by apply Straight_define_model_ok.
  - intros x y [Hx Hc] H. split.
    + by apply Straight_define_model_spec in H as (_ & _ & _ & H & _); auto.
    + by rewrite (Straight_define_model_complete _ _ H).
Qed.

Lemma names_after_alpha_lam (ai : bool) (names : list string) :
  occurrences "alpha" (straight_names_after ai true names)
  = S (occurrences "alpha" names)
  /\ occurrences "lam" (straight_names_after ai true names)
     = S (occurrences "lam" names).
Proof.
  unfold straight_names_after.
  destruct ai; [destruct (bool_decide _)|];
    rewrite ?occurrences_app; simpl; split; lia.
Qed.

Lemma names_after_intercept (aa : bool) (names : list string) :
  occurrences "intercept" names <= 1 ->
  occurrences "intercept" (straight_names_after true aa names) = 1.
Proof.
  intros Hle. unfold straight_names_after.
  destruct (bool_decide _) eqn:E.
  - apply bool_decide_eq_true in E.
    apply occurrences_elem_of in E as [k Hk].
    destruct aa; rewrite ?occurrences_app; simpl; lia.
  - apply bool_decide_eq_false, occurrences_not_elem_of in E.
    destruct aa; rewrite ?occurrences_app, E; simpl; lia.
Qed.

Lemma names_after_disabled (name : string) (ai aa : bool) (names : list string) :
  (name = "intercept" /\ ai = false) \/
  ((name = "alpha" \/ name = "lam") /\ aa = false) ->
  occurrences name names = 0 ->
  occurrences name (straight_names_after ai aa names) = 0.
Proof.
  intros Hcase H0. unfold straight_names_after.
  destruct Hcase as [[-> ->]|[[-> | ->] ->]];
    repeat match goal with
      | |- context [bool_decide ?P] => destruct (bool_decide P)
      | |- context [if ?b then _ else _] => destruct b
      end;
    rewrite ?occurrences_app, ?H0; simpl; lia.
Qed.

Lemma is_ok_Ok {A : Type} (r : result A) :
  is_ok r = true -> exists a, r = Ok a.
Proof. destruct r as [a|e]; [by exists a | discriminate]. Qed.

Lemma Straight_repeat_counts (n : nat) (self self' : MMMChannelsStraight) :
  repeat_call Straight_define_model n self = Ok self' ->
  let k := if allowAdstockAndSat self then n else 0 in
  occurrences "alpha" (straight_fittedparmnames self')
  = occurrences "alpha" (straight_fittedparmnames self) + k
  /\ occurrences "lam" (straight_fittedparmnames self')
     = occurrences "lam" (straight_fittedparmnames self) + k.
Proof.
  revert self. induction n as [|n IH]; intros self H; simpl in H.
  - injection H as <-. destruct (allowAdstockAndSat self); simpl; lia.
  - apply bind_Ok in H as (s1 & H1 & H).
    apply Straight_define_model_spec in H1 as (Hnames & _ & Haa & _).
    apply IH in H as [Ha Hl]. rewrite Haa, Hnames in *. simpl.
    destruct (allowAdstockAndSat self).
    + destruct (names_after_alpha_lam (allowIntercept self)
                  (straight_fittedparmnames self)) as [Ea El]. lia.
    + clear IH. set (l := straight_fittedparmnames self) in *.
      set (ai := allowIntercept self) in *.
      unfold straight_names_after in *.
      destruct ai; [destruct (bool_decide _)|];
        rewrite ?occurrences_app in *; simpl in *; lia.
Qed.

(** C4.  Starting from a constructed straight model, [n] calls of
    [define_model] leave the names 'alpha' and 'lam' each [n] times in the
    list of fitted parameter names when adstock and saturation are enabled,
    and not at all when they are disabled.  So the names are listed once
    after one call, but twice after two. *)
Theorem straight_adstock_names_per_call data names ai aa lag self0 n self :
  Straight_init data names ai aa lag = Ok self0 ->
  repeat_call Straight_define_model n self0 = Ok self ->
  occurrences "alpha" (straight_fittedparmnames self) = (if aa then n else 0)
  /\ occurrences "lam" (straight_fittedparmnames self) = (if aa then n else 0).
Proof.
  intros Hinit H.
  apply Straight_init_spec in Hinit as (_ & _ & Hnames & _ & Haa).
  apply Straight_repeat_counts in H. rewrite Hnames, Haa in H. exact H.
Qed.

Lemma straight_adstock_names_per_call_witness :
  exists self0 self,
    Straight_init ten_days ["spend_a"; "spend_b"] false true 6 = Ok self0
    /\ repeat_call Straight_define_model 2 self0 = Ok self
    /\ occurrences "alpha" (straight_fittedparmnames self) = 2
    /\ occurrences "lam" (straight_fittedparmnames self) = 2.
Proof.
  destruct (constructed_with_Ok channels_complete
              (Straight_init ten_days ["spend_a"; "spend_b"] false true 6))
    as (self0 & H0 & Hc); [vm_compute; reflexivity|].
  destruct (Straight_repeat_ok 2 self0) as [self H]; [|exact Hc|].
  { by apply Straight_init_spec in H0 as (? & _). }
  exists self0, self. split; [done|]. split; [done|].
  exact (straight_adstock_names_per_call _ _ _ _ _ _ _ _ H0 H).
Defined.

(** The list after two calls, adstock and saturation enabled. *)
Lemma straight_names_after_two_calls :
  straight_names_of
    (self ← Straight_init ten_days ["spend_a"; "spend_b"] false true 6;
     repeat_call Straight_define_model 2 self)
  = Some ["beta"; "sigma"; "alpha"; "lam"; "alpha"; "lam"].
Proof. vm_compute. reflexivity. Qed.

Lemma Straight_repeat_flags (n : nat) (self self' : MMMChannelsStraight) :
  repeat_call Straight_define_model n self = Ok self' ->
  allowIntercept self' = allowIntercept self
  /\ allowAdstockAndSat self' = allowAdstockAndSat self
  /\ (ready (straight_base self) -> ready (straight_base self')).
Proof.
  revert self. induction n as [|n IH]; intros self H; simpl in H.
  - by injection H as <-.
  - apply bind_Ok in H as (s1 & H1 & H).
    apply Straight_define_model_spec in H1 as (_ & Hai & Haa & Hready & _).
    apply IH in H as (-> & -> & Hr). auto.
Qed.

(** C5.  Starting from a constructed straight model whose scaled channel
    columns hold no not-a-number, so that [pm.Data] accepts them, and
    calling [define_model] one or more times: with the intercept disabled
    the calls return and the graph built declares no node named 'intercept'
    (nor is the name listed); with the intercept enabled the calls return
    and 'intercept' is listed exactly once among the fitted parameter
    names, while the graph declares it as a prior. *)
Theorem straight_intercept_declared_once data names aa lag self0 n :
  (Straight_init data names false aa lag = Ok self0 ->
   channels_complete (straight_base self0) = true ->
   exists self m,
     repeat_call Straight_define_model (S n) self0 = Ok self
     /\ model (straight_base self) = Some m
     /\ ("intercept" ∉ node_names m)
     /\ occurrences "intercept" (straight_fittedparmnames self) = 0)
  /\ (Straight_init data names true aa lag = Ok self0 ->
      channels_complete (straight_base self0) = true ->
      exists self m,
        repeat_call Straight_define_model (S n) self0 = Ok self
        /\ model (straight_base self) = Some m
        /\ ("intercept" ∈ prior_names m)
        /\ occurrences "intercept" (straight_fittedparmnames self) = 1).
Proof.
  split; intros Hinit Hcomplete;
    apply Straight_init_spec in Hinit as (Hready & _ & Hnames & Hai & _);
    destruct (Straight_repeat_ok (S n) self0 Hready Hcomplete) as [self H];
    pose proof H as Hlast;
    apply repeat_call_last in Hlast as (s1 & Hn & H1);
    pose proof (Straight_repeat_flags _ _ _ Hn) as (Hai1 & _ & _);
    apply Straight_define_model_spec in H1
      as (Hnames1 & _ & _ & _ & m & Hm & Hnone & Hsome & _);
    rewrite Hai1, Hai in *; exists self, m;
    (split; [done|]); (split; [done|]).
  - split; [by apply Hnone|]. rewrite Hnames1.
    apply names_after_disabled; [by left|].
    apply (repeat_call_invariant Straight_define_model
             (fun s => allowIntercept s = false
                       /\ occurrences "intercept" (straight_fittedparmnames s) = 0))
      with (n := n) (x := self0); [|by rewrite Hnames|done].
    intros x y [Hx Hx0] Hxy.
    apply Straight_define_model_spec in Hxy as (-> & -> & _).
    split; [done|]. rewrite Hx. apply names_after_disabled; [by left|done].
  - split; [by apply Hsome|]. rewrite Hnames1.
    apply names_after_intercept.
    apply (repeat_call_invariant Straight_define_model
             (fun s => allowIntercept s = true
                       /\ occurrences "intercept" (straight_fittedparmnames s) <= 1))
      with (n := n) (x := self0);
      [|split; [done | rewrite Hnames; simpl; lia]|done].
    intros x y [Hx Hx1] Hxy.
    apply Straight_define_model_spec in Hxy as (-> & -> & _).
    split; [done|]. rewrite Hx, names_after_intercept; [lia|done].
Qed.

Lemma straight_intercept_declared_once_witness :
  (exists self0 self m,
     Straight_init ten_days ["spend_a"; "spend_b"] false false 6 = Ok self0
     /\ repeat_call Straight_define_model 3 self0 = Ok self
     /\ model (straight_base self) = Some m
     /\ ("intercept" ∉ node_names m)
     /\ occurrences "intercept" (straight_fittedparmnames self) = 0)
  /\ (exists self0 self m,
        Straight_init ten_days ["spend_a"; "spend_b"] true true 6 = Ok self0
        /\ repeat_call Straight_define_model 3 self0 = Ok self
        /\ model (straight_base self) = Some m
        /\ ("intercept" ∈ prior_names m)
        /\ occurrences "intercept" (straight_fittedparmnames self) = 1).
Proof.
  split.
  - destruct (constructed_with_Ok channels_complete
                (Straight_init ten_days ["spend_a"; "spend_b"]
                   false false 6)) as (self0 & H0 & Hc);
      [vm_compute; reflexivity|].
    destruct (proj1 (straight_intercept_declared_once
                       ten_days ["spend_a"; "spend_b"] false 6 self0 2)
                H0 Hc)
      as (self & m & H).
    exists self0, self, m. split; [exact H0 | exact H].
  - destruct (constructed_with_Ok channels_complete
                (Straight_init ten_days ["spend_a"; "spend_b"]
                   true true 6)) as (self0 & H0 & Hc);
      [vm_compute; reflexivity|].
    destruct (proj2 (straight_intercept_declared_once
                       ten_days ["spend_a"; "spend_b"] true 6 self0 2)
                H0 Hc)
      as (self & m & H).
    exists self0, self, m. split; [exact H0 | exact H].
Defined.

(** ** The confounder model *)

Lemma Confounder_define_model_names self self' :
  Confounder_define_model self = Ok self' ->
  confounder_fittedparmnames self'
  = ["beta_fb"; "beta_google"; "beta_fb_google"; "spend_google_0";
     "sigma"; "intercept"; "sigma_google"].
Proof.
  unfold Confounder_define_model. intros H. graph_inv H. by injection H as <-.
Qed.

Lemma confounder_names_after_define :
  confounder_names_of
    (self ← Confounder_init fb_google_days ["spend_fb"; "spend_google"];
     Confounder_define_model self)
  = Some ["beta_fb"; "beta_google"; "beta_fb_google"; "spend_google_0";
          "sigma"; "intercept"; "sigma_google"].
Proof. vm_compute. reflexivity. Qed.

Lemma confounder_define_on_example :
  exists self0 self,
    Confounder_init fb_google_days ["spend_fb"; "spend_google"] = Ok self0
    /\ Confounder_define_model self0 = Ok self.
Proof.
  pose proof confounder_names_after_define as E.
  destruct (Confounder_init fb_google_days ["spend_fb"; "spend_google"])
    as [self0|e]; [|done].
  cbn [mbind result_bind] in E.
  destruct (Confounder_define_model self0) as [self|e] eqn:H; [|done].
  by exists self0, self.
Qed.

Lemma forward_step_det env name e dims v :
  eval env e = Some v ->
  forward_step env (name, Deterministic e dims) = <[name := v]> env.
Proof. unfold forward_step. simpl. by intros ->. Qed.

(** One node of the forward pass, innermost first. *)
Ltac forward_one :=
  match goal with
  | |- context [forward_step ?env (?n, ?nd)] =>
      lazymatch env with
      | context [forward_step] => fail
      | _ =>
          lazymatch nd with
          | Deterministic ?e ?d =>
              erewrite (forward_step_det env n e d)
                by (cbn [eval]; simplify_map_eq; reflexivity)
          | _ => change (forward_step env (n, nd)) with env
          end
      end
  end.

Lemma Confounder_define_model_mu_y self self' roots i b_fb b_g b_fg s_fb s_g :
  Confounder_define_model self = Ok self' ->
  roots !! "intercept" = Some i ->
  roots !! "beta_fb" = Some b_fb ->
  roots !! "beta_google" = Some b_g ->
  roots !! "beta_fb_google" = Some b_fg ->
  roots !! "spend_fb" = Some s_fb ->
  roots !! "spend_google" = Some s_g ->
  exists m,
    model (confounder_base self') = Some m
    /\ forward m roots !! "mu_fb" = Some (b_fb * s_fb)%Qc
    /\ forward m roots !! "mu_google" = Some (b_g * s_g)%Qc
    /\ forward m roots !! "mu_y"
       = Some (i + (i + b_fb * s_fb + b_g * s_g))%Qc.
Proof.
  unfold Confounder_define_model. intros H Hi Hbf Hbg Hbfg Hsf Hsg.
  graph_inv H. injection H as <-. eexists. split; [reflexivity|].
  unfold forward, register. cbn [nodes app fold_left].
  repeat forward_one. by simplify_map_eq.
Qed.

(** C2.  In the graph built by the confounder model's [define_model], at
    any date and draw, [mu_fb] is [beta_fb] times the Facebook spend,
    [mu_google] is [beta_google] times the Google spend node, and [mu_y]
    is their sum plus the intercept taken twice: once inside [mu_channels]
    and once more in [mu_y].  So whenever the intercept is not 0, [mu_y]
    differs from the sum with the intercept counted once. *)
Theorem confounder_mu_y_adds_intercept_twice
    self self' roots i b_fb b_g b_fg s_fb s_g :
  Confounder_define_model self = Ok self' ->
  roots !! "intercept" = Some i ->
  roots !! "beta_fb" = Some b_fb ->
  roots !! "beta_google" = Some b_g ->
  roots !! "beta_fb_google" = Some b_fg ->
  roots !! "spend_fb" = Some s_fb ->
  roots !! "spend_google" = Some s_g ->
  exists m,
    model (confounder_base self') = Some m
    /\ forward m roots !! "mu_fb" = Some (b_fb * s_fb)%Qc
    /\ forward m roots !! "mu_google" = Some (b_g * s_g)%Qc
    /\ forward m roots !! "mu_y"
       = Some (i + (i + b_fb * s_fb + b_g * s_g))%Qc
    /\ (i ≠ qz 0 ->
        forward m roots !! "mu_y" ≠ Some (b_fb * s_fb + b_g * s_g + i)%Qc).
Proof.
  intros H Hi Hbf Hbg Hbfg Hsf Hsg.
  destruct (Confounder_define_model_mu_y _ _ _ _ _ _ _ _ _ H Hi Hbf Hbg Hbfg Hsf Hsg)
    as (m & Hm & Hfb & Hg & Hy).
  exists m. repeat (split; [done|]).
  intros Hi0. rewrite Hy. intros E%(inj Some). apply Hi0.
  change (qz 0) with 0%Qc.
  replace i with ((i + (i + b_fb * s_fb + b_g * s_g))
                  - (b_fb * s_fb + b_g * s_g + i))%Qc by ring.
  rewrite E. ring.
Qed.

Lemma confounder_mu_y_adds_intercept_twice_witness :
  exists self0 self m,
    Confounder_init fb_google_days ["spend_fb"; "spend_google"] = Ok self0
    /\ Confounder_define_model self0 = Ok self
    /\ model (confounder_base self) = Some m
    /\ forward m intercept_only !! "mu_y"
       = Some (qz 1 + (qz 1 + qz 0 * qz 10 + qz 0 * qz 15))%Qc
    /\ forward m intercept_only !! "mu_y" = Some (qz 2)
    /\ forward m intercept_only !! "mu_y"
       ≠ Some (qz 0 * qz 10 + qz 0 * qz 15 + qz 1)%Qc.
Proof.
  destruct confounder_define_on_example as (self0 & self & H0 & H).
  destruct (confounder_mu_y_adds_intercept_twice
              self0 self intercept_only
              (qz 1) (qz 0) (qz 0) (qz 1) (qz 10) (qz 15) H)
    as (m & Hm & _ & _ & Hy & Hne); try reflexivity.
  exists self0, self, m. do 4 (split; [assumption|]).
  split; [|by apply Hne].
  rewrite Hy. reflexivity.
Defined.

(** C3 (as amended).  After the confounder model's [define_model] has
    run, the list of fitted parameter names holds exactly seven names, all
    distinct: the two channel coefficients, the cross-channel slope, the
    Google baseline, the two noise scales and the intercept. *)
Theorem confounder_seven_parameter_names self self' :
  Confounder_define_model self = Ok self' ->
  NoDup (confounder_fittedparmnames self')
  /\ length (confounder_fittedparmnames self') = 7
  /\ (forall name,
        name ∈ confounder_fittedparmnames self' <->
        name ∈ ["beta_fb"; "beta_google"; "beta_fb_google"; "spend_google_0";
                "sigma"; "sigma_google"; "intercept"]).
Proof.
  intros H. rewrite (Confounder_define_model_names _ _ H).
  split; [|split; [done|]].
  - apply (bool_decide_unpack _). vm_compute. exact I.
  - intros name. rewrite !elem_of_cons, !elem_of_nil. tauto.
Qed.

Lemma confounder_seven_parameter_names_witness :
  exists self0 self,
    Confounder_init fb_google_days ["spend_fb"; "spend_google"] = Ok self0
    /\ Confounder_define_model self0 = Ok self
    /\ NoDup (confounder_fittedparmnames self)
    /\ length (confounder_fittedparmnames self) = 7.
Proof.
  destruct confounder_define_on_example as (self0 & self & H0 & H).
  exists self0, self. split; [done|]. split; [done|].
  destruct (confounder_seven_parameter_names self0 self H) as (Hnd & Hlen & _).
  by split.
Defined.

(** C3 as stated fails: an instance on which [define_model] returns and
    the list has distinct names, but not nine of them. *)
Lemma confounder_names_are_not_nine :
  exists self0 self,
    Confounder_init fb_google_days ["spend_fb"; "spend_google"] = Ok self0
    /\ Confounder_define_model self0 = Ok self
    /\ NoDup (confounder_fittedparmnames self)
    /\ length (confounder_fittedparmnames self) ≠ 9.
Proof.
  destruct confounder_define_on_example as (self0 & self & H0 & H).
  exists self0, self. split; [done|]. split; [done|].
  rewrite (Confounder_define_model_names _ _ H). split; [|simpl; lia].
  apply (bool_decide_unpack _). vm_compute. exact I.
Qed.

(** ** Signs, products and quotients *)

Lemma Qc_sign_cases (q : Qc) :
  (q < 0 /\ Qccompare q (qz 0) = Lt)%Qc
  \/ (q = 0%Qc /\ Qccompare q (qz 0) = Eq)
  \/ (0 < q /\ Qccompare q (qz 0) = Gt)%Qc.
Proof.
  change (qz 0) with 0%Qc. destruct (Qccompare q 0) eqn:E.
  - right. left. split; [by apply Qceq_alt | done].
  - left. split; [by apply Qclt_alt | done].
  - right. right. split; [by apply Qcgt_alt | done].
Qed.

Lemma Qc_neg_pos (a : Qc) : (a < 0 -> 0 < - a)%Qc.
Proof.
  intros Ha. apply (Qcplus_lt_mono_r _ _ (- a)) in Ha.
  by rewrite Qcplus_opp_r, Qcplus_0_l in Ha.
Qed.

Lemma Qc_sign_mul (a b : Qc) :
  Qccompare (a * b) (qz 0)
  = sgn_mul (Qccompare a (qz 0)) (Qccompare b (qz 0)).
Proof.
  destruct (Qc_sign_cases a) as [[Ha ->]|[[-> ->]|[Ha ->]]];
    destruct (Qc_sign_cases b) as [[Hb ->]|[[-> ->]|[Hb ->]]];
    simpl; change (qz 0) with 0%Qc;
    rewrite ?Qcmult_0_l, ?Qcmult_0_r; try reflexivity.
  - apply Qcgt_alt. apply Qc_neg_pos in Ha, Hb.
    replace (a * b)%Qc with ((- a) * (- b))%Qc by ring.
    by apply Qcmult_pos_pos.
  - apply Qclt_alt. rewrite <- (Qcmult_0_l b).
    by apply Qcmult_lt_mono_pos_r.
  - apply Qclt_alt. rewrite <- (Qcmult_0_r a).
    by apply Qcmult_lt_mono_pos_l.
  - apply Qcgt_alt. by apply Qcmult_pos_pos.
Qed.

Lemma Qc_sign_inv (c : Qc) :
  c ≠ qz 0 -> Qccompare (/ c) (qz 0) = Qccompare c (qz 0).
Proof.
  intros Hc. pose proof (Qc_sign_mul c (/ c)) as H.
  rewrite Qcmult_inv_r in H by done.
  change (Qccompare 1 (qz 0)) with Gt in H.
  destruct (Qccompare c (qz 0)), (Qccompare (/ c) (qz 0)); done.
Qed.

Lemma Qc_sign_div (a c : Qc) :
  c ≠ qz 0 ->
  Qccompare (a / c) (qz 0)
  = sgn_mul (Qccompare a (qz 0)) (Qccompare c (qz 0)).
Proof.
  intros Hc. unfold Qcdiv. by rewrite Qc_sign_mul, Qc_sign_inv.
Qed.

Lemma Qc_sign_nonzero (c : Qc) : c ≠ qz 0 -> Qccompare c (qz 0) ≠ Eq.
Proof. intros Hc E. by apply Qceq_alt in E. Qed.

Lemma Qc_sign_split (q : Qc) :
  (Qccompare q (qz 0) = Lt /\ q ≠ qz 0)
  \/ q = qz 0
  \/ (Qccompare q (qz 0) = Gt /\ q ≠ qz 0).
Proof.
  destruct (Qc_sign_cases q) as [[Hq E]|[[Hq E]|[Hq E]]].
  - left. split; [done|]. intros ->. by apply (Qclt_not_eq _ _ Hq).
  - by right; left.
  - right. right. split; [done|]. intros ->. by apply (Qclt_not_eq _ _ Hq).
Qed.

Ltac sign_split q :=
  let E := fresh "E" in
  let Hq := fresh "Hq" in
  destruct (Qc_sign_split q) as [[E Hq]|[->|[E Hq]]].

Ltac sign_simpl :=
  repeat (progress (
    cbn [xmul xdiv sgn sgn_mul inf_of];
    rewrite ?decide_True by done; rewrite ?decide_False by done;
    rewrite ?Qc_sign_mul, ?Qc_sign_div by done;
    change (Qccompare (qz 0) (qz 0)) with Eq;
    repeat match goal with
      | H : Qccompare ?p _ = _ |- context [Qccompare ?p _] => rewrite H
      end)).

(** Multiplying by one scale and then dividing by another is multiplying
    by their quotient, whatever the three values. *)
Lemma xmul_xdiv_assoc_all (x s c : xval) :
  xdiv (xmul x s) c = xmul x (xdiv s c).
Proof.
  destruct x as [a| | |], s as [b| | |], c as [d| | |]; try reflexivity;
    try sign_split a; try sign_split b; try sign_split d;
    unfold zero; sign_simpl; try reflexivity;
    f_equal; change (qz 0) with 0%Qc in *; first [ring | by field].
Qed.

(** Undoing a finite nonzero factor. *)
Lemma xmul_inverse (x k : Qc) :
  k ≠ qz 0 -> xmul (xmul (Fin x) (Fin k)) (xdiv one (Fin k)) = Fin x.
Proof.
  intros Hk. unfold one. simpl. destruct (decide (k = qz 0)); [done|].
  simpl. f_equal. change (qz 1) with 1%Qc. by field.
Qed.

(** ** Back-scaling *)

Lemma rescale_Ok name f (p p' : gmap string (list xval)) :
  rescale name f p = Ok p' <->
  exists draws, p !! name = Some draws /\ p' = <[name := f <$> draws]> p.
Proof.
  unfold rescale. rewrite bind_Ok. split.
  - intros (d & Hd & [= <-]). apply getcol_Ok in Hd. by exists d.
  - intros (d & Hd & ->). exists d. by rewrite getcol_Ok.
Qed.

Lemma xmul_one (x : xval) : xmul x one = x.
Proof.
  destruct x as [a| | |]; try done.
  unfold one. simpl. f_equal. change (qz 1) with 1%Qc. ring.
Qed.

Lemma times_one (draws : list xval) : times one draws = draws.
Proof.
  unfold times. induction draws as [|x l IH]; [done|].
  by rewrite fmap_cons, xmul_one, IH.
Qed.

Lemma times_quotient (s c : xval) (draws : list xval) :
  (fun x => xdiv (xmul x s) c) <$> draws = times (xdiv s c) draws.
Proof.
  unfold times. apply list_fmap_ext. intros _ x _.
  apply xmul_xdiv_assoc_all.
Qed.

Lemma times_inverse (k : Qc) (draws : list xval) :
  k ≠ qz 0 ->
  Forall (fun x => is_fin x = true) draws ->
  times (xdiv one (Fin k)) (times (Fin k) draws) = draws.
Proof.
  intros Hk. unfold times. induction 1 as [|x l Hx Hl IH]; [done|].
  rewrite !fmap_cons, IH. f_equal. destruct x as [a| | |]; try done.
  by apply xmul_inverse.
Qed.

Ltac back_scaled_inv H :=
  bind_inv H;
  repeat match goal with
    | H' : get_idata _ = Ok _ |- _ =>
        unfold get_idata in H'
    | H' : rescale _ _ _ = Ok _ |- _ =>
        let d := fresh "d" in
        let Hd := fresh "Hd" in
        apply rescale_Ok in H' as (d & Hd & ->)
    end.

Lemma Straight_back_scaled (self : MMMChannelsStraight) p p' :
  idata (straight_base self) = Some p ->
  Straight_get_back_scaled_idata self = Ok p' ->
  let s := salesscale (straight_base self) in
  let c := channelscale (straight_base self) in
  p' !! "intercept"
  = (if allowIntercept self
     then times s <$> p !! "intercept" else p !! "intercept")
  /\ p' !! "sigma" = times c <$> p !! "sigma"
  /\ p' !! "beta" = fmap (fun x => xdiv (xmul x s) c) <$> p !! "beta"
  /\ forall name, name ≠ "intercept" -> name ≠ "sigma" -> name ≠ "beta" ->
       p' !! name = p !! name.
Proof.
  unfold Straight_get_back_scaled_idata, get_idata. intros Hp H.
  rewrite Hp in H. cbn [mbind result_bind] in H.
  destruct (allowIntercept self); back_scaled_inv H; injection H as <-;
    repeat split; intros; by simplify_map_eq.
Qed.

Lemma Confounder_back_scaled (self : MMMChannelsStraightConfounder) p p' :
  idata (confounder_base self) = Some p ->
  Confounder_get_back_scaled_idata self = Ok p' ->
  let s := salesscale (confounder_base self) in
  let c := channelscale (confounder_base self) in
  p' !! "intercept" = times s <$> p !! "intercept"
  /\ p' !! "sigma" = times c <$> p !! "sigma"
  /\ p' !! "beta_google"
     = fmap (fun x => xdiv (xmul x s) c) <$> p !! "beta_google"
  /\ p' !! "beta_fb" = fmap (fun x => xdiv (xmul x s) c) <$> p !! "beta_fb"
  /\ p' !! "spend_google_0" = times c <$> p !! "spend_google_0"
  /\ p' !! "sigma_google" = times c <$> p !! "sigma_google"
  /\ forall name,
       name ∉ ["intercept"; "sigma"; "beta_google"; "beta_fb";
               "spend_google_0"; "sigma_google"] ->
       p' !! name = p !! name.
Proof.
  unfold Confounder_get_back_scaled_idata, get_idata. intros Hp H.
  rewrite Hp in H. cbn [mbind result_bind] in H.
  back_scaled_inv H. injection H as <-.
  repeat split; try by simplify_map_eq.
  intros name Hname. rewrite !not_elem_of_cons in Hname.
  destruct Hname as (? & ? & ? & ? & ? & ? & _). by simplify_map_eq.
Qed.

Lemma Metrics_back_scaled (self : MMMFbGoogleMetrics) p p' :
  idata (metrics_base self) = Some p ->
  Metrics_get_back_scaled_idata self = Ok p' ->
  let s := salesscale (metrics_base self) in
  let c := channelscale (metrics_base self) in
  p' !! "intercept" = times s <$> p !! "intercept"
  /\ p' !! "sigma" = times c <$> p !! "sigma"
  /\ p' !! "beta_fb" = times s <$> p !! "beta_fb"
  /\ p' !! "beta_google" = times s <$> p !! "beta_google"
  /\ forall name,
       name ∉ ["intercept"; "sigma"; "beta_fb"; "beta_google"] ->
       p' !! name = p !! name.
Proof.
  unfold Metrics_get_back_scaled_idata, get_idata. intros Hp H.
  rewrite Hp in H. cbn [mbind result_bind] in H.
  back_scaled_inv H. injection H as <-.
  repeat split; try by simplify_map_eq.
  intros name Hname. rewrite !not_elem_of_cons in Hname.
  destruct Hname as (? & ? & ? & ? & _). by simplify_map_eq.
Qed.

(** Back-scaling returns once the posterior holds the parameters that it
    rescales. *)
Lemma rescale_present name f (p : gmap string (list xval)) :
  is_Some (p !! name) ->
  exists p', rescale name f p = Ok p'
             /\ forall k, is_Some (p !! k) -> is_Some (p' !! k).
Proof.
  intros [d Hd]. exists (<[name := f <$> d]> p). split.
  - apply rescale_Ok. by exists d.
  - intros k Hk. destruct (decide (name = k)) as [->|Hne].
    + rewrite lookup_insert_eq. by eexists.
    + by rewrite lookup_insert_ne.
Qed.

Ltac rescale_step :=
  match goal with
  | |- context [rescale ?name ?f ?p] =>
      let p' := fresh "p" in
      let Hr := fresh "Hr" in
      let Hk := fresh "Hk" in
      destruct (rescale_present name f p) as (p' & Hr & Hk);
      [auto 10 | rewrite Hr; cbn [mbind result_bind]]
  end.

Lemma Straight_back_scaled_ok (self : MMMChannelsStraight) p :
  idata (straight_base self) = Some p ->
  (allowIntercept self = true -> is_Some (p !! "intercept")) ->
  is_Some (p !! "sigma") -> is_Some (p !! "beta") ->
  exists p', Straight_get_back_scaled_idata self = Ok p'.
Proof.
  unfold Straight_get_back_scaled_idata, get_idata. intros -> Hi Hs Hb.
  cbn [mbind result_bind].
  destruct (allowIntercept self); [specialize (Hi eq_refl)|];
    cbn [mbind result_bind]; repeat rescale_step; by eexists.
Qed.

Lemma Confounder_back_scaled_ok (self : MMMChannelsStraightConfounder) p :
  idata (confounder_base self) = Some p ->
  Forall (fun name => is_Some (p !! name))
    ["intercept"; "sigma"; "beta_google"; "beta_fb";
     "spend_google_0"; "sigma_google"] ->
  exists p', Confounder_get_back_scaled_idata self = Ok p'.
Proof.
  unfold Confounder_get_back_scaled_idata, get_idata. intros -> Hall.
  repeat (apply list.Forall_cons in Hall as [? Hall]).
  cbn [mbind result_bind]. repeat rescale_step. by eexists.
Qed.

Lemma Metrics_back_scaled_ok (self : MMMFbGoogleMetrics) p :
  idata (metrics_base self) = Some p ->
  Forall (fun name => is_Some (p !! name))
    ["intercept"; "sigma"; "beta_fb"; "beta_google"] ->
  exists p', Metrics_get_back_scaled_idata self = Ok p'.
Proof.
  unfold Metrics_get_back_scaled_idata, get_idata. intros -> Hall.
  repeat (apply list.Forall_cons in Hall as [? Hall]).
  cbn [mbind result_bind]. repeat rescale_step. by eexists.
Qed.

Lemma two_draws_lookup :
  two_draws !! "intercept" = Some [Fin (qz 1); Fin (qz 2)]
  /\ two_draws !! "sigma" = Some [Fin (qz 3); Fin (qz 4)]
  /\ two_draws !! "beta" = Some [Fin (qz 5); Fin (qz 6)]
  /\ two_draws !! "beta_fb" = Some [Fin (qz 7); Fin (qz 8)]
  /\ two_draws !! "beta_google" = Some [Fin (qz 9); Fin (qz 10)]
  /\ two_draws !! "beta_fb_google" = Some [Fin (qz 11); Fin (qz 12)]
  /\ two_draws !! "spend_google_0" = Some [Fin (qz 13); Fin (qz 14)]
  /\ two_draws !! "sigma_google" = Some [Fin (qz 15); Fin (qz 16)].
Proof. repeat split; vm_compute; reflexivity. Qed.

Lemma fitted_straight_state intercept :
  exists self,
    fitted_straight intercept = Ok self
    /\ allowIntercept self = intercept
    /\ salesscale (straight_base self) = Fin (qz 500)
    /\ channelscale (straight_base self) = Fin (qz 100)
    /\ idata (straight_base self) = Some two_draws.
Proof.
  assert (E : fitted_state (fitted_straight intercept)
              = Some (Fin (qz 500), Fin (qz 100), Some two_draws)).
  { apply (bool_decide_eq_true_1 _). by destruct intercept; vm_compute. }
  assert (Ei : match fitted_straight intercept with
               | Ok self => allowIntercept self = intercept
               | Raise _ => True
               end).
  { by destruct intercept; vm_compute. }
  destruct (fitted_straight intercept) as [self|e]; [|done].
  exists self. simpl in E. by injection E as -> -> ->.
Qed.

Lemma fitted_confounder_state :
  exists self,
    fitted_confounder = Ok self
    /\ salesscale (confounder_base self) = Fin (qz 160)
    /\ channelscale (confounder_base self) = Fin (qz 30)
    /\ idata (confounder_base self) = Some two_draws.
Proof.
  assert (E : fitted_state fitted_confounder
              = Some (Fin (qz 160), Fin (qz 30), Some two_draws)).
  { apply (bool_decide_eq_true_1 _). by vm_compute. }
  destruct fitted_confounder as [self|e]; [|done].
  exists self. simpl in E. by injection E as -> -> ->.
Qed.

Lemma fitted_metrics_state :
  exists self,
    fitted_metrics = Ok self
    /\ salesscale (metrics_base self) = Fin (qz 160)
    /\ channelscale (metrics_base self) = Fin (qz 30)
    /\ idata (metrics_base self) = Some two_draws.
Proof.
  assert (E : fitted_state fitted_metrics
              = Some (Fin (qz 160), Fin (qz 30), Some two_draws)).
  { apply (bool_decide_eq_true_1 _). by vm_compute. }
  destruct fitted_metrics as [self|e]; [|done].
  exists self. simpl in E. by injection E as -> -> ->.
Qed.

(** C7.  For the straight model with the intercept enabled, on a posterior
    that holds 'intercept', 'sigma' and 'beta', back-scaling returns, and
    in its result the intercept draws are multiplied by the sales scale,
    the sigma draws by the channel scale, and the beta draws by the sales
    scale divided by the channel scale. *)
Theorem straight_back_scaling_factors (self : MMMChannelsStraight) p :
  allowIntercept self = true ->
  idata (straight_base self) = Some p ->
  is_Some (p !! "intercept") ->
  is_Some (p !! "sigma") ->
  is_Some (p !! "beta") ->
  let s := salesscale (straight_base self) in
  let c := channelscale (straight_base self) in
  exists p',
    Straight_get_back_scaled_idata self = Ok p'
    /\ p' !! "intercept" = times s <$> p !! "intercept"
    /\ p' !! "sigma" = times c <$> p !! "sigma"
    /\ p' !! "beta" = times (xdiv s c) <$> p !! "beta".
Proof.
  intros Hai Hp Hi Hs Hb s c.
  destruct (Straight_back_scaled_ok self p Hp (fun _ => Hi) Hs Hb) as [p' H].
  exists p'. split; [done|].
  destruct (Straight_back_scaled self p p' Hp H) as (Ei & Es & Eb & _).
  rewrite Hai in Ei. repeat split; try done.
  rewrite Eb. destruct (p !! "beta") as [d|]; [|done]. simpl.
  by rewrite times_quotient.
Qed.

Lemma straight_back_scaling_factors_witness :
  exists self p',
    fitted_straight true = Ok self
    /\ Straight_get_back_scaled_idata self = Ok p'
    /\ p' !! "intercept" = Some (times (Fin (qz 500)) [Fin (qz 1); Fin (qz 2)])
    /\ p' !! "sigma" = Some (times (Fin (qz 100)) [Fin (qz 3); Fin (qz 4)])
    /\ p' !! "beta"
       = Some (times (xdiv (Fin (qz 500)) (Fin (qz 100)))
                 [Fin (qz 5); Fin (qz 6)]).
Proof.
  destruct (fitted_straight_state true) as (self & Hfit & Hai & Hs & Hc & Hp).
  destruct (straight_back_scaling_factors self two_draws Hai Hp)
    as (p' & H & Ei & Es & Eb);
    [eexists; apply two_draws_lookup ..|].
  rewrite Hs, Hc in *.
  destruct two_draws_lookup as (Li & Lsg & Lb & _).
  rewrite Li in Ei. rewrite Lsg in Es. rewrite Lb in Eb.
  exists self, p'. repeat (split; [assumption|]). assumption.
Defined.

(** C6.  The confounder model's back-scaling multiplies the draws of
    'beta_fb' and 'beta_google' by the sales scale divided by the channel
    scale; the metrics-driven model's back-scaling multiplies them by the
    sales scale alone. *)
Theorem beta_back_scaling_differs_between_variants
    (cself : MMMChannelsStraightConfounder) (mself : MMMFbGoogleMetrics)
    pc pc' pm pm' :
  idata (confounder_base cself) = Some pc ->
  Confounder_get_back_scaled_idata cself = Ok pc' ->
  idata (metrics_base mself) = Some pm ->
  Metrics_get_back_scaled_idata mself = Ok pm' ->
  (let s := salesscale (confounder_base cself) in
   let c := channelscale (confounder_base cself) in
   pc' !! "beta_fb" = times (xdiv s c) <$> pc !! "beta_fb"
   /\ pc' !! "beta_google" = times (xdiv s c) <$> pc !! "beta_google")
  /\ (let s := salesscale (metrics_base mself) in
      pm' !! "beta_fb" = times s <$> pm !! "beta_fb"
      /\ pm' !! "beta_google" = times s <$> pm !! "beta_google").
Proof.
  intros Hpc Hc Hpm Hm.
  destruct (Confounder_back_scaled cself pc pc' Hpc Hc)
    as (_ & _ & Eg & Ef & _).
  destruct (Metrics_back_scaled mself pm pm' Hpm Hm)
    as (_ & _ & Ef' & Eg' & _).
  cbn zeta. rewrite Eg, Ef. repeat split; try done.
  - destruct (pc !! "beta_fb") as [d|]; [|done]. simpl.
    by rewrite times_quotient.
  - destruct (pc !! "beta_google") as [d|]; [|done]. simpl.
    by rewrite times_quotient.
Qed.

Lemma beta_back_scaling_differs_between_variants_witness :
  exists cself mself pc' pm',
    fitted_confounder = Ok cself
    /\ fitted_metrics = Ok mself
    /\ Confounder_get_back_scaled_idata cself = Ok pc'
    /\ Metrics_get_back_scaled_idata mself = Ok pm'
    /\ pc' !! "beta_fb"
       = Some (times (xdiv (Fin (qz 160)) (Fin (qz 30)))
                 [Fin (qz 7); Fin (qz 8)])
    /\ pm' !! "beta_fb" = Some (times (Fin (qz 160)) [Fin (qz 7); Fin (qz 8)])
    /\ pc' !! "beta_fb" ≠ pm' !! "beta_fb".
Proof.
  destruct fitted_confounder_state as (cself & Hcfit & Hcs & Hcc & Hcp).
  destruct fitted_metrics_state as (mself & Hmfit & Hms & Hmc & Hmp).
  destruct (Confounder_back_scaled_ok cself two_draws Hcp) as [pc' Hc].
  { apply (bool_decide_unpack _). by vm_compute. }
  destruct (Metrics_back_scaled_ok mself two_draws Hmp) as [pm' Hm].
  { apply (bool_decide_unpack _). by vm_compute. }
  destruct (beta_back_scaling_differs_between_variants
              cself mself two_draws pc' two_draws pm' Hcp Hc Hmp Hm)
    as [[Ef _] [Ef' _]].
  rewrite Hcs, Hcc in Ef. rewrite Hms in Ef'.
  exists cself, mself, pc', pm'. repeat (split; [done|]).
  rewrite Ef, Ef'. apply (bool_decide_eq_false_1 _). by vm_compute.
Defined.

(** C9.  On an instance of the base type, [define_model] and
    [get_back_scaled_idata] raise [NotImplementedError], whatever the
    instance: the calls have no other outcome. *)
Theorem base_methods_not_implemented (self : MMM) :
  define_model self
  = Raise (NotImplementedError
             "Subclass must implement abstract method 'define_model()")
  /\ get_back_scaled_idata self
     = Raise (NotImplementedError
                "Subclass must implement abstract method 'get_back_scaled_idata()")
  /\ is_ok (define_model self) = false
  /\ is_ok (get_back_scaled_idata self) = false.
Proof. done. Qed.

(** [fit] on a base instance without a model calls [define_model] first,
    and so raises as well. *)
Lemma base_fit_not_implemented sample (self : MMM) :
  model self = None ->
  exists msg, fit sample self = Raise (NotImplementedError msg).
Proof. intros Hm. unfold fit. simpl. rewrite Hm. by eexists. Qed.

(** ** Undoing the back-scaling *)

Lemma xdiv_Fin_nonzero (sq cq : Qc) :
  sq ≠ qz 0 -> cq ≠ qz 0 ->
  exists k, xdiv (Fin sq) (Fin cq) = Fin k /\ k ≠ qz 0.
Proof.
  intros Hs Hc. exists (sq / cq)%Qc. simpl. rewrite decide_False by done.
  split; [done|]. intros H. apply Hs.
  rewrite <- (Qcmult_div_r sq cq Hc), H. change (qz 0) with 0%Qc. ring.
Qed.

Lemma one_nonzero : qz 1 ≠ qz 0.
Proof. done. Qed.

(** Once a parameter's draws are known to be multiplied by a finite
    nonzero factor, multiplying by the inverse gives them back. *)
Lemma factor_undone (p p' : gmap string (list xval)) name draws f k :
  f = Fin k -> k ≠ qz 0 ->
  p' !! name = times f <$> p !! name ->
  p !! name = Some draws ->
  Forall (fun x => is_fin x = true) draws ->
  exists back,
    p' !! name = Some back
    /\ back = times f draws
    /\ times (xdiv one f) back = draws.
Proof.
  intros -> Hk Hp' Hp Hfin. rewrite Hp in Hp'. simpl in Hp'.
  exists (times (Fin k) draws). repeat split; [done|].
  by apply times_inverse.
Qed.

Lemma unchanged_is_times_one (p p' : gmap string (list xval)) name :
  p' !! name = p !! name -> p' !! name = times one <$> p !! name.
Proof.
  intros ->. destruct (p !! name) as [d|]; [|done]. simpl.
  by rewrite times_one.
Qed.

Lemma quotient_is_times (p p' : gmap string (list xval)) name s c :
  p' !! name = fmap (fun x => xdiv (xmul x s) c) <$> p !! name ->
  p' !! name = times (xdiv s c) <$> p !! name.
Proof.
  intros ->. destruct (p !! name) as [d|]; [|done]. simpl.
  by rewrite times_quotient.
Qed.

Lemma Straight_back_scaled_factor (self : MMMChannelsStraight) p p' name :
  idata (straight_base self) = Some p ->
  Straight_get_back_scaled_idata self = Ok p' ->
  p' !! name
  = times (straight_factor (allowIntercept self)
             (salesscale (straight_base self))
             (channelscale (straight_base self)) name) <$> p !! name.
Proof.
  intros Hp H.
  destruct (Straight_back_scaled self p p' Hp H) as (Ei & Es & Eb & Eo).
  unfold straight_factor.
  repeat case_decide; subst; try done.
  - destruct (allowIntercept self); [done | by apply unchanged_is_times_one].
  - by apply quotient_is_times.
  - by apply unchanged_is_times_one, Eo.
Qed.

Lemma Confounder_back_scaled_factor
    (self : MMMChannelsStraightConfounder) p p' name :
  idata (confounder_base self) = Some p ->
  Confounder_get_back_scaled_idata self = Ok p' ->
  p' !! name
  = times (confounder_factor (salesscale (confounder_base self))
             (channelscale (confounder_base self)) name) <$> p !! name.
Proof.
  intros Hp H.
  destruct (Confounder_back_scaled self p p' Hp H)
    as (Ei & Es & Eg & Ef & E0 & Esg & Eo).
  unfold confounder_factor.
  repeat case_decide; subst; try done; try by apply quotient_is_times.
  apply unchanged_is_times_one, Eo.
  rewrite !not_elem_of_cons. repeat split; try done. apply not_elem_of_nil.
Qed.

Lemma Metrics_back_scaled_factor (self : MMMFbGoogleMetrics) p p' name :
  idata (metrics_base self) = Some p ->
  Metrics_get_back_scaled_idata self = Ok p' ->
  p' !! name
  = times (metrics_factor (salesscale (metrics_base self))
             (channelscale (metrics_base self)) name) <$> p !! name.
Proof.
  intros Hp H.
  destruct (Metrics_back_scaled self p p' Hp H) as (Ei & Es & Ef & Eg & Eo).
  unfold metrics_factor.
  repeat case_decide; subst; try done.
  apply unchanged_is_times_one, Eo.
  rewrite !not_elem_of_cons. repeat split; try done. apply not_elem_of_nil.
Qed.

Lemma straight_factor_nonzero ai (sq cq : Qc) name :
  sq ≠ qz 0 -> cq ≠ qz 0 ->
  exists k, straight_factor ai (Fin sq) (Fin cq) name = Fin k /\ k ≠ qz 0.
Proof.
  intros Hs Hc. unfold straight_factor, one.
  repeat case_decide; try destruct ai; eauto using xdiv_Fin_nonzero, one_nonzero.
Qed.

Lemma confounder_factor_nonzero (sq cq : Qc) name :
  sq ≠ qz 0 -> cq ≠ qz 0 ->
  exists k, confounder_factor (Fin sq) (Fin cq) name = Fin k /\ k ≠ qz 0.
Proof.
  intros Hs Hc. unfold confounder_factor, one.
  repeat case_decide; eauto using xdiv_Fin_nonzero, one_nonzero.
Qed.

Lemma metrics_factor_nonzero (sq cq : Qc) name :
  sq ≠ qz 0 -> cq ≠ qz 0 ->
  exists k, metrics_factor (Fin sq) (Fin cq) name = Fin k /\ k ≠ qz 0.
Proof.
  intros Hs Hc. unfold metrics_factor, one.
  repeat case_decide; eauto using xdiv_Fin_nonzero, one_nonzero.
Qed.

(** C8.  With finite nonzero sales and channel scales, for each variant
    and each parameter of the posterior with finite draws (the declared
    fitted parameters among them): back-scaling returns the draws
    multiplied by the variant's factor for that parameter, and
    multiplying the result by the inverse of that factor gives the
    original draws back. *)
Theorem back_scaling_undone_by_inverse (sq cq : Qc) name draws :
  sq ≠ qz 0 ->
  cq ≠ qz 0 ->
  Forall (fun x => is_fin x = true) draws ->
  (forall (self : MMMChannelsStraight) p p',
      salesscale (straight_base self) = Fin sq ->
      channelscale (straight_base self) = Fin cq ->
      idata (straight_base self) = Some p ->
      Straight_get_back_scaled_idata self = Ok p' ->
      p !! name = Some draws ->
      let f := straight_factor (allowIntercept self) (Fin sq) (Fin cq) name in
      exists back,
        p' !! name = Some back
        /\ back = times f draws
        /\ times (xdiv one f) back = draws)
  /\ (forall (self : MMMChannelsStraightConfounder) p p',
        salesscale (confounder_base self) = Fin sq ->
        channelscale (confounder_base self) = Fin cq ->
        idata (confounder_base self) = Some p ->
        Confounder_get_back_scaled_idata self = Ok p' ->
        p !! name = Some draws ->
        let f := confounder_factor (Fin sq) (Fin cq) name in
        exists back,
          p' !! name = Some back
          /\ back = times f draws
          /\ times (xdiv one f) back = draws)
  /\ (forall (self : MMMFbGoogleMetrics) p p',
        salesscale (metrics_base self) = Fin sq ->
        channelscale (metrics_base self) = Fin cq ->
        idata (metrics_base self) = Some p ->
        Metrics_get_back_scaled_idata self = Ok p' ->
        p !! name = Some draws ->
        let f := metrics_factor (Fin sq) (Fin cq) name in
        exists back,
          p' !! name = Some back
          /\ back = times f draws
          /\ times (xdiv one f) back = draws).
Proof.
  intros Hs Hc Hfin. repeat split; intros self p p' Es Ec Hp H Hdraws f.
  - destruct (straight_factor_nonzero (allowIntercept self) sq cq name Hs Hc)
      as (k & Hk & Hk0).
    apply (factor_undone p p' name draws f k); try done.
    subst f. rewrite <- Es, <- Ec. by apply Straight_back_scaled_factor.
  - destruct (confounder_factor_nonzero sq cq name Hs Hc) as (k & Hk & Hk0).
    apply (factor_undone p p' name draws f k); try done.
    subst f. rewrite <- Es, <- Ec. by apply Confounder_back_scaled_factor.
  - destruct (metrics_factor_nonzero sq cq name Hs Hc) as (k & Hk & Hk0).
    apply (factor_undone p p' name draws f k); try done.
    subst f. rewrite <- Es, <- Ec. by apply Metrics_back_scaled_factor.
Qed.

Lemma back_scaling_undone_by_inverse_witness :
  (exists self p' back,
     fitted_straight true = Ok self
     /\ Straight_get_back_scaled_idata self = Ok p'
     /\ p' !! "beta" = Some back
     /\ back = times (xdiv (Fin (qz 500)) (Fin (qz 100)))
                 [Fin (qz 5); Fin (qz 6)]
     /\ times (xdiv one (xdiv (Fin (qz 500)) (Fin (qz 100)))) back
        = [Fin (qz 5); Fin (qz 6)])
  /\ (exists self p' back,
        fitted_confounder = Ok self
        /\ Confounder_get_back_scaled_idata self = Ok p'
        /\ p' !! "spend_google_0" = Some back
        /\ back = times (Fin (qz 30)) [Fin (qz 13); Fin (qz 14)]
        /\ times (xdiv one (Fin (qz 30))) back = [Fin (qz 13); Fin (qz 14)])
  /\ (exists self p' back,
        fitted_metrics = Ok self
        /\ Metrics_get_back_scaled_idata self = Ok p'
        /\ p' !! "beta_fb" = Some back
        /\ back = times (Fin (qz 160)) [Fin (qz 7); Fin (qz 8)]
        /\ times (xdiv one (Fin (qz 160))) back = [Fin (qz 7); Fin (qz 8)]).
Proof.
  assert (Hfin : forall a b : Z,
             Forall (fun x => is_fin x = true) [Fin (qz a); Fin (qz b)]).
  { intros a b. by repeat constructor. }
  repeat split.
  - destruct (fitted_straight_state true) as (self & Hfit & Hai & Hs & Hc & Hp).
    destruct (Straight_back_scaled_ok self two_draws Hp) as [p' H];
      [intros _; eexists; apply two_draws_lookup
      |eexists; apply two_draws_lookup ..|].
    destruct (proj1 (back_scaling_undone_by_inverse
                       (qz 500) (qz 100) "beta" [Fin (qz 5); Fin (qz 6)]
                       ltac:(done) ltac:(done) (Hfin 5%Z 6%Z))
                self two_draws p' Hs Hc Hp H ltac:(apply two_draws_lookup))
      as (back & Hback).
    exists self, p', back. split; [exact Hfit|]. split; [exact H|].
    exact Hback.
  - destruct fitted_confounder_state as (self & Hfit & Hs & Hc & Hp).
    destruct (Confounder_back_scaled_ok self two_draws Hp) as [p' H].
    { apply (bool_decide_unpack _). by vm_compute. }
    destruct (proj1 (proj2 (back_scaling_undone_by_inverse
                       (qz 160) (qz 30) "spend_google_0"
                       [Fin (qz 13); Fin (qz 14)]
                       ltac:(done) ltac:(done) (Hfin 13%Z 14%Z)))
                self two_draws p' Hs Hc Hp H ltac:(apply two_draws_lookup))
      as (back & Hback).
    exists self, p', back. split; [exact Hfit|]. split; [exact H|].
    exact Hback.
  - destruct fitted_metrics_state as (self & Hfit & Hs & Hc & Hp).
    destruct (Metrics_back_scaled_ok self two_draws Hp) as [p' H].
    { apply (bool_decide_unpack _). by vm_compute. }
    destruct (proj2 (proj2 (back_scaling_undone_by_inverse
                       (qz 160) (qz 30) "beta_fb"
                       [Fin (qz 7); Fin (qz 8)]
                       ltac:(done) ltac:(done) (Hfin 7%Z 8%Z)))
                self two_draws p' Hs Hc Hp H ltac:(apply two_draws_lookup))
      as (back & Hback).
    exists self, p', back. split; [exact Hfit|]. split; [exact H|].
    exact Hback.
Defined.

(** * Further properties of the code *)

(** ** The constructors *)

Lemma set_scaling_idempotent (self self' : MMM) :
  set_scaling self = Ok self' -> set_scaling self' = Ok self'.
Proof.
  unfold set_scaling. intros H.
  apply bind_Ok in H as (c & Hc & H).
  apply bind_Ok in H as (scaled1 & H1 & H).
  apply bind_Ok in H as (sales & Hsales & H).
  injection H as <-. cbn [data_raw channelnames salesname set_scales].
  rewrite Hc. cbn [mbind result_bind]. rewrite H1. cbn [mbind result_bind].
  rewrite Hsales. reflexivity.
Qed.

Lemma straight_constructor_scales_once_eq data names ai aa lag :
  Straight_init data names ai aa lag
  = (b ← MMM_init data names;
     Ok (mkStraight b "google_fb_straight" ["beta"; "sigma"] ai aa lag)).
Proof.
  unfold Straight_init. destruct (MMM_init data names) as [b|e] eqn:H; [|done].
  cbn [mbind result_bind].
  apply MMM_init_spec, set_scaling_idempotent in H. by rewrite H.
Qed.

(** X1.  Scaling again changes nothing: on an object that [set_scaling]
    has returned, [set_scaling] returns and gives that same object. *)
Theorem set_scaling_again_changes_nothing (self self' : MMM) :
  set_scaling self = Ok self' -> set_scaling self' = Ok self'.
Proof. apply set_scaling_idempotent. Qed.

Lemma set_scaling_again_changes_nothing_witness :
  exists self,
    MMM_init ten_days ["spend_a"; "spend_b"] = Ok self
    /\ set_scaling self = Ok self.
Proof.
  destruct (is_ok_Ok (MMM_init ten_days ["spend_a"; "spend_b"]))
    as [self H]; [vm_compute; reflexivity|].
  exists self. split; [exact H|].
  apply (set_scaling_again_changes_nothing
           (mkMMM ten_days ["spend_a"; "spend_b"] "sales" "date" (dates self)
                  zero zero None None None)).
  by apply MMM_init_spec.
Defined.

(** X2.  The straight model's constructor calls [set_scaling] a second
    time, without effect: it returns exactly when the base constructor
    does, with the base constructor's object inside and the names 'beta'
    and 'sigma' listed, and raises the same exception otherwise. *)
Theorem straight_constructor_scales_once data names ai aa lag :
  Straight_init data names ai aa lag
  = (b ← MMM_init data names;
     Ok (mkStraight b "google_fb_straight" ["beta"; "sigma"] ai aa lag)).
Proof. apply straight_constructor_scales_once_eq. Qed.

Lemma channel_scale_loop_missing raw pre ch post s0 :
  Forall (fun n => is_Some (raw !! n)) pre ->
  raw !! ch = None ->
  channel_scale_loop raw (pre ++ ch :: post) s0 = Raise (KeyError ch).
Proof.
  intros Hpre Hch. revert s0.
  induction Hpre as [|n pre [col Hn] _ IH]; intros s0; simpl.
  - unfold getcol. by rewrite Hch.
  - unfold getcol. rewrite Hn. cbn [mbind result_bind]. apply IH.
Qed.

(** X3.  The constructor looks the columns up in a fixed order and has no
    other way to fail: without a date column it raises [KeyError] for
    'date'; with one, the first named channel missing from the table
    raises [KeyError] for that channel; with all of those, a missing sales
    column raises [KeyError] for 'sales'; and with the date, channel and
    sales columns all present it returns. *)
Theorem constructor_key_errors data names :
  (data !! "date" = None -> MMM_init data names = Raise (KeyError "date"))
  /\ (forall pre ch post,
        is_Some (data !! "date") ->
        names = (pre ++ ch :: post)%list ->
        Forall (fun n => is_Some (data !! n)) pre ->
        data !! ch = None ->
        MMM_init data names = Raise (KeyError ch))
  /\ (is_Some (data !! "date") ->
      Forall (fun n => is_Some (data !! n)) names ->
      data !! "sales" = None ->
      MMM_init data names = Raise (KeyError "sales"))
  /\ (is_Some (data !! "date") ->
      Forall (fun n => is_Some (data !! n)) names ->
      is_Some (data !! "sales") ->
      exists self, MMM_init data names = Ok self).
Proof.
  repeat split.
  - intros Hd. unfold MMM_init, getcol. by rewrite Hd.
  - intros pre ch post [d Hd] -> Hpre Hch.
    unfold MMM_init, getcol. rewrite Hd. cbn [mbind result_bind].
    unfold set_scaling. cbn [data_raw channelnames].
    by rewrite channel_scale_loop_missing.
  - intros [d Hd] Hnames Hsales. rewrite list.Forall_forall in Hnames.
    unfold MMM_init, getcol. rewrite Hd. cbn [mbind result_bind].
    unfold set_scaling. cbn [data_raw channelnames salesname].
    destruct (channel_scale_loop_ok data names zero Hnames) as [c ->].
    cbn [mbind result_bind].
    destruct (channel_divide_loop_ok names c (copy_frame data)) as [sc Hsc].
    { intros ch Hin. unfold copy_frame. rewrite lookup_fmap.
      destruct (Hnames ch Hin) as [col ->]. by eexists. }
    rewrite Hsc. cbn [mbind result_bind].
    assert (Hnone : sc !! "sales" = None).
    { rewrite (channel_divide_loop_spec _ _ _ _ Hsc). unfold copy_frame.
      by rewrite lookup_fmap, Hsales. }
    unfold getcol. by rewrite Hnone.
  - intros Hd Hnames Hsales. rewrite list.Forall_forall in Hnames.
    by apply MMM_init_ok.
Qed.

Lemma constructor_key_errors_witness :
  MMM_init (delete "date" ten_days) ["spend_a"; "spend_b"]
  = Raise (KeyError "date")
  /\ MMM_init ten_days ["spend_a"; "clicks"; "spend_b"]
     = Raise (KeyError "clicks")
  /\ MMM_init (delete "sales" ten_days) ["spend_a"; "spend_b"]
     = Raise (KeyError "sales")
  /\ (exists self, MMM_init ten_days ["spend_a"; "spend_b"] = Ok self).
Proof.
  assert (Hcols : forall (data : gmap string (list cell)) names,
             bool_decide (Forall (fun ch => is_Some (data !! ch)) names) = true ->
             Forall (fun ch => is_Some (data !! ch)) names).
  { intros data names. apply bool_decide_eq_true_1. }
  assert (Hcol : forall (data : gmap string (list cell)) name,
             bool_decide (is_Some (data !! name)) = true ->
             is_Some (data !! name)).
  { intros data name. apply bool_decide_eq_true_1. }
  split; [|split; [|split]].
  - apply (proj1 (constructor_key_errors _ _)). vm_compute. reflexivity.
  - apply (proj1 (proj2 (constructor_key_errors _ _)) ["spend_a"] "clicks" ["spend_b"]).
    + apply Hcol. vm_compute. reflexivity.
    + reflexivity.
    + apply Hcols. vm_compute. reflexivity.
    + vm_compute. reflexivity.
  - apply (proj1 (proj2 (proj2 (constructor_key_errors _ _)))).
    + apply Hcol. vm_compute. reflexivity.
    + apply Hcols. vm_compute. reflexivity.
    + vm_compute. reflexivity.
  - apply (proj2 (proj2 (proj2 (constructor_key_errors _ _)))).
    + apply Hcol. vm_compute. reflexivity.
    + apply Hcols. vm_compute. reflexivity.
    + apply Hcol. vm_compute. reflexivity.
Defined.

(** ** The scaled table *)

Lemma xle_antisym (a b : xval) :
  notna a = true -> notna b = true ->
  xlt a b = false -> xlt b a = false -> a = b.
Proof.
  destruct a as [a| | |], b as [b| | |]; try done. intros _ _.
  rewrite !xlt_Fin_false. intros Hba Hab. f_equal. by apply Qcle_antisym.
Qed.

(** The largest of 0 and the medians depends on which channels are named,
    not on their order or repetition. *)
Lemma max_of_medians_unique raw names names' c c' :
  (forall ch, ch ∈ names <-> ch ∈ names') ->
  notna c = true -> notna c' = true ->
  max_of_medians raw names c -> max_of_medians raw names' c' -> c = c'.
Proof.
  intros Hsame Hc Hc' (H0 & Hor & Hall) (H0' & Hor' & Hall').
  apply xle_antisym; try done.
  - destruct Hor' as [->|(ch & Hin & Hm)]; [done|].
    apply (Hall ch c'); [by apply Hsame | done].
  - destruct Hor as [->|(ch & Hin & Hm)]; [done|].
    apply (Hall' ch c); [by apply Hsame | done].
Qed.

Lemma occurrences_Permutation name (l l' : list string) :
  l ≡ₚ l' -> occurrences name l = occurrences name l'.
Proof.
  induction 1 as [|x l l' _ IH|x y l|l l' l'' _ IH1 _ IH2]; simpl; lia.
Qed.

(** X4.  The order in which the channels are named does not matter: if
    the constructor returns for a list of channel names, it returns for
    every reordering of the list, with the same channel scale, the same
    sales scale and the same scaled table. *)
Theorem scaling_ignores_channel_order data names names' self :
  MMM_init data names = Ok self ->
  names ≡ₚ names' ->
  exists self',
    MMM_init data names' = Ok self'
    /\ channelscale self' = channelscale self
    /\ salesscale self' = salesscale self
    /\ data_scaled self' = data_scaled self.
Proof.
  intros H Hperm.
  assert (Hsame : forall ch, ch ∈ names <-> ch ∈ names').
  { intros ch. by rewrite Hperm. }
  pose proof (MMM_init_spec _ _ _ H) as Hs.
  pose proof Hs as Hloop. unfold set_scaling in Hloop.
  apply bind_Ok in Hloop as (c0 & Hc0 & Hloop).
  apply bind_Ok in Hloop as (sc0 & _ & Hloop).
  apply bind_Ok in Hloop as (sales0 & _ & _).
  pose proof (channel_scale_loop_present _ _ _ _ Hc0) as Hcols.
  cbn [data_raw channelnames] in Hcols.
  apply set_scaling_spec in Hs
    as (Hmax & (scaled & Hscaled & sales & Hs1 & Hs2 & Hs3 & Hother)
        & _ & _ & _ & Hna).
  cbn [data_raw channelnames salesname] in *.
  assert (Hd : is_Some (data !! "date")).
  { unfold MMM_init in H. apply bind_Ok in H as (d & Hd & _).
    apply getcol_Ok in Hd. by eexists. }
  assert (Hsl : is_Some (data !! "sales")).
  { unfold copy_frame in Hs1. rewrite lookup_fmap in Hs1.
    destruct (data !! "sales"); [by eexists | done]. }
  destruct (MMM_init_ok data names') as [self' H']; try done.
  { intros ch Hin. apply Hcols. by apply Hsame. }
  exists self'. split; [done|].
  pose proof (MMM_init_spec _ _ _ H') as Hs'.
  apply set_scaling_spec in Hs'
    as (Hmax' & (scaled' & Hscaled' & sales' & Hs1' & Hs2' & Hs3' & Hother')
        & _ & _ & _ & Hna').
  cbn [data_raw channelnames salesname] in *.
  assert (Ec : channelscale self' = channelscale self).
  { by apply (max_of_medians_unique data names' names). }
  rewrite Ec in *.
  rewrite <- (occurrences_Permutation "sales" _ _ Hperm), Hs1 in Hs1'.
  injection Hs1' as <-.
  assert (Es : salesscale self' = salesscale self) by congruence.
  rewrite Es in *. repeat split; try done.
  rewrite Hscaled, Hscaled'. f_equal. apply map_eq. intros name.
  destruct (decide (name = "sales")) as [->|Hne]; [congruence|].
  rewrite (Hother name Hne), (Hother' name Hne).
  by rewrite (occurrences_Permutation name _ _ Hperm).
Qed.

Lemma scaling_ignores_channel_order_witness :
  exists self self',
    MMM_init ten_days ["spend_a"; "spend_b"] = Ok self
    /\ MMM_init ten_days ["spend_b"; "spend_a"] = Ok self'
    /\ channelscale self' = channelscale self
    /\ salesscale self' = salesscale self
    /\ data_scaled self' = data_scaled self.
Proof.
  destruct (is_ok_Ok (MMM_init ten_days ["spend_a"; "spend_b"]))
    as [self H]; [vm_compute; reflexivity|].
  destruct (scaling_ignores_channel_order
              ten_days ["spend_a"; "spend_b"] ["spend_b"; "spend_a"] self H)
    as (self' & H'); [apply perm_swap|].
  by exists self, self'.
Defined.

Lemma occurrences_NoDup name (names : list string) :
  NoDup names -> name ∈ names -> occurrences name names = 1.
Proof.
  induction 1 as [|n rest Hn _ IH]; intros Hin; [by apply elem_of_nil in Hin|].
  simpl. apply elem_of_cons in Hin as [->|Hin].
  - rewrite decide_True by done.
    apply occurrences_not_elem_of in Hn. lia.
  - rewrite decide_False; [by rewrite IH|]. by intros ->.
Qed.

Lemma xdiv_self (q : Qc) : q ≠ qz 0 -> xdiv (Fin q) (Fin q) = one.
Proof.
  intros Hq. simpl. rewrite decide_False by done. unfold one. f_equal.
  change (qz 1) with 1%Qc. change (qz 0) with 0%Qc in Hq. by field.
Qed.

Lemma iter_divide_length (k : nat) (c : xval) (col : list xval) :
  length (Nat.iter k (divide_by c) col) = length col.
Proof.
  induction k as [|k IH]; [done|].
  rewrite Nat.iter_succ. unfold divide_by at 1. by rewrite length_fmap.
Qed.

Lemma scaling_shape data names self :
  MMM_init data names = Ok self ->
  exists scaled,
    data_scaled self = Some scaled
    /\ dom scaled = dom data
    /\ (forall name, length <$> scaled !! name = length <$> data !! name)
    /\ (forall name, name ∉ names -> name ≠ "sales" ->
          scaled !! name = fmap of_cell <$> data !! name).
Proof.
  intros H. apply MMM_init_spec, set_scaling_spec in H
    as (_ & (scaled & Hscaled & sales & Hs1 & _ & Hs3 & Hother) & _).
  cbn [data_raw channelnames salesname] in *.
  unfold copy_frame in *. rewrite lookup_fmap in Hs1.
  assert (Hlen : forall name,
             length <$> scaled !! name = length <$> data !! name).
  { intros name. destruct (decide (name = "sales")) as [->|Hne].
    - rewrite Hs3. destruct (data !! "sales") as [col|]; [|done].
      injection Hs1 as <-. simpl. unfold divide_by at 1.
      by rewrite length_fmap, iter_divide_length, length_fmap.
    - rewrite (Hother name Hne), lookup_fmap.
      destruct (data !! name) as [col|]; [|done]. simpl.
      by rewrite iter_divide_length, length_fmap. }
  exists scaled. repeat split; try done.
  - apply set_eq. intros name. rewrite !elem_of_dom.
    specialize (Hlen name).
    destruct (scaled !! name), (data !! name); try done;
      split; intros [? ?]; done || by eexists.
  - intros name Hnot Hne. rewrite (Hother name Hne), lookup_fmap.
    apply occurrences_not_elem_of in Hnot. rewrite Hnot.
    by destruct (data !! name).
Qed.

(** X5.  Scaling keeps the shape of the table: the scaled table has the
    columns of the raw table and no others, every column keeps its number
    of rows, and a column that is neither a named channel nor the sales
    column (the date column, a metrics column) is carried over unchanged. *)
Theorem scaling_keeps_columns_and_rows data names self :
  MMM_init data names = Ok self ->
  exists scaled,
    data_scaled self = Some scaled
    /\ dom scaled = dom data
    /\ (forall name, length <$> scaled !! name = length <$> data !! name)
    /\ (forall name, name ∉ names -> name ≠ "sales" ->
          scaled !! name = fmap of_cell <$> data !! name).
Proof. apply scaling_shape. Qed.

Lemma scaling_keeps_columns_and_rows_witness :
  exists self scaled,
    MMM_init ten_days ["spend_a"; "spend_b"] = Ok self
    /\ data_scaled self = Some scaled
    /\ dom scaled = dom ten_days
    /\ (forall name, length <$> scaled !! name = length <$> ten_days !! name).
Proof.
  destruct (is_ok_Ok (MMM_init ten_days ["spend_a"; "spend_b"]))
    as [self H]; [vm_compute; reflexivity|].
  destruct (scaling_keeps_columns_and_rows _ _ _ H)
    as (scaled & Hs & Hdom & Hlen & _).
  by exists self, scaled.
Defined.

Lemma xmul_xdiv_cancel (x : xval) (c : Qc) :
  no_inf x = true -> c ≠ qz 0 -> xmul (xdiv x (Fin c)) (Fin c) = x.
Proof.
  intros Hx Hc. destruct x as [a| | |]; try done.
  simpl. rewrite decide_False by done. simpl. f_equal.
  change (qz 0) with 0%Qc in Hc. by field.
Qed.

Lemma times_divide_cancel (c : Qc) (col : list cell) :
  c ≠ qz 0 ->
  times (Fin c) (divide_by (Fin c) (of_cell <$> col)) = of_cell <$> col.
Proof.
  intros Hc. unfold times, divide_by.
  induction col as [|x col IH]; [done|].
  rewrite !fmap_cons, IH. f_equal. apply xmul_xdiv_cancel; [|done].
  by destruct x.
Qed.

(** X6.  Scaling can be undone.  With each channel named once, sales not
    among the channels and both scales finite and nonzero, multiplying
    every channel column of the scaled table by the channel scale and its
    sales column by the sales scale gives the raw table back, missing
    values included. *)
Theorem scaling_round_trip data names self c s :
  MMM_init data names = Ok self ->
  NoDup names ->
  "sales" ∉ names ->
  channelscale self = Fin c -> c ≠ qz 0 ->
  salesscale self = Fin s -> s ≠ qz 0 ->
  exists scaled,
    data_scaled self = Some scaled
    /\ forall name col,
         data !! name = Some col ->
         exists scaled_col,
           scaled !! name = Some scaled_col
           /\ times (if decide (name = "sales") then Fin s
                     else if decide (name ∈ names) then Fin c
                     else one) scaled_col
              = of_cell <$> col.
Proof.
  intros H Hnd Hsales Ec Hc Es Hs.
  apply MMM_init_spec, set_scaling_spec in H
    as (_ & (scaled & Hscaled & sales & Hs1 & _ & Hs3 & Hother) & _).
  cbn [data_raw channelnames salesname] in *.
  unfold copy_frame in *. rewrite lookup_fmap in Hs1.
  rewrite Ec, Es in *. exists scaled. split; [done|].
  intros name col Hcol. destruct (decide (name = "sales")) as [->|Hne].
  - rewrite Hcol in Hs1. apply occurrences_not_elem_of in Hsales.
    rewrite Hsales in Hs1. injection Hs1 as <-.
    eexists. split; [exact Hs3|]. by apply times_divide_cancel.
  - rewrite (Hother name Hne), lookup_fmap, Hcol. eexists.
    split; [reflexivity|]. destruct (decide (name ∈ names)) as [Hin|Hnot].
    + rewrite (occurrences_NoDup _ _ Hnd Hin). by apply times_divide_cancel.
    + apply occurrences_not_elem_of in Hnot. rewrite Hnot. apply times_one.
Qed.

Lemma scaling_round_trip_witness :
  exists self scaled scaled_col,
    MMM_init ten_days ["spend_a"; "spend_b"] = Ok self
    /\ data_scaled self = Some scaled
    /\ scaled !! "spend_a" = Some scaled_col
    /\ (fun col : list cell => of_cell <$> col) <$> ten_days !! "spend_a"
       = Some (times (Fin (qz 100)) scaled_col).
Proof.
  destruct (is_ok_Ok (MMM_init ten_days ["spend_a"; "spend_b"]))
    as [self H]; [vm_compute; reflexivity|].
  pose proof ten_days_scales as Hten. rewrite H in Hten.
  injection Hten as Ec Es.
  destruct (scaling_round_trip ten_days ["spend_a"; "spend_b"] self
              (qz 100) (qz 500) H) as (scaled & Hscaled & Hround);
    try done.
  { apply (bool_decide_unpack _). vm_compute. exact I. }
  { apply (bool_decide_unpack _). vm_compute. exact I. }
  destruct (Hround "spend_a"
              (nums [60; 140; 100; 70; 130; 80; 120; 100; 90; 110]%Z)
              eq_refl) as (scaled_col & Hcol & Htimes).
  exists self, scaled, scaled_col. repeat (split; [assumption|]).
  rewrite decide_False in Htimes by done.
  rewrite decide_True in Htimes; [|apply elem_of_cons; by left].
  by rewrite Htimes.
Defined.

(** X7.  What the scaling is for.  With each channel named once, sales not
    among the channels, some channel of positive median and a positive
    sales median: in the scaled table the sales column has median 1, some
    channel column has median 1, and no channel column has a median above
    1. *)
Theorem scaled_medians_are_normalised data names self :
  MMM_init data names = Ok self ->
  NoDup names ->
  "sales" ∉ names ->
  (exists ch m, ch ∈ names /\ raw_median data ch = Some m
                /\ xgt m zero = true) ->
  (exists m, raw_median data "sales" = Some (Fin m) /\ (0 < m)%Qc) ->
  exists scaled,
    data_scaled self = Some scaled
    /\ median <$> scaled !! "sales" = Some one
    /\ (exists ch, ch ∈ names /\ median <$> scaled !! ch = Some one)
    /\ (forall ch, ch ∈ names ->
          exists m, median <$> scaled !! ch = Some m /\ xgt m one = false).
Proof.
  intros H Hnd Hsales Hpos (ms & Hms & Hms0).
  pose proof (MMM_init_spec _ _ _ H) as Hs.
  pose proof Hs as Hloop. unfold set_scaling in Hloop.
  apply bind_Ok in Hloop as (c0 & Hc0 & _).
  pose proof (channel_scale_loop_present _ _ _ _ Hc0) as Hcols.
  cbn [data_raw channelnames] in Hcols.
  apply set_scaling_spec in Hs
    as (Hmax & (scaled & Hscaled & sales & Hs1 & Hs2 & Hs3 & Hother)
        & _ & _ & _ & Hna).
  cbn [data_raw channelnames salesname] in *.
  destruct (max_of_medians_positive _ _ _ Hna Hmax Hpos) as (c & Ec & Hc).
  rewrite Ec in *.
  assert (Hc0' : c ≠ qz 0).
  { intros ->. by apply (Qclt_not_eq _ _ Hc). }
  assert (Hms0' : ms ≠ qz 0).
  { intros ->. by apply (Qclt_not_eq _ _ Hms0). }
  assert (Hch : forall ch, ch ∈ names ->
            exists col, data !! ch = Some col
              /\ median <$> scaled !! ch
                 = Some (xdiv (median (of_cell <$> col)) (Fin c))).
  { intros ch Hin. destruct (Hcols ch Hin) as [col Hcol]. exists col.
    split; [done|]. rewrite Hother by (by intros ->).
    unfold copy_frame. rewrite lookup_fmap, Hcol.
    rewrite (occurrences_NoDup _ _ Hnd Hin). simpl.
    by rewrite median_divide_pos. }
  exists scaled. split; [done|]. split; [|split].
  - rewrite Hs3. simpl. f_equal.
    apply occurrences_not_elem_of in Hsales. rewrite Hsales in Hs1.
    unfold copy_frame, raw_median in *. rewrite lookup_fmap in Hs1.
    destruct (data !! "sales") as [col|]; [|done].
    injection Hs1 as <-. injection Hms as Hms. simpl in Hs2.
    rewrite Hs2, Hms, median_divide_pos, Hms by done. by apply xdiv_self.
  - destruct Hmax as (_ & [Hz|(ch & Hin & Hm)] & _).
    { injection Hz as ->. by destruct Hc0'. }
    exists ch. split; [done|]. destruct (Hch ch Hin) as (col & Hcol & ->).
    unfold raw_median in Hm. rewrite Hcol in Hm. injection Hm as ->.
    f_equal. by apply xdiv_self.
  - intros ch Hin. destruct (Hch ch Hin) as (col & Hcol & ->).
    eexists. split; [reflexivity|].
    destruct Hmax as (_ & _ & Hall).
    assert (Hm : raw_median data ch = Some (median (of_cell <$> col))).
    { unfold raw_median. by rewrite Hcol. }
    pose proof (Hall _ _ Hin Hm) as Hle. unfold xgt in *.
    rewrite <- (xdiv_self c Hc0'). by rewrite div_pos_xlt.
Qed.

Lemma scaled_medians_are_normalised_witness :
  exists self scaled,
    MMM_init ten_days ["spend_a"; "spend_b"] = Ok self
    /\ data_scaled self = Some scaled
    /\ median <$> scaled !! "sales" = Some one
    /\ (exists ch, ch ∈ ["spend_a"; "spend_b"]
                   /\ median <$> scaled !! ch = Some one).
Proof.
  destruct (is_ok_Ok (MMM_init ten_days ["spend_a"; "spend_b"]))
    as [self H]; [vm_compute; reflexivity|].
  destruct (scaled_medians_are_normalised
              ten_days ["spend_a"; "spend_b"] self H)
    as (scaled & Hscaled & Hsales & Hone & _).
  - apply (bool_decide_unpack _). vm_compute. exact I.
  - apply (bool_decide_unpack _). vm_compute. exact I.
  - exists "spend_a", (Fin (qz 100)). split; [apply elem_of_cons; by left|].
    split; [apply ten_days_medians | reflexivity].
  - exists (qz 500). split; [apply ten_days_medians | done].
  - by exists self, scaled.
Defined.

(** ** The model graphs *)

Lemma set_scaling_frame (self self' : MMM) :
  set_scaling self = Ok self' ->
  datename self' = datename self
  /\ salesname self' = salesname self
  /\ channelnames self' = channelnames self
  /\ dates self' = dates self
  /\ data_raw self' = data_raw self
  /\ model self' = model self
  /\ idata self' = idata self.
Proof.
  unfold set_scaling. intros H. bind_inv H. by injection H as <-.
Qed.

Lemma MMM_init_frame data names self :
  MMM_init data names = Ok self ->
  datename self = "date"
  /\ salesname self = "sales"
  /\ channelnames self = names
  /\ data_raw self = data
  /\ model self = None
  /\ idata self = None
  /\ ready self.
Proof.
  intros H. apply MMM_init_spec in H.
  pose proof (set_scaling_ready _ _ H) as Hready.
  apply set_scaling_frame in H as (-> & -> & -> & _ & -> & -> & ->).
  by repeat split.
Qed.

Lemma Straight_init_frame data names ai aa lag self :
  Straight_init data names ai aa lag = Ok self ->
  datename (straight_base self) = "date"
  /\ salesname (straight_base self) = "sales"
  /\ channelnames (straight_base self) = names
  /\ data_raw (straight_base self) = data
  /\ idata (straight_base self) = None.
Proof.
  rewrite straight_constructor_scales_once_eq. intros H.
  apply bind_Ok in H as (b & Hb & [= <-]).
  apply MMM_init_frame in Hb as (? & ? & ? & ? & _ & ? & _). by repeat split.
Qed.

Lemma Confounder_init_frame data names self :
  Confounder_init data names = Ok self ->
  datename (confounder_base self) = "date"
  /\ salesname (confounder_base self) = "sales"
  /\ data_raw (confounder_base self) = data
  /\ model (confounder_base self) = None
  /\ idata (confounder_base self) = None
  /\ confounder_fittedparmnames self = ["beta"; "sigma"]
  /\ ready (confounder_base self).
Proof.
  unfold Confounder_init. intros H. apply bind_Ok in H as (b & Hb & [= <-]).
  apply MMM_init_frame in Hb as (? & ? & ? & ? & ? & ? & ?). by repeat split.
Qed.

Lemma Metrics_init_frame data names fb google self :
  Metrics_init data names fb google = Ok self ->
  datename (metrics_base self) = "date"
  /\ salesname (metrics_base self) = "sales"
  /\ data_raw (metrics_base self) = data
  /\ model (metrics_base self) = None
  /\ idata (metrics_base self) = None
  /\ fb_metric self = fb
  /\ google_metric self = google
  /\ metrics_fittedparmnames self
     = ["beta_fb"; "beta_google"; "intercept"; "sigma"]
  /\ ready (metrics_base self).
Proof.
  unfold Metrics_init. intros H. apply bind_Ok in H as (b & Hb & [= <-]).
  apply MMM_init_frame in Hb as (? & ? & ? & ? & ? & ? & ?). by repeat split.
Qed.

Ltac graph_check :=
  first [ apply (bool_decide_unpack _); vm_compute; exact I
        | vm_compute; reflexivity ].

Lemma Straight_graph_well_formed (self self' : MMMChannelsStraight) :
  datename (straight_base self) = "date" ->
  Straight_define_model self = Ok self' ->
  exists m,
    model (straight_base self') = Some m
    /\ NoDup (node_names m)
    /\ well_formed m = true.
Proof.
  unfold Straight_define_model. intros Hd H. rewrite Hd in H.
  apply bind_Ok in H as (scaled & Hscaled & H).
  apply bind_Ok in H as (cs & Hcs & H).
  apply bind_Ok in H as (m0 & [_ ->]%pm_Data_Ok & H).
  destruct (allowIntercept self), (allowAdstockAndSat self);
    cbn [mbind result_bind] in H;
    apply bind_Ok in H as (sales & Hsales & H); injection H as <-;
    eexists; (split; [reflexivity|]); split; graph_check.
Qed.

Lemma Confounder_graph_well_formed (self self' : MMMChannelsStraightConfounder) :
  datename (confounder_base self) = "date" ->
  Confounder_define_model self = Ok self' ->
  exists m,
    model (confounder_base self') = Some m
    /\ NoDup (node_names m)
    /\ well_formed m = true.
Proof.
  unfold Confounder_define_model. intros Hd H. rewrite Hd in H.
  graph_inv H. injection H as <-.
  eexists; (split; [reflexivity|]); split; graph_check.
Qed.

Lemma Metrics_graph_well_formed (self self' : MMMFbGoogleMetrics) :
  datename (metrics_base self) = "date" ->
  Metrics_define_model self = Ok self' ->
  exists m,
    model (metrics_base self') = Some m
    /\ NoDup (node_names m)
    /\ well_formed m = true.
Proof.
  unfold Metrics_define_model. intros Hd H. rewrite Hd in H.
  graph_inv H. injection H as <-.
  eexists; (split; [reflexivity|]); split; graph_check.
Qed.

Lemma Straight_repeat_datename n (self self' : MMMChannelsStraight) :
  repeat_call Straight_define_model n self = Ok self' ->
  datename (straight_base self') = datename (straight_base self).
Proof.
  apply (repeat_call_invariant Straight_define_model
           (fun s => datename (straight_base s)
                     = datename (straight_base self))); [|done].
  intros x y Hx H. unfold Straight_define_model in H.
  apply bind_Ok in H as (scaled & _ & H). apply bind_Ok in H as (cs & _ & H).
  apply bind_Ok in H as (m0 & [_ ->]%pm_Data_Ok & H).
  destruct (allowIntercept x), (allowAdstockAndSat x);
    cbn [mbind result_bind] in H;
    apply bind_Ok in H as (sales & _ & H); by injection H as <-.
Qed.

Lemma constructed_complete_column {T : Type} {V : Variant T}
    (r : result T) (self : T) (name : string) :
  r = Ok self ->
  constructed_with (fun b => column_complete b name) r = true ->
  column_complete (base self) name = true.
Proof. by intros ->. Qed.

(** Instances of the three variants on [clicks_days], with the graph
    defined. *)
Lemma clicks_days_instances :
  (exists self0 self,
     Straight_init clicks_days ["spend_fb"; "spend_google"] true true 6
     = Ok self0
     /\ repeat_call Straight_define_model 2 self0 = Ok self)
  /\ (exists self0 self,
        Confounder_init clicks_days ["spend_fb"; "spend_google"] = Ok self0
        /\ Confounder_define_model self0 = Ok self)
  /\ (exists self0 self,
        Metrics_init clicks_days ["spend_fb"; "spend_google"]
          "clicks_fb" "clicks_google" = Ok self0
        /\ Metrics_define_model self0 = Ok self).
Proof.
  split; [|split].
  - destruct (constructed_with_Ok channels_complete
                (Straight_init clicks_days ["spend_fb"; "spend_google"]
                   true true 6)) as (self0 & H0 & Hc);
      [vm_compute; reflexivity|].
    destruct (Straight_repeat_ok 2 self0) as [self H]; [|exact Hc|].
    { by apply Straight_init_spec in H0 as (? & _). }
    by exists self0, self.
  - destruct (is_ok_Ok (Confounder_init clicks_days
                          ["spend_fb"; "spend_google"])) as [self0 H0];
      [vm_compute; reflexivity|].
    destruct (is_ok_Ok (self ← Confounder_init clicks_days
                                 ["spend_fb"; "spend_google"];
                        Confounder_define_model self)) as [self H];
      [vm_compute; reflexivity|].
    rewrite H0 in H. cbn [mbind result_bind] in H. by exists self0, self.
  - destruct (is_ok_Ok (Metrics_init clicks_days ["spend_fb"; "spend_google"]
                          "clicks_fb" "clicks_google")) as [self0 H0];
      [vm_compute; reflexivity|].
    destruct (is_ok_Ok (self ← Metrics_init clicks_days
                                 ["spend_fb"; "spend_google"]
                                 "clicks_fb" "clicks_google";
                        Metrics_define_model self)) as [self H];
      [vm_compute; reflexivity|].
    rewrite H0 in H. cbn [mbind result_bind] in H. by exists self0, self.
Qed.

(** X8.  Every graph that [define_model] builds on a constructed instance
    is well formed, whichever the variant and the flags: no name is
    declared twice, every node refers only to nodes declared before it,
    and every dimension it names is a coordinate of the model. *)
Theorem model_graphs_are_well_formed data names :
  (forall ai aa lag self0 n self,
      Straight_init data names ai aa lag = Ok self0 ->
      repeat_call Straight_define_model (S n) self0 = Ok self ->
      exists m, model (straight_base self) = Some m
                /\ NoDup (node_names m) /\ well_formed m = true)
  /\ (forall self0 self,
        Confounder_init data names = Ok self0 ->
        Confounder_define_model self0 = Ok self ->
        exists m, model (confounder_base self) = Some m
                  /\ NoDup (node_names m) /\ well_formed m = true)
  /\ (forall fb google self0 self,
        Metrics_init data names fb google = Ok self0 ->
        Metrics_define_model self0 = Ok self ->
        exists m, model (metrics_base self) = Some m
                  /\ NoDup (node_names m) /\ well_formed m = true).
Proof.
  split; [|split].
  - intros ai aa lag self0 n self H0 H.
    apply repeat_call_last in H as (s1 & Hn & H1).
    apply Straight_graph_well_formed in H1; [done|].
    rewrite (Straight_repeat_datename _ _ _ Hn).
    by apply Straight_init_frame in H0 as (? & _).
  - intros self0 self H0 H. apply Confounder_graph_well_formed in H; [done|].
    by apply Confounder_init_frame in H0 as (? & _).
  - intros fb google self0 self H0 H.
    apply Metrics_graph_well_formed in H; [done|].
    by apply Metrics_init_frame in H0 as (? & _).
Qed.

Lemma model_graphs_are_well_formed_witness :
  (exists self0 self m,
     Straight_init clicks_days ["spend_fb"; "spend_google"] true true 6
     = Ok self0
     /\ repeat_call Straight_define_model 2 self0 = Ok self
     /\ model (straight_base self) = Some m
     /\ NoDup (node_names m) /\ well_formed m = true)
  /\ (exists self0 self m,
        Confounder_init clicks_days ["spend_fb"; "spend_google"] = Ok self0
        /\ Confounder_define_model self0 = Ok self
        /\ model (confounder_base self) = Some m
        /\ NoDup (node_names m) /\ well_formed m = true)
  /\ (exists self0 self m,
        Metrics_init clicks_days ["spend_fb"; "spend_google"]
          "clicks_fb" "clicks_google" = Ok self0
        /\ Metrics_define_model self0 = Ok self
        /\ model (metrics_base self) = Some m
        /\ NoDup (node_names m) /\ well_formed m = true).
Proof.
  pose proof (model_graphs_are_well_formed
                clicks_days ["spend_fb"; "spend_google"]) as (Hs & Hc & Hm).
  destruct clicks_days_instances
    as ((s0 & s & Hs0 & Hs1) & (c0 & c & Hc0 & Hc1) & (m0 & m & Hm0 & Hm1)).
  split; [|split].
  - destruct (Hs _ _ _ _ _ _ Hs0 Hs1) as (g & Hg).
    exists s0, s, g. split; [exact Hs0|]. split; [exact Hs1|]. exact Hg.
  - destruct (Hc _ _ Hc0 Hc1) as (g & Hg).
    exists c0, c, g. split; [exact Hc0|]. split; [exact Hc1|]. exact Hg.
  - destruct (Hm _ _ _ _ Hm0 Hm1) as (g & Hg).
    exists m0, m, g. split; [exact Hm0|]. split; [exact Hm1|]. exact Hg.
Defined.

Lemma Straight_define_model_priors (self self' : MMMChannelsStraight) :
  Straight_define_model self = Ok self' ->
  exists m,
    model (straight_base self') = Some m
    /\ prior_names m
       = straight_priors (allowIntercept self) (allowAdstockAndSat self).
Proof.
  unfold Straight_define_model. intros H.
  apply bind_Ok in H as (scaled & Hscaled & H).
  apply bind_Ok in H as (cs & Hcs & H).
  apply bind_Ok in H as (m0 & [_ ->]%pm_Data_Ok & H).
  destruct (allowIntercept self), (allowAdstockAndSat self);
    cbn [mbind result_bind] in H;
    apply bind_Ok in H as (sales & Hsales & H); injection H as <-;
    eexists; (split; reflexivity).
Qed.

Lemma names_after_are_priors (ai aa : bool) (names : list string) :
  (forall x, x ∈ names -> x ∈ straight_priors ai aa) ->
  "beta" ∈ names -> "sigma" ∈ names ->
  forall x, x ∈ straight_names_after ai aa names <-> x ∈ straight_priors ai aa.
Proof.
  intros Hsub Hb Hs x. unfold straight_names_after, straight_priors in *.
  destruct ai, aa; try case_bool_decide; set_solver.
Qed.

Lemma Confounder_define_model_priors (self self' : MMMChannelsStraightConfounder) :
  Confounder_define_model self = Ok self' ->
  exists m,
    model (confounder_base self') = Some m
    /\ prior_names m
       = ["sigma"; "intercept"; "beta_fb"; "beta_google"; "beta_fb_google";
          "spend_google_0"; "sigma_google"].
Proof.
  unfold Confounder_define_model. intros H. graph_inv H. injection H as <-.
  eexists; (split; reflexivity).
Qed.

Lemma Metrics_define_model_priors (self self' : MMMFbGoogleMetrics) :
  Metrics_define_model self = Ok self' ->
  metrics_fittedparmnames self' = metrics_fittedparmnames self
  /\ exists m,
       model (metrics_base self') = Some m
       /\ prior_names m = ["intercept"; "sigma"; "beta_fb"; "beta_google"].
Proof.
  unfold Metrics_define_model. intros H. graph_inv H. injection H as <-.
  split; [done|]. eexists; (split; reflexivity).
Qed.

(** X9.  After [define_model] on a table whose observed columns, as
    scaled, hold no not-a-number (the sales column, and for the confounder
    model the Google spend as well), the fitted parameter names are exactly
    the random variables of the graph that are not observed, its priors,
    for every variant and, for the straight model, every choice of flags
    and any number of calls (a name listed twice is still a prior).  With
    a not-a-number in an observed column the library adds a free variable
    of its own for the missing entries, which is no fitted name; that case
    is left out here. *)
Theorem fitted_names_are_the_priors data names :
  (forall ai aa lag self0 n self,
      Straight_init data names ai aa lag = Ok self0 ->
      column_complete (straight_base self0) "sales" = true ->
      repeat_call Straight_define_model (S n) self0 = Ok self ->
      exists m, model (straight_base self) = Some m
                /\ forall x, x ∈ straight_fittedparmnames self
                             <-> x ∈ prior_names m)
  /\ (forall self0 self,
        Confounder_init data names = Ok self0 ->
        column_complete (confounder_base self0) "sales" = true ->
        column_complete (confounder_base self0) "spend_google" = true ->
        Confounder_define_model self0 = Ok self ->
        exists m, model (confounder_base self) = Some m
                  /\ forall x, x ∈ confounder_fittedparmnames self
                               <-> x ∈ prior_names m)
  /\ (forall fb google self0 self,
        Metrics_init data names fb google = Ok self0 ->
        column_complete (metrics_base self0) "sales" = true ->
        Metrics_define_model self0 = Ok self ->
        exists m, model (metrics_base self) = Some m
                  /\ forall x, x ∈ metrics_fittedparmnames self
                               <-> x ∈ prior_names m).
Proof.
  split; [|split].
  - intros ai aa lag self0 n self H0 _ H.
    apply Straight_init_spec in H0 as (_ & _ & Hnames & Hai & Haa).
    apply repeat_call_last in H as (s1 & Hn & H1).
    assert (Hinv : allowIntercept s1 = ai /\ allowAdstockAndSat s1 = aa
                   /\ (forall x, x ∈ straight_fittedparmnames s1 ->
                                 x ∈ straight_priors ai aa)
                   /\ "beta" ∈ straight_fittedparmnames s1
                   /\ "sigma" ∈ straight_fittedparmnames s1).
    { apply (repeat_call_invariant Straight_define_model
               (fun s => allowIntercept s = ai /\ allowAdstockAndSat s = aa
                   /\ (forall x, x ∈ straight_fittedparmnames s ->
                                 x ∈ straight_priors ai aa)
                   /\ "beta" ∈ straight_fittedparmnames s
                   /\ "sigma" ∈ straight_fittedparmnames s))
        with (n := n) (x := self0); [| |done].
      - intros x y (Hxi & Hxa & Hsub & Hb & Hs) Hxy.
        apply Straight_define_model_spec in Hxy as (-> & -> & -> & _).
        rewrite Hxi, Hxa.
        pose proof (names_after_are_priors ai aa _ Hsub Hb Hs) as Hiff.
        repeat split; try done.
        + intros z. apply Hiff.
        + apply Hiff. unfold straight_priors. set_solver.
        + apply Hiff. unfold straight_priors. set_solver.
      - rewrite Hnames, Hai, Haa. repeat split; try done.
        + unfold straight_priors. set_solver.
        + set_solver.
        + set_solver. }
    destruct Hinv as (Hi & Ha & Hsub & Hb & Hs).
    destruct (Straight_define_model_priors _ _ H1) as (m & Hm & Hp).
    apply Straight_define_model_spec in H1 as (Hn1 & _).
    exists m. split; [done|]. intros x.
    rewrite Hn1, Hp, Hi, Ha. by apply names_after_are_priors.
  - intros self0 self _ _ _ H.
    destruct (Confounder_define_model_priors _ _ H) as (m & Hm & Hp).
    exists m. split; [done|]. intros x.
    rewrite (Confounder_define_model_names _ _ H), Hp. set_solver.
  - intros fb google self0 self H0 _ H.
    apply Metrics_init_frame in H0 as (_ & _ & _ & _ & _ & _ & _ & Hnames & _).
    destruct (Metrics_define_model_priors _ _ H) as (Hn & m & Hm & Hp).
    exists m. split; [done|]. intros x. rewrite Hn, Hnames, Hp. set_solver.
Qed.

Lemma fitted_names_are_the_priors_witness :
  (exists self0 self m,
     Straight_init clicks_days ["spend_fb"; "spend_google"] true true 6
     = Ok self0
     /\ repeat_call Straight_define_model 2 self0 = Ok self
     /\ model (straight_base self) = Some m
     /\ forall x, x ∈ straight_fittedparmnames self <-> x ∈ prior_names m)
  /\ (exists self0 self m,
        Confounder_init clicks_days ["spend_fb"; "spend_google"] = Ok self0
        /\ Confounder_define_model self0 = Ok self
        /\ model (confounder_base self) = Some m
        /\ forall x, x ∈ confounder_fittedparmnames self
                     <-> x ∈ prior_names m)
  /\ (exists self0 self m,
        Metrics_init clicks_days ["spend_fb"; "spend_google"]
          "clicks_fb" "clicks_google" = Ok self0
        /\ Metrics_define_model self0 = Ok self
        /\ model (metrics_base self) = Some m
        /\ forall x, x ∈ metrics_fittedparmnames self <-> x ∈ prior_names m).
Proof.
  pose proof (fitted_names_are_the_priors
                clicks_days ["spend_fb"; "spend_google"]) as (Hs & Hc & Hm).
  destruct clicks_days_instances
    as ((s0 & s & Hs0 & Hs1) & (c0 & c & Hc0 & Hc1) & (m0 & m & Hm0 & Hm1)).
  split; [|split].
  - destruct (Hs true true 6%Z s0 1 s Hs0) as (g & Hg); [|exact Hs1|].
    { apply (constructed_complete_column (V:=Straight_variant) _ _ _ Hs0).
      vm_compute. reflexivity. }
    exists s0, s, g. split; [exact Hs0|]. split; [exact Hs1|]. exact Hg.
  - destruct (Hc c0 c Hc0) as (g & Hg); [| |exact Hc1|].
    { apply (constructed_complete_column (V:=Confounder_variant) _ _ _ Hc0).
      vm_compute. reflexivity. }
    { apply (constructed_complete_column (V:=Confounder_variant) _ _ _ Hc0).
      vm_compute. reflexivity. }
    exists c0, c, g. split; [exact Hc0|]. split; [exact Hc1|]. exact Hg.
  - destruct (Hm "clicks_fb" "clicks_google" m0 m Hm0) as (g & Hg);
      [|exact Hm1|].
    { apply (constructed_complete_column (V:=Metrics_variant) _ _ _ Hm0).
      vm_compute. reflexivity. }
    exists m0, m, g. split; [exact Hm0|]. split; [exact Hm1|]. exact Hg.
Defined.

(** ** Defining the graph: when it returns *)

Lemma scaled_column_present data names self scaled name :
  MMM_init data names = Ok self ->
  data_scaled self = Some scaled ->
  (scaled !! name = None <-> data !! name = None).
Proof.
  intros H Hs. destruct (scaling_shape _ _ _ H) as (sc & Hsc & _ & Hlen & _).
  rewrite Hs in Hsc. injection Hsc as <-. specialize (Hlen name).
  by destruct (scaled !! name), (data !! name).
Qed.

Lemma complete_one (col : list xval) : complete [col] = forallb notna col.
Proof. unfold complete. cbn [forallb]. apply andb_true_r. Qed.

Lemma column_complete_lookup (b : MMM) scaled name col :
  data_scaled b = Some scaled ->
  scaled !! name = Some col ->
  column_complete b name = forallb notna col.
Proof. unfold column_complete. by intros -> ->. Qed.

Lemma constructed_with_false {T : Type} {V : Variant T} (check : MMM -> bool)
    (r : result T) (self : T) :
  r = Ok self ->
  constructed_with (fun b => negb (check b)) r = true ->
  check (base self) = false.
Proof. intros ->. cbn. by destruct (check (base self)). Qed.

(** X10.  What [define_model] returns or raises once the constructor has
    returned.  The straight model: when no scaled channel column holds a
    not-a-number it returns, however often it is called; otherwise
    [pm.Data] refuses the spend array and the call raises
    [NotImplementedError].  The confounder model reads the columns
    'spend_fb' and 'spend_google' whatever the channel names are: it
    raises [KeyError] for 'spend_fb' when the table lacks that column,
    [NotImplementedError] when the scaled 'spend_fb' holds a not-a-number,
    [KeyError] for 'spend_google' when only that column is missing, and
    returns otherwise.  The metrics-driven model does the same with its
    two metric columns, both of which go through [pm.Data]. *)
Theorem define_model_returns_or_raises data names :
  (forall ai aa lag self0,
      Straight_init data names ai aa lag = Ok self0 ->
      (channels_complete (straight_base self0) = true ->
       forall n,
         exists self, repeat_call Straight_define_model n self0 = Ok self)
      /\ (channels_complete (straight_base self0) = false ->
          exists msg,
            Straight_define_model self0 = Raise (NotImplementedError msg)))
  /\ (forall self0,
        Confounder_init data names = Ok self0 ->
        let complete_fb := column_complete (confounder_base self0) "spend_fb" in
        (data !! "spend_fb" = None ->
         Confounder_define_model self0 = Raise (KeyError "spend_fb"))
        /\ (complete_fb = false ->
            exists msg,
              Confounder_define_model self0
              = Raise (NotImplementedError msg))
        /\ (is_Some (data !! "spend_fb") -> complete_fb = true ->
            data !! "spend_google" = None ->
            Confounder_define_model self0 = Raise (KeyError "spend_google"))
        /\ (is_Some (data !! "spend_fb") -> complete_fb = true ->
            is_Some (data !! "spend_google") ->
            exists self, Confounder_define_model self0 = Ok self))
  /\ (forall fb google self0,
        Metrics_init data names fb google = Ok self0 ->
        let complete_fb := column_complete (metrics_base self0) fb in
        let complete_google := column_complete (metrics_base self0) google in
        (data !! fb = None ->
         Metrics_define_model self0 = Raise (KeyError fb))
        /\ (complete_fb = false ->
            exists msg,
              Metrics_define_model self0 = Raise (NotImplementedError msg))
        /\ (is_Some (data !! fb) -> complete_fb = true ->
            data !! google = None ->
            Metrics_define_model self0 = Raise (KeyError google))
        /\ (is_Some (data !! fb) -> complete_fb = true ->
            complete_google = false ->
            exists msg,
              Metrics_define_model self0 = Raise (NotImplementedError msg))
        /\ (is_Some (data !! fb) -> complete_fb = true ->
            is_Some (data !! google) -> complete_google = true ->
            exists self, Metrics_define_model self0 = Ok self)).
Proof.
  split; [|split].
  - intros ai aa lag self0 H0.
    apply Straight_init_spec in H0 as (Hready & _). split.
    + intros Hc n. by apply Straight_repeat_ok.
    + intros Hc. by apply Straight_define_model_refuses.
  - intros self0 H0 complete_fb. subst complete_fb.
    unfold Confounder_init in H0.
    apply bind_Ok in H0 as (b & Hb & [= <-]).
    destruct (MMM_init_frame _ _ _ Hb)
      as (_ & Hsn & _ & _ & _ & _ & scaled & Hscaled & _ & [sales Hsales]).
    pose proof (fun name => scaled_column_present _ _ _ _ name Hb Hscaled)
      as Hcol.
    pose proof (fun name col => column_complete_lookup b scaled name col
                                  Hscaled) as Hcc.
    unfold Confounder_define_model, get_data_scaled, getcol, pm_Data.
    cbn [confounder_base]. rewrite Hscaled.
    cbn [mbind result_bind].
    repeat (match goal with |- _ /\ _ => split end).
    + intros Hfb. apply Hcol in Hfb. by rewrite Hfb.
    + intros Hc. destruct (scaled !! "spend_fb") as [fb|] eqn:E.
      * rewrite (Hcc _ _ E) in Hc. cbn [mbind result_bind].
        rewrite complete_one, Hc. by eexists.
      * unfold column_complete in Hc. by rewrite Hscaled, E in Hc.
    + intros [fb0 Hfb] Hc Hg. apply Hcol in Hg.
      destruct (scaled !! "spend_fb") as [fb|] eqn:E;
        [|apply Hcol in E; congruence].
      rewrite (Hcc _ _ E) in Hc. cbn [mbind result_bind].
      rewrite complete_one, Hc. cbn [mbind result_bind]. by rewrite Hg.
    + intros [fb0 Hfb] Hc [g Hg].
      destruct (scaled !! "spend_fb") as [fb|] eqn:E;
        [|apply Hcol in E; congruence].
      destruct (scaled !! "spend_google") eqn:E';
        [|apply Hcol in E'; congruence].
      rewrite (Hcc _ _ E) in Hc. cbn [mbind result_bind].
      rewrite complete_one, Hc. cbn [mbind result_bind].
      rewrite Hsales. by eexists.
  - intros fb google self0 H0 complete_fb complete_google.
    subst complete_fb complete_google. unfold Metrics_init in H0.
    apply bind_Ok in H0 as (b & Hb & [= <-]).
    destruct (MMM_init_frame _ _ _ Hb)
      as (_ & Hsn & _ & _ & _ & _ & scaled & Hscaled & _ & [sales Hsales]).
    pose proof (fun name => scaled_column_present _ _ _ _ name Hb Hscaled)
      as Hcol.
    pose proof (fun name col => column_complete_lookup b scaled name col
                                  Hscaled) as Hcc.
    unfold Metrics_define_model, get_data_scaled, getcol, pm_Data.
    cbn [metrics_base fb_metric google_metric]. rewrite Hscaled.
    cbn [mbind result_bind].
    repeat (match goal with |- _ /\ _ => split end).
    + intros Hfb. apply Hcol in Hfb. by rewrite Hfb.
    + intros Hc. destruct (scaled !! fb) as [c|] eqn:E.
      * rewrite (Hcc _ _ E) in Hc. cbn [mbind result_bind].
        rewrite complete_one, Hc. by eexists.
      * unfold column_complete in Hc. by rewrite Hscaled, E in Hc.
    + intros [c0 Hfb] Hc Hg. apply Hcol in Hg.
      destruct (scaled !! fb) as [c|] eqn:E; [|apply Hcol in E; congruence].
      rewrite (Hcc _ _ E) in Hc. cbn [mbind result_bind].
      rewrite complete_one, Hc. cbn [mbind result_bind]. by rewrite Hg.
    + intros [c0 Hfb] Hc Hg.
      destruct (scaled !! fb) as [c|] eqn:E; [|apply Hcol in E; congruence].
      rewrite (Hcc _ _ E) in Hc. cbn [mbind result_bind].
      rewrite complete_one, Hc. cbn [mbind result_bind].
      destruct (scaled !! google) as [g|] eqn:E'.
      * rewrite (Hcc _ _ E') in Hg. cbn [mbind result_bind].
        rewrite complete_one, Hg. by eexists.
      * unfold column_complete in Hg. by rewrite Hscaled, E' in Hg.
    + intros [c0 Hfb] Hc [g0 Hg0] Hg.
      destruct (scaled !! fb) as [c|] eqn:E; [|apply Hcol in E; congruence].
      destruct (scaled !! google) as [g|] eqn:E';
        [|apply Hcol in E'; congruence].
      rewrite (Hcc _ _ E) in Hc. rewrite (Hcc _ _ E') in Hg.
      cbn [mbind result_bind]. rewrite !complete_one, Hc.
      cbn [mbind result_bind]. rewrite Hg.
      cbn [mbind result_bind]. rewrite Hsales. by eexists.
Qed.

Lemma define_model_returns_or_raises_witness :
  (exists self0 self,
     Straight_init ten_days ["spend_a"; "spend_b"] true true 6 = Ok self0
     /\ repeat_call Straight_define_model 3 self0 = Ok self)
  /\ (exists self0 msg,
        Straight_init idle_days ["spend_a"] true false 6 = Ok self0
        /\ Straight_define_model self0 = Raise (NotImplementedError msg))
  /\ (exists self0,
        Confounder_init ten_days ["spend_a"; "spend_b"] = Ok self0
        /\ Confounder_define_model self0 = Raise (KeyError "spend_fb"))
  /\ (exists self0 self,
        Confounder_init fb_google_days ["spend_fb"; "spend_google"] = Ok self0
        /\ Confounder_define_model self0 = Ok self)
  /\ (exists self0,
        Metrics_init fb_google_days ["spend_fb"; "spend_google"]
          "clicks_fb" "clicks_google" = Ok self0
        /\ Metrics_define_model self0 = Raise (KeyError "clicks_fb"))
  /\ (exists self0 self,
        Metrics_init clicks_days ["spend_fb"; "spend_google"]
          "clicks_fb" "clicks_google" = Ok self0
        /\ Metrics_define_model self0 = Ok self).
Proof.
  assert (Hcol : forall (data : gmap string (list cell)) name,
             bool_decide (is_Some (data !! name)) = true ->
             is_Some (data !! name)).
  { intros data name. apply bool_decide_eq_true_1. }
  split; [|split; [|split; [|split; [|split]]]].
  - destruct (constructed_with_Ok channels_complete
                (Straight_init ten_days ["spend_a"; "spend_b"] true true 6))
      as (self0 & H0 & Hc); [vm_compute; reflexivity|].
    destruct (proj1 (proj1 (define_model_returns_or_raises
                              ten_days ["spend_a"; "spend_b"])
                       true true 6%Z self0 H0) Hc 3) as [self H].
    by exists self0, self.
  - destruct (is_ok_Ok (Straight_init idle_days ["spend_a"] true false 6))
      as [self0 H0]; [vm_compute; reflexivity|].
    destruct (proj2 (proj1 (define_model_returns_or_raises
                              idle_days ["spend_a"])
                       true false 6%Z self0 H0)) as [msg H].
    { apply (constructed_with_false (V:=Straight_variant) _ _ _ H0).
      vm_compute. reflexivity. }
    by exists self0, msg.
  - destruct (is_ok_Ok (Confounder_init ten_days ["spend_a"; "spend_b"]))
      as [self0 H0]; [vm_compute; reflexivity|].
    exists self0. split; [exact H0|].
    apply (proj1 (proj2 (define_model_returns_or_raises
                           ten_days ["spend_a"; "spend_b"])) self0 H0).
    vm_compute. reflexivity.
  - destruct (is_ok_Ok (Confounder_init fb_google_days
                          ["spend_fb"; "spend_google"]))
      as [self0 H0]; [vm_compute; reflexivity|].
    destruct (proj1 (proj2 (define_model_returns_or_raises
                fb_google_days ["spend_fb"; "spend_google"])) self0 H0)
      as (_ & _ & _ & Hret).
    destruct Hret as [self H].
    + apply Hcol. vm_compute. reflexivity.
    + apply (constructed_complete_column (V:=Confounder_variant) _ _ _ H0).
      vm_compute. reflexivity.
    + apply Hcol. vm_compute. reflexivity.
    + by exists self0, self.
  - destruct (is_ok_Ok (Metrics_init fb_google_days
                          ["spend_fb"; "spend_google"]
                          "clicks_fb" "clicks_google"))
      as [self0 H0]; [vm_compute; reflexivity|].
    exists self0. split; [exact H0|].
    apply (proj2 (proj2 (define_model_returns_or_raises
                           fb_google_days ["spend_fb"; "spend_google"]))
             "clicks_fb" "clicks_google" self0 H0).
    vm_compute. reflexivity.
  - destruct (is_ok_Ok (Metrics_init clicks_days
                          ["spend_fb"; "spend_google"]
                          "clicks_fb" "clicks_google"))
      as [self0 H0]; [vm_compute; reflexivity|].
    destruct (proj2 (proj2 (define_model_returns_or_raises
                clicks_days ["spend_fb"; "spend_google"]))
                "clicks_fb" "clicks_google" self0 H0)
      as (_ & _ & _ & _ & Hret).
    destruct Hret as [self H].
    + apply Hcol. vm_compute. reflexivity.
    + apply (constructed_complete_column (V:=Metrics_variant) _ _ _ H0).
      vm_compute. reflexivity.
    + apply Hcol. vm_compute. reflexivity.
    + apply (constructed_complete_column (V:=Metrics_variant) _ _ _ H0).
      vm_compute. reflexivity.
    + by exists self0, self.
Defined.

(** ** The expected sales of the straight and metrics-driven models *)

Lemma vforward_step_det env name e dims v :
  veval env e = Some v ->
  vforward_step env (name, Deterministic e dims) = <[name := v]> env.
Proof. unfold vforward_step. simpl. by intros ->. Qed.

Lemma vforward_step_other env entry name :
  entry.1 ≠ name -> vforward_step env entry !! name = env !! name.
Proof.
  intros Hne. unfold vforward_step.
  destruct entry.2; try done. destruct (veval env var); [|done].
  by rewrite lookup_insert_ne.
Qed.

(** One node of the forward pass, innermost first; [tac] finishes the
    evaluation of the node's expression. *)
Ltac vforward_one tac :=
  match goal with
  | |- context [vforward_step ?env (?n, ?nd)] =>
      lazymatch env with
      | context [vforward_step] => fail
      | _ =>
          lazymatch nd with
          | Deterministic ?e ?d =>
              erewrite (vforward_step_det env n e d)
                by (cbn [veval]; simplify_map_eq; tac; reflexivity)
          | _ => change (vforward_step env (n, nd)) with env
          end
      end
  end.

Lemma Straight_define_model_mu_y (self self' : MMMChannelsStraight)
    roots spend beta d :
  allowAdstockAndSat self = false ->
  Straight_define_model self = Ok self' ->
  roots !! "spend" = Some (Vector spend) ->
  roots !! "beta" = Some (Vector beta) ->
  dot spend beta = Some d ->
  exists m,
    model (straight_base self') = Some m
    /\ vforward m roots !! "mu_channels" = Some (Scalar d)
    /\ (allowIntercept self = false ->
        vforward m roots !! "mu_y" = Some (Scalar (qz 0 + d)%Qc))
    /\ (forall i, allowIntercept self = true ->
                  roots !! "intercept" = Some (Scalar i) ->
                  vforward m roots !! "mu_y" = Some (Scalar (i + d)%Qc)).
Proof.
  unfold Straight_define_model. intros Haa H Hsp Hb Hd. rewrite Haa in H.
  apply bind_Ok in H as (scaled & Hscaled & H).
  apply bind_Ok in H as (cs & Hcs & H).
  apply bind_Ok in H as (m0 & [_ ->]%pm_Data_Ok & H).
  destruct (allowIntercept self);
    cbn [mbind result_bind] in H;
    apply bind_Ok in H as (sales & Hsales & H); injection H as <-;
    eexists; (split; [reflexivity|]);
    unfold vforward, register; cbn [nodes app fold_left].
  - repeat split.
    + rewrite !vforward_step_other by done.
      repeat vforward_one ltac:(rewrite ?Hd). by simplify_map_eq.
    + done.
    + intros i _ Hi. repeat vforward_one ltac:(rewrite ?Hd).
      by simplify_map_eq.
  - repeat split.
    + repeat vforward_one ltac:(rewrite ?Hd). by simplify_map_eq.
    + intros _. repeat vforward_one ltac:(rewrite ?Hd). by simplify_map_eq.
    + done.
Qed.

(** X11.  The straight model without adstock and saturation, at any date
    and draw: [mu_channels] is the inner product of the spend vector and
    [beta], and [mu_y] adds the intercept to it once when the intercept is
    enabled, and 0 when it is not. *)
Theorem straight_mu_y_is_intercept_plus_inner_product
    (self self' : MMMChannelsStraight) roots spend beta d :
  allowAdstockAndSat self = false ->
  Straight_define_model self = Ok self' ->
  roots !! "spend" = Some (Vector spend) ->
  roots !! "beta" = Some (Vector beta) ->
  dot spend beta = Some d ->
  exists m,
    model (straight_base self') = Some m
    /\ vforward m roots !! "mu_channels" = Some (Scalar d)
    /\ (allowIntercept self = false ->
        vforward m roots !! "mu_y" = Some (Scalar (qz 0 + d)%Qc))
    /\ (forall i, allowIntercept self = true ->
                  roots !! "intercept" = Some (Scalar i) ->
                  vforward m roots !! "mu_y" = Some (Scalar (i + d)%Qc)).
Proof. apply Straight_define_model_mu_y. Qed.

Lemma straight_mu_y_is_intercept_plus_inner_product_witness :
  exists self0 self m,
    Straight_init ten_days ["spend_a"; "spend_b"] true false 6 = Ok self0
    /\ Straight_define_model self0 = Ok self
    /\ model (straight_base self) = Some m
    /\ vforward m two_channel_draw !! "mu_channels" = Some (Scalar (qz 31))
    /\ vforward m two_channel_draw !! "mu_y" = Some (Scalar (qz 42)).
Proof.
  destruct (constructed_with_Ok channels_complete
              (Straight_init ten_days ["spend_a"; "spend_b"] true false 6))
    as (self0 & H0 & Hc); [vm_compute; reflexivity|].
  destruct (Straight_init_spec _ _ _ _ _ _ H0) as (Hready & _ & _ & Hai & Haa).
  destruct (Straight_define_model_ok self0 Hready Hc) as [self H].
  destruct (straight_mu_y_is_intercept_plus_inner_product
              self0 self two_channel_draw [qz 2; qz 3] [qz 5; qz 7] (qz 31)
              Haa H) as (m & Hm & Hmc & _ & Hy); try reflexivity.
  exists self0, self, m. do 4 (split; [assumption|]).
  rewrite (Hy (qz 11) Hai eq_refl). reflexivity.
Defined.

Lemma Metrics_define_model_mu_y (self self' : MMMFbGoogleMetrics)
    roots i b_fb b_g fb g :
  Metrics_define_model self = Ok self' ->
  roots !! "intercept" = Some i ->
  roots !! "beta_fb" = Some b_fb ->
  roots !! "beta_google" = Some b_g ->
  roots !! "fb_in" = Some fb ->
  roots !! "google_in" = Some g ->
  exists m,
    model (metrics_base self') = Some m
    /\ forward m roots !! "mu_channels" = Some (fb * b_fb + g * b_g)%Qc
    /\ forward m roots !! "mu_y" = Some (i + (fb * b_fb + g * b_g))%Qc.
Proof.
  unfold Metrics_define_model. intros H Hi Hbf Hbg Hfb Hg.
  graph_inv H. injection H as <-. eexists. split; [reflexivity|].
  unfold forward, register. cbn [nodes app fold_left].
  repeat forward_one. by simplify_map_eq.
Qed.

(** X12.  In the graph of the metrics-driven model, at any date and draw,
    [mu_channels] is the Facebook metric times [beta_fb] plus the Google
    metric times [beta_google], and [mu_y] adds the intercept to it, once. *)
Theorem metrics_mu_y_adds_intercept_once (self self' : MMMFbGoogleMetrics)
    roots i b_fb b_g fb g :
  Metrics_define_model self = Ok self' ->
  roots !! "intercept" = Some i ->
  roots !! "beta_fb" = Some b_fb ->
  roots !! "beta_google" = Some b_g ->
  roots !! "fb_in" = Some fb ->
  roots !! "google_in" = Some g ->
  exists m,
    model (metrics_base self') = Some m
    /\ forward m roots !! "mu_channels" = Some (fb * b_fb + g * b_g)%Qc
    /\ forward m roots !! "mu_y" = Some (i + (fb * b_fb + g * b_g))%Qc.
Proof. apply Metrics_define_model_mu_y. Qed.

Lemma metrics_mu_y_adds_intercept_once_witness :
  exists self0 self m,
    Metrics_init clicks_days ["spend_fb"; "spend_google"]
      "clicks_fb" "clicks_google" = Ok self0
    /\ Metrics_define_model self0 = Ok self
    /\ model (metrics_base self) = Some m
    /\ forward m metrics_draw !! "mu_y" = Some (qz 81).
Proof.
  destruct clicks_days_instances as (_ & _ & self0 & self & H0 & H).
  destruct (metrics_mu_y_adds_intercept_once
              self0 self metrics_draw (qz 1) (qz 2) (qz 3) (qz 10) (qz 20) H)
    as (m & Hm & _ & Hy); try reflexivity.
  exists self0, self, m. do 3 (split; [assumption|]).
  rewrite Hy. reflexivity.
Defined.

Lemma Metrics_repeat_names n (self self' : MMMFbGoogleMetrics) :
  repeat_call Metrics_define_model n self = Ok self' ->
  metrics_fittedparmnames self' = metrics_fittedparmnames self.
Proof.
  apply (repeat_call_invariant Metrics_define_model
           (fun s => metrics_fittedparmnames s
                     = metrics_fittedparmnames self)); [|done].
  intros x y Hx H. by apply Metrics_define_model_priors in H as [-> _].
Qed.

(** X13.  Unlike the straight model's, the [define_model] of the other two
    variants can be repeated: after one or more calls the confounder
    model lists its seven names, each once; after any number of calls the
    metrics-driven model lists the names it listed before, the four of its
    constructor. *)
Theorem define_model_repeats_without_growing_names data names :
  (forall self0 n self,
      repeat_call Confounder_define_model (S n) self0 = Ok self ->
      confounder_fittedparmnames self
      = ["beta_fb"; "beta_google"; "beta_fb_google"; "spend_google_0";
         "sigma"; "intercept"; "sigma_google"])
  /\ (forall fb google self0 n self,
        Metrics_init data names fb google = Ok self0 ->
        repeat_call Metrics_define_model n self0 = Ok self ->
        metrics_fittedparmnames self
        = ["beta_fb"; "beta_google"; "intercept"; "sigma"]).
Proof.
  split.
  - intros self0 n self H. apply repeat_call_last in H as (s1 & _ & H).
    by apply Confounder_define_model_names in H.
  - intros fb google self0 n self H0 H.
    apply Metrics_repeat_names in H. rewrite H.
    by apply Metrics_init_frame in H0 as (_ & _ & _ & _ & _ & _ & _ & ? & _).
Qed.

Lemma define_model_repeats_without_growing_names_witness :
  (exists self0 self,
     Confounder_init clicks_days ["spend_fb"; "spend_google"] = Ok self0
     /\ repeat_call Confounder_define_model 3 self0 = Ok self
     /\ confounder_fittedparmnames self
        = ["beta_fb"; "beta_google"; "beta_fb_google"; "spend_google_0";
           "sigma"; "intercept"; "sigma_google"])
  /\ (exists self0 self,
        Metrics_init clicks_days ["spend_fb"; "spend_google"]
          "clicks_fb" "clicks_google" = Ok self0
        /\ repeat_call Metrics_define_model 3 self0 = Ok self
        /\ metrics_fittedparmnames self
           = ["beta_fb"; "beta_google"; "intercept"; "sigma"]).
Proof.
  pose proof (define_model_repeats_without_growing_names
                clicks_days ["spend_fb"; "spend_google"]) as [Hc Hm].
  split.
  - destruct (is_ok_Ok (Confounder_init clicks_days
                          ["spend_fb"; "spend_google"])) as [self0 H0];
      [vm_compute; reflexivity|].
    destruct (is_ok_Ok (self ← Confounder_init clicks_days
                                 ["spend_fb"; "spend_google"];
                        repeat_call Confounder_define_model 3 self))
      as [self H]; [vm_compute; reflexivity|].
    rewrite H0 in H. cbn [mbind result_bind] in H.
    exists self0, self. split; [exact H0|]. split; [exact H|].
    exact (Hc self0 2 self H).
  - destruct (is_ok_Ok (Metrics_init clicks_days ["spend_fb"; "spend_google"]
                          "clicks_fb" "clicks_google")) as [self0 H0];
      [vm_compute; reflexivity|].
    destruct (is_ok_Ok (self ← Metrics_init clicks_days
                                 ["spend_fb"; "spend_google"]
                                 "clicks_fb" "clicks_google";
                        repeat_call Metrics_define_model 3 self))
      as [self H]; [vm_compute; reflexivity|].
    rewrite H0 in H. cbn [mbind result_bind] in H.
    exists self0, self. split; [exact H0|]. split; [exact H|].
    exact (Hm _ _ self0 3 self H0 H).
Defined.

(** ** Fitting *)



Lemma straight_names_after_first (ai aa : bool) :
  NoDup (straight_names_after ai aa ["beta"; "sigma"])
  /\ forall x, x ∈ straight_names_after ai aa ["beta"; "sigma"]
               <-> x ∈ straight_priors ai aa.
Proof.
  split.
  - destruct ai, aa; apply (bool_decide_unpack _); vm_compute; exact I.
  - intros x. destruct ai, aa; vm_compute straight_names_after;
      unfold straight_priors; cbn [app];
      rewrite !elem_of_cons, !elem_of_nil; tauto.
Qed.



(** ** Outcomes of back-scaling *)

Lemma first_missing_same_names names (p p' : gmap string (list xval)) :
  (forall k, is_Some (p' !! k) <-> is_Some (p !! k)) ->
  first_missing names p' = first_missing names p.
Proof.
  intros Hsame. induction names as [|name rest IH]; [done|].
  cbn [first_missing]. rewrite IH.
  destruct (p !! name) eqn:E, (p' !! name) eqn:E'; try done.
  - assert (is_Some (p' !! name)) as [? ?]; [|congruence].
    apply Hsame. by rewrite E.
  - assert (is_Some (p !! name)) as [? ?]; [|congruence].
    apply Hsame. by rewrite E'.
Qed.

Lemma rescale_same_names name f (p p' : gmap string (list xval)) :
  rescale name f p = Ok p' ->
  forall k, is_Some (p' !! k) <-> is_Some (p !! k).
Proof.
  intros (draws & Hd & ->)%rescale_Ok k.
  destruct (decide (name = k)) as [<-|Hne].
  - rewrite lookup_insert_eq, Hd. split; eauto.
  - by rewrite lookup_insert_ne.
Qed.

Lemma rescale_all_outcome steps (p : gmap string (list xval)) :
  match first_missing steps.*1 p with
  | Some k => rescale_all steps p = Raise (KeyError k)
  | None => exists p', rescale_all steps p = Ok p'
  end.
Proof.
  revert p. induction steps as [|[name f] rest IH]; intros p.
  - by exists p.
  - cbn [fmap list_fmap fst first_missing rescale_all].
    destruct (p !! name) as [draws|] eqn:E.
    + assert (Hr : rescale name f p = Ok (<[name := f <$> draws]> p)).
      { apply rescale_Ok. eauto. }
      rewrite Hr. cbn [mbind result_bind].
      rewrite <- (first_missing_same_names _ _ _
                    (rescale_same_names _ _ _ _ Hr)).
      apply IH.
    + unfold rescale, getcol. by rewrite E.
Qed.

Lemma Straight_back_scaled_steps (self : MMMChannelsStraight) :
  let s := salesscale (straight_base self) in
  let c := channelscale (straight_base self) in
  Straight_get_back_scaled_idata self
  = p ← get_idata (straight_base self);
    rescale_all
      ((if allowIntercept self
        then [("intercept", fun x => xmul x s)] else [])
       ++ [("sigma", fun x => xmul x c);
           ("beta", fun x => xdiv (xmul x s) c)])%list p.
Proof.
  unfold Straight_get_back_scaled_idata.
  destruct (get_idata (straight_base self)) as [p|e]; [|done].
  by destruct (allowIntercept self).
Qed.

(** X15.  What back-scaling returns or raises, for every instance of every
    variant: without a posterior (no [fit] yet) an [AttributeError] for
    'idata'; with a posterior that lacks one of the variables the method
    assigns, a [KeyError] naming the first such variable in the order of
    the assignments; otherwise it returns.  The straight model reads
    'intercept' only when the intercept flag is set. *)
Theorem back_scaling_outcome :
  (forall self : MMMChannelsStraight,
     match idata (straight_base self) with
     | None =>
         Straight_get_back_scaled_idata self = Raise (AttributeError "idata")
     | Some p =>
         match first_missing (straight_rescaled (allowIntercept self)) p with
         | Some k => Straight_get_back_scaled_idata self = Raise (KeyError k)
         | None => exists p', Straight_get_back_scaled_idata self = Ok p'
         end
     end)
  /\ (forall self : MMMChannelsStraightConfounder,
        match idata (confounder_base self) with
        | None =>
            Confounder_get_back_scaled_idata self
            = Raise (AttributeError "idata")
        | Some p =>
            match first_missing confounder_rescaled p with
            | Some k =>
                Confounder_get_back_scaled_idata self = Raise (KeyError k)
            | None => exists p', Confounder_get_back_scaled_idata self = Ok p'
            end
        end)
  /\ (forall self : MMMFbGoogleMetrics,
        match idata (metrics_base self) with
        | None =>
            Metrics_get_back_scaled_idata self = Raise (AttributeError "idata")
        | Some p =>
            match first_missing metrics_rescaled p with
            | Some k => Metrics_get_back_scaled_idata self = Raise (KeyError k)
            | None => exists p', Metrics_get_back_scaled_idata self = Ok p'
            end
        end).
Proof.
  split; [|split]; intros self.
  - rewrite Straight_back_scaled_steps. unfold get_idata.
    destruct (idata (straight_base self)) as [p|]; [|done].
    cbn [mbind result_bind].
    match goal with |- context [rescale_all ?st p] =>
      pose proof (rescale_all_outcome st p) as H end.
    by destruct (allowIntercept self).
  - unfold Confounder_get_back_scaled_idata, get_idata.
    destruct (idata (confounder_base self)) as [p|]; [|done].
    cbn [mbind result_bind].
    exact (rescale_all_outcome
             [("intercept", _); ("sigma", _); ("beta_google", _);
              ("beta_fb", _); ("spend_google_0", _); ("sigma_google", _)] p).
  - unfold Metrics_get_back_scaled_idata, get_idata.
    destruct (idata (metrics_base self)) as [p|]; [|done].
    cbn [mbind result_bind].
    exact (rescale_all_outcome
             [("intercept", _); ("sigma", _); ("beta_fb", _);
              ("beta_google", _)] p).
Qed.

Lemma times_shape (p p' : gmap string (list xval)) :
  (forall name, exists k, p' !! name = times k <$> p !! name) ->
  dom p' = dom p
  /\ forall name, length <$> p' !! name = length <$> p !! name.
Proof.
  intros Hk. split.
  - apply set_eq. intros name. rewrite !elem_of_dom.
    destruct (Hk name) as [k ->]. by rewrite fmap_is_Some.
  - intros name. destruct (Hk name) as [k ->].
    destruct (p !! name) as [draws|]; [|done].
    cbn. unfold times. by rewrite length_fmap.
Qed.

Lemma Straight_back_scaled_shape (self : MMMChannelsStraight) p p' :
  idata (straight_base self) = Some p ->
  Straight_get_back_scaled_idata self = Ok p' ->
  dom p' = dom p
  /\ forall name, length <$> p' !! name = length <$> p !! name.
Proof.
  intros Hp Hget. apply times_shape. intros name. eexists.
  by apply (Straight_back_scaled_factor self).
Qed.

Lemma Confounder_back_scaled_shape
    (self : MMMChannelsStraightConfounder) p p' :
  idata (confounder_base self) = Some p ->
  Confounder_get_back_scaled_idata self = Ok p' ->
  dom p' = dom p
  /\ forall name, length <$> p' !! name = length <$> p !! name.
Proof.
  intros Hp Hget. apply times_shape. intros name. eexists.
  by apply (Confounder_back_scaled_factor self).
Qed.

Lemma Metrics_back_scaled_shape (self : MMMFbGoogleMetrics) p p' :
  idata (metrics_base self) = Some p ->
  Metrics_get_back_scaled_idata self = Ok p' ->
  dom p' = dom p
  /\ forall name, length <$> p' !! name = length <$> p !! name.
Proof.
  intros Hp Hget. apply times_shape. intros name. eexists.
  by apply (Metrics_back_scaled_factor self).
Qed.

(** X16.  Back-scaling reshapes nothing.  When it returns, the result has
    a variable under exactly the names of the fitted posterior, each with
    as many draws as before. *)
Theorem back_scaling_keeps_variables_and_draws :
  (forall (self : MMMChannelsStraight) p p',
     idata (straight_base self) = Some p ->
     Straight_get_back_scaled_idata self = Ok p' ->
     dom p' = dom p
     /\ forall name, length <$> p' !! name = length <$> p !! name)
  /\ (forall (self : MMMChannelsStraightConfounder) p p',
        idata (confounder_base self) = Some p ->
        Confounder_get_back_scaled_idata self = Ok p' ->
        dom p' = dom p
        /\ forall name, length <$> p' !! name = length <$> p !! name)
  /\ (forall (self : MMMFbGoogleMetrics) p p',
        idata (metrics_base self) = Some p ->
        Metrics_get_back_scaled_idata self = Ok p' ->
        dom p' = dom p
        /\ forall name, length <$> p' !! name = length <$> p !! name).
Proof.
  split; [|split]; intros self p p' Hp Hget.
  - by apply (Straight_back_scaled_shape self).
  - by apply (Confounder_back_scaled_shape self).
  - by apply (Metrics_back_scaled_shape self).
Qed.

Lemma back_scaling_keeps_variables_and_draws_witness :
  exists self p',
    fitted_straight true = Ok self
    /\ Straight_get_back_scaled_idata self = Ok p'
    /\ dom p' = dom two_draws
    /\ length <$> p' !! "beta" = length <$> two_draws !! "beta".
Proof.
  destruct (fitted_straight_state true) as (self & Hfit & Hai & Hs & Hc & Hp).
  destruct (Straight_back_scaled_ok self two_draws Hp) as [p' Hget];
    [intros _; eexists; apply two_draws_lookup
    |eexists; apply two_draws_lookup ..|].
  destruct (proj1 back_scaling_keeps_variables_and_draws
              self two_draws p' Hp Hget) as [Hdom Hlen].
  exists self, p'. split; [assumption|]. split; [assumption|].
  split; [assumption|]. apply Hlen.
Defined.

(** ** The division of back-scaling *)

Lemma back_scaled_beta_is_fin (x s c : Qc) :
  is_fin (xdiv (xmul (Fin x) (Fin s)) (Fin c)) = bool_decide (c ≠ qz 0).
Proof.
  cbn [xmul xdiv]. destruct (decide (c = qz 0)) as [->|Hc].
  - rewrite bool_decide_eq_false_2 by (intros H; by apply H).
    by destruct (Qccompare (x * s) (qz 0)).
  - by rewrite bool_decide_eq_true_2.
Qed.

(** X17.  The straight model's back-scaling divides by the channel scale
    without a guard.  For numeric scales and numeric draws of 'beta', every
    back-scaled draw of 'beta' is a number exactly when the channel scale
    is not 0; with a channel scale of 0 each is an infinity or not a
    number, and every numeric draw of 'sigma' becomes 0. *)
Theorem back_scaled_beta_numeric_iff_channel_scale_nonzero
    (self : MMMChannelsStraight) p p' (s c : Qc) draws :
  idata (straight_base self) = Some p ->
  Straight_get_back_scaled_idata self = Ok p' ->
  salesscale (straight_base self) = Fin s ->
  channelscale (straight_base self) = Fin c ->
  p !! "beta" = Some draws ->
  Forall (fun x => is_fin x = true) draws ->
  (exists draws',
     p' !! "beta" = Some draws'
     /\ length draws' = length draws
     /\ Forall (fun x => is_fin x = bool_decide (c ≠ qz 0)) draws')
  /\ (c = qz 0 ->
      forall sigmas, p !! "sigma" = Some sigmas ->
        Forall (fun x => is_fin x = true) sigmas ->
        p' !! "sigma" = Some (replicate (length sigmas) zero)).
Proof.
  intros Hp Hget Hs Hc Hb Hfin.
  destruct (Straight_back_scaled self p p' Hp Hget) as (_ & Esig & Eb & _).
  rewrite Hs, Hc in *. split.
  - rewrite Hb in Eb. eexists. split; [exact Eb|]. split.
    + by rewrite length_fmap.
    + apply Forall_fmap. eapply List.Forall_impl; [|exact Hfin].
      intros [x| | |] Hx; try discriminate. apply back_scaled_beta_is_fin.
  - intros -> sigmas Hsig Hsfin. rewrite Hsig in Esig. rewrite Esig.
    cbn [fmap option_fmap option_map]. f_equal. unfold times.
    clear -Hsfin. induction Hsfin as [|x l Hx _ IH]; [done|].
    cbn [fmap list_fmap length replicate]. f_equal; [|exact IH].
    destruct x as [x| | |]; try discriminate. cbn [xmul]. unfold zero.
    f_equal. change (qz 0) with 0%Qc. ring.
Qed.

Lemma idle_with_draws_state :
  exists self,
    idle_with_draws = Ok self
    /\ salesscale (straight_base self) = Fin (qz 400)
    /\ channelscale (straight_base self) = Fin (qz 0)
    /\ idata (straight_base self) = Some two_draws.
Proof.
  assert (E : fitted_state idle_with_draws
              = Some (Fin (qz 400), Fin (qz 0), Some two_draws)).
  { apply (bool_decide_eq_true_1 _). by vm_compute. }
  destruct idle_with_draws as [self|e]; [|done].
  exists self. simpl in E. by injection E as -> -> ->.
Qed.

Lemma back_scaled_beta_numeric_iff_channel_scale_nonzero_witness :
  exists self p' draws',
    idle_with_draws = Ok self
    /\ Straight_get_back_scaled_idata self = Ok p'
    /\ p' !! "beta" = Some draws'
    /\ length draws' = 2
    /\ Forall (fun x => is_fin x = false) draws'
    /\ p' !! "sigma" = Some [zero; zero].
Proof.
  destruct idle_with_draws_state as (self & Hfit & Hs & Hc & Hp).
  destruct two_draws_lookup as (Li & Lsg & Lb & _).
  destruct (Straight_back_scaled_ok self two_draws Hp) as [p' Hget];
    [intros _; by eexists | by eexists ..|].
  destruct (back_scaled_beta_numeric_iff_channel_scale_nonzero
              self two_draws p' (qz 400) (qz 0) [Fin (qz 5); Fin (qz 6)]
              Hp Hget Hs Hc Lb)
    as [(draws' & Hb' & Hlen & Hall) Hsig];
    [by repeat constructor|].
  exists self, p', draws'. split; [assumption|]. split; [assumption|].
  split; [assumption|]. split; [assumption|]. split; [exact Hall|].
  apply (Hsig eq_refl [Fin (qz 3); Fin (qz 4)] Lsg). by repeat constructor.
Defined.

(** ** From fitting to back-scaling *)

Lemma fit_Ok {T : Type} {V : Variant T} sample (self self' : T) :
  fit sample self = Ok self' ->
  exists s1 m,
    match model (base self) with
    | None => define_model self = Ok s1
    | Some _ => s1 = self
    end
    /\ model (base s1) = Some m
    /\ self' = with_base s1 (set_idata (base s1) (sample m)).
Proof.
  unfold fit. intros H. apply bind_Ok in H as (s1 & H1 & H).
  destruct (model (base s1)) as [m|] eqn:Hm; [|done].
  injection H as <-. exists s1, m. split; [|by split].
  destruct (model (base self)); [by injection H1|done].
Qed.

Lemma unit_sampler_priors (m : pm_Model) name :
  name ∈ prior_names m -> is_Some (unit_sampler m !! name).
Proof.
  intros Hin. unfold unit_sampler.
  destruct (list_to_map (M:=gmap string (list xval))
              ((fun name => (name, [one])) <$> prior_names m) !! name)
    eqn:E; [by eexists|].
  apply not_elem_of_list_to_map in E. exfalso. apply E.
  rewrite <- list_fmap_compose. cbn. by rewrite list_fmap_id.
Qed.

Lemma Straight_fit_fresh sample data names ai aa lag self0 self :
  Straight_init data names ai aa lag = Ok self0 ->
  fit sample self0 = Ok self ->
  exists m,
    idata (straight_base self) = Some (sample m)
    /\ (forall x, x ∈ straight_fittedparmnames self <-> x ∈ prior_names m)
    /\ Forall (fun name => name ∈ prior_names m)
         (straight_rescaled (allowIntercept self)).
Proof.
  intros H0 Hfit.
  destruct (Straight_init_spec _ _ _ _ _ _ H0)
    as (_ & Hnone & Hnames & Hai & Haa).
  apply fit_Ok in Hfit as (s1 & m & H1 & Hm & ->).
  cbn [base define_model Straight_variant] in H1, Hm. rewrite Hnone in H1.
  destruct (Straight_define_model_priors _ _ H1) as (m' & Hm' & Hpri).
  rewrite Hm in Hm'. injection Hm' as <-.
  destruct (Straight_define_model_spec _ _ H1) as (Hn1 & Hai1 & _).
  exists m. split; [done|].
  cbn [with_base Straight_variant straight_fittedparmnames allowIntercept].
  split.
  - intros x. rewrite Hn1, Hnames, Hpri. apply straight_names_after_first.
  - rewrite Hai1, Hpri. unfold straight_rescaled, straight_priors.
    apply list.Forall_forall. intros x Hx.
    destruct (allowIntercept self0); set_solver.
Qed.

Lemma Confounder_fit_fresh sample data names self0 self :
  Confounder_init data names = Ok self0 ->
  fit sample self0 = Ok self ->
  exists m,
    idata (confounder_base self) = Some (sample m)
    /\ (forall x, x ∈ confounder_fittedparmnames self <-> x ∈ prior_names m)
    /\ Forall (fun name => name ∈ prior_names m) confounder_rescaled.
Proof.
  intros H0 Hfit.
  destruct (Confounder_init_frame _ _ _ H0) as (_ & _ & _ & Hnone & _).
  apply fit_Ok in Hfit as (s1 & m & H1 & Hm & ->).
  cbn [base define_model Confounder_variant] in H1, Hm. rewrite Hnone in H1.
  destruct (Confounder_define_model_priors _ _ H1) as (m' & Hm' & Hpri).
  rewrite Hm in Hm'. injection Hm' as <-.
  exists m. split; [done|].
  cbn [with_base Confounder_variant confounder_fittedparmnames]. split.
  - intros x. rewrite (Confounder_define_model_names _ _ H1), Hpri.
    set_solver.
  - rewrite Hpri. unfold confounder_rescaled. repeat constructor; set_solver.
Qed.

Lemma Metrics_fit_fresh sample data names fb google self0 self :
  Metrics_init data names fb google = Ok self0 ->
  fit sample self0 = Ok self ->
  exists m,
    idata (metrics_base self) = Some (sample m)
    /\ (forall x, x ∈ metrics_fittedparmnames self <-> x ∈ prior_names m)
    /\ Forall (fun name => name ∈ prior_names m) metrics_rescaled.
Proof.
  intros H0 Hfit.
  destruct (Metrics_init_frame _ _ _ _ _ H0)
    as (_ & _ & _ & Hnone & _ & _ & _ & Hnames & _).
  apply fit_Ok in Hfit as (s1 & m & H1 & Hm & ->).
  cbn [base define_model Metrics_variant] in H1, Hm. rewrite Hnone in H1.
  destruct (Metrics_define_model_priors _ _ H1) as (Hn & m' & Hm' & Hpri).
  rewrite Hm in Hm'. injection Hm' as <-.
  exists m. split; [done|].
  cbn [with_base Metrics_variant metrics_fittedparmnames]. split.
  - intros x. rewrite Hn, Hnames, Hpri. set_solver.
  - rewrite Hpri. unfold metrics_rescaled. repeat constructor; set_solver.
Qed.

Lemma Straight_fit_ok sample data names ai aa lag self0 :
  Straight_init data names ai aa lag = Ok self0 ->
  channels_complete (straight_base self0) = true ->
  exists self, fit sample self0 = Ok self.
Proof.
  intros H0 Hcomplete.
  destruct (Straight_init_spec _ _ _ _ _ _ H0) as (Hready & Hnone & _).
  destruct (Straight_define_model_ok self0 Hready Hcomplete)
    as [first Hfirst].
  destruct (Straight_define_model_priors _ _ Hfirst) as (m & Hm & _).
  unfold fit. cbn [base define_model Straight_variant].
  rewrite Hnone, Hfirst. cbn [mbind result_bind]. rewrite Hm. by eexists.
Qed.

Lemma Straight_fresh_back_scaled sample data names ai aa lag self0 self :
  (forall m name, name ∈ prior_names m -> is_Some (sample m !! name)) ->
  Straight_init data names ai aa lag = Ok self0 ->
  fit sample self0 = Ok self ->
  exists p', Straight_get_back_scaled_idata self = Ok p'.
Proof.
  intros Hsample H0 Hfit.
  destruct (Straight_fit_fresh _ _ _ _ _ _ _ _ H0 Hfit)
    as (m & Hid & _ & Hread).
  unfold straight_rescaled in Hread. rewrite list.Forall_forall in Hread.
  apply (Straight_back_scaled_ok self (sample m) Hid).
  - intros E. rewrite E in Hread. apply Hsample, Hread. set_solver.
  - apply Hsample, Hread. set_solver.
  - apply Hsample, Hread. set_solver.
Qed.

Lemma Confounder_fresh_back_scaled sample data names self0 self :
  (forall m name, name ∈ prior_names m -> is_Some (sample m !! name)) ->
  Confounder_init data names = Ok self0 ->
  fit sample self0 = Ok self ->
  exists p', Confounder_get_back_scaled_idata self = Ok p'.
Proof.
  intros Hsample H0 Hfit.
  destruct (Confounder_fit_fresh _ _ _ _ _ H0 Hfit) as (m & Hid & _ & Hread).
  apply (Confounder_back_scaled_ok self (sample m) Hid).
  eapply List.Forall_impl; [|exact Hread]. intros name. apply Hsample.
Qed.

Lemma Metrics_fresh_back_scaled sample data names fb google self0 self :
  (forall m name, name ∈ prior_names m -> is_Some (sample m !! name)) ->
  Metrics_init data names fb google = Ok self0 ->
  fit sample self0 = Ok self ->
  exists p', Metrics_get_back_scaled_idata self = Ok p'.
Proof.
  intros Hsample H0 Hfit.
  destruct (Metrics_fit_fresh _ _ _ _ _ _ _ H0 Hfit) as (m & Hid & _ & Hread).
  apply (Metrics_back_scaled_ok self (sample m) Hid).
  eapply List.Forall_impl; [|exact Hread]. intros name. apply Hsample.
Qed.

(** X18.  A fit is enough for back-scaling.  When the sampler returns
    draws for every prior of the graph it is given, back-scaling returns on
    every instance that [fit] has returned for a freshly constructed one;
    for the straight model [fit] itself returns as well when no scaled
    channel column holds a not-a-number.  So each variant's
    [get_back_scaled_idata] reads only variables that its [define_model]
    declares as priors. *)
Theorem fit_then_back_scaling_returns
    (sample : pm_Model -> gmap string (list xval)) :
  (forall m name, name ∈ prior_names m -> is_Some (sample m !! name)) ->
  (forall data names ai aa lag self0,
     Straight_init data names ai aa lag = Ok self0 ->
     channels_complete (straight_base self0) = true ->
     exists self p',
       fit sample self0 = Ok self
       /\ Straight_get_back_scaled_idata self = Ok p')
  /\ (forall data names self0 self,
        Confounder_init data names = Ok self0 ->
        fit sample self0 = Ok self ->
        exists p', Confounder_get_back_scaled_idata self = Ok p')
  /\ (forall data names fb google self0 self,
        Metrics_init data names fb google = Ok self0 ->
        fit sample self0 = Ok self ->
        exists p', Metrics_get_back_scaled_idata self = Ok p').
Proof.
  intros Hsample. split; [|split].
  - intros data names ai aa lag self0 H0 Hcomplete.
    destruct (Straight_fit_ok sample _ _ _ _ _ _ H0 Hcomplete)
      as [self Hfit].
    destruct (Straight_fresh_back_scaled _ _ _ _ _ _ _ _ Hsample H0 Hfit)
      as [p' Hget].
    by exists self, p'.
  - intros data names self0 self.
    by apply Confounder_fresh_back_scaled.
  - intros data names fb google self0 self.
    by apply Metrics_fresh_back_scaled.
Qed.

Lemma fit_then_back_scaling_returns_witness :
  (forall m name, name ∈ prior_names m -> is_Some (unit_sampler m !! name))
  /\ exists self0 self p',
       Straight_init ten_days ["spend_a"; "spend_b"] true true 6 = Ok self0
       /\ fit unit_sampler self0 = Ok self
       /\ Straight_get_back_scaled_idata self = Ok p'.
Proof.
  split; [exact unit_sampler_priors|].
  destruct (constructed_with_Ok channels_complete
              (Straight_init ten_days ["spend_a"; "spend_b"] true true 6))
    as (self0 & H0 & Hc); [vm_compute; reflexivity|].
  destruct (proj1 (fit_then_back_scaling_returns unit_sampler
                     unit_sampler_priors)
              ten_days ["spend_a"; "spend_b"] true true 6%Z self0 H0 Hc)
    as (self & p' & Hfit & Hget).
  exists self0, self, p'. split; [assumption|]. split; assumption.
Defined.

(** ** Plotting the parameter distributions *)

Lemma plot_parm_dist_fitted {T : Type} {V : Variant T}
    (fittedparmnames : T -> list string) (self : T) flag
    (sample : pm_Model -> gmap string (list xval)) m
    (p p' : gmap string (list xval)) :
  (forall m name, name ∈ prior_names m -> is_Some (sample m !! name)) ->
  (forall x, x ∈ fittedparmnames self <-> x ∈ prior_names m) ->
  p = sample m ->
  get_back_scaled_idata self = Ok p' ->
  dom p' = dom p ->
  exists plot,
    plot_parm_dist fittedparmnames self flag = Ok plot
    /\ get_back_scaled_idata self = Ok (plot_idata plot)
    /\ plot_var_names plot = fittedparmnames self
    /\ Forall (fun name => is_Some (plot_idata plot !! name))
         (plot_var_names plot).
Proof.
  intros Hsample Hnames -> Hget Hdom.
  exists (mkPosteriorPlot p' (fittedparmnames self)).
  unfold plot_parm_dist. rewrite Hget. repeat split.
  apply list.Forall_forall. intros x Hx. cbn.
  apply elem_of_dom. rewrite Hdom. apply elem_of_dom, Hsample.
  by apply Hnames.
Qed.

(** X19.  [plot_parm_dist] on a fitted instance.  For a freshly
    constructed instance of any variant that [fit] has returned, with a
    sampler that returns draws for every prior, the method hands the
    plotting library the back-scaled posterior and the fitted parameter
    names, each of which is a variable of that posterior; this is so for
    either value of [original_scale], so the posterior drawn is the
    back-scaled one also when the flag is off. *)
Theorem plot_parm_dist_draws_back_scaled_fitted_names
    (sample : pm_Model -> gmap string (list xval)) (original_scale : bool) :
  (forall m name, name ∈ prior_names m -> is_Some (sample m !! name)) ->
  (forall data names ai aa lag self0 self,
     Straight_init data names ai aa lag = Ok self0 ->
     fit sample self0 = Ok self ->
     exists plot,
       plot_parm_dist straight_fittedparmnames self original_scale = Ok plot
       /\ Straight_get_back_scaled_idata self = Ok (plot_idata plot)
       /\ plot_var_names plot = straight_fittedparmnames self
       /\ Forall (fun name => is_Some (plot_idata plot !! name))
            (plot_var_names plot))
  /\ (forall data names self0 self,
        Confounder_init data names = Ok self0 ->
        fit sample self0 = Ok self ->
        exists plot,
          plot_parm_dist confounder_fittedparmnames self original_scale
          = Ok plot
          /\ Confounder_get_back_scaled_idata self = Ok (plot_idata plot)
          /\ plot_var_names plot = confounder_fittedparmnames self
          /\ Forall (fun name => is_Some (plot_idata plot !! name))
               (plot_var_names plot))
  /\ (forall data names fb google self0 self,
        Metrics_init data names fb google = Ok self0 ->
        fit sample self0 = Ok self ->
        exists plot,
          plot_parm_dist metrics_fittedparmnames self original_scale = Ok plot
          /\ Metrics_get_back_scaled_idata self = Ok (plot_idata plot)
          /\ plot_var_names plot = metrics_fittedparmnames self
          /\ Forall (fun name => is_Some (plot_idata plot !! name))
               (plot_var_names plot)).
Proof.
  intros Hsample. split; [|split].
  - intros data names ai aa lag self0 self H0 Hfit.
    destruct (Straight_fit_fresh _ _ _ _ _ _ _ _ H0 Hfit) as (m & Hid & Hn & _).
    destruct (Straight_fresh_back_scaled _ _ _ _ _ _ _ _ Hsample H0 Hfit)
      as [p' Hget].
    apply (plot_parm_dist_fitted (V:=Straight_variant) _ self _
             sample m (sample m) p' Hsample Hn eq_refl Hget).
    by apply (proj1 (Straight_back_scaled_shape self (sample m) p' Hid Hget)).
  - intros data names self0 self H0 Hfit.
    destruct (Confounder_fit_fresh _ _ _ _ _ H0 Hfit) as (m & Hid & Hn & _).
    destruct (Confounder_fresh_back_scaled _ _ _ _ _ Hsample H0 Hfit)
      as [p' Hget].
    apply (plot_parm_dist_fitted (V:=Confounder_variant) _ self _
             sample m (sample m) p' Hsample Hn eq_refl Hget).
    by apply (proj1 (Confounder_back_scaled_shape self (sample m) p'
                       Hid Hget)).
  - intros data names fb google self0 self H0 Hfit.
    destruct (Metrics_fit_fresh _ _ _ _ _ _ _ H0 Hfit) as (m & Hid & Hn & _).
    destruct (Metrics_fresh_back_scaled _ _ _ _ _ _ _ Hsample H0 Hfit)
      as [p' Hget].
    apply (plot_parm_dist_fitted (V:=Metrics_variant) _ self _
             sample m (sample m) p' Hsample Hn eq_refl Hget).
    by apply (proj1 (Metrics_back_scaled_shape self (sample m) p' Hid Hget)).
Qed.

Lemma plot_parm_dist_draws_back_scaled_fitted_names_witness :
  (forall m name, name ∈ prior_names m -> is_Some (unit_sampler m !! name))
  /\ exists self0 self plot,
       Straight_init ten_days ["spend_a"; "spend_b"] true true 6 = Ok self0
       /\ fit unit_sampler self0 = Ok self
       /\ plot_parm_dist straight_fittedparmnames self false = Ok plot
       /\ Straight_get_back_scaled_idata self = Ok (plot_idata plot)
       /\ Forall (fun name => is_Some (plot_idata plot !! name))
            (plot_var_names plot).
Proof.
  split; [exact unit_sampler_priors|].
  destruct (constructed_with_Ok channels_complete
              (Straight_init ten_days ["spend_a"; "spend_b"] true true 6))
    as (self0 & H0 & Hc); [vm_compute; reflexivity|].
  destruct (Straight_fit_ok unit_sampler _ _ _ _ _ _ H0 Hc) as [self Hfit].
  destruct (proj1 (plot_parm_dist_draws_back_scaled_fitted_names
                     unit_sampler false unit_sampler_priors)
              ten_days ["spend_a"; "spend_b"] true true 6%Z self0 self
              H0 Hfit)
    as (plot & Hplot & Hget & _ & Hall).
  exists self0, self, plot. repeat (split; [assumption|]). assumption.
Defined.

(** ** What the metrics-driven graph is fed *)

Lemma MMM_init_scaled data names self :
  MMM_init data names = Ok self ->
  datename self = "date" /\ salesname self = "sales"
  /\ exists scaled,
       data_scaled self = Some scaled
       /\ scaled_in_two_steps data names "sales"
            (channelscale self) (salesscale self) scaled.
Proof.
  intros H. pose proof (MMM_init_spec _ _ _ H) as Hs.
  pose proof (set_scaling_frame _ _ Hs) as Hf.
  destruct (set_scaling_spec _ _ Hs) as (_ & (scaled & Hd & Htwo) & _).
  cbn in Htwo, Hf. repeat split; try apply Hf. by exists scaled.
Qed.

(** X20.  The metrics-driven model feeds its graph unscaled metrics and
    scaled sales.  When the two metric columns are not named as channels
    (and are not the sales column), the data nodes 'fb_in' and 'google_in'
    hold the raw columns as given, while the observed values of 'y' are the
    sales column divided by the sales scale. *)
Theorem metrics_graph_inputs_are_unscaled data names fb google self0 self :
  Metrics_init data names fb google = Ok self0 ->
  Metrics_define_model self0 = Ok self ->
  fb ∉ names -> fb ≠ "sales" ->
  google ∉ names -> google ≠ "sales" ->
  "sales" ∉ names ->
  exists m fb_col google_col sales_col,
    model (metrics_base self) = Some m
    /\ data !! fb = Some fb_col
    /\ data !! google = Some google_col
    /\ data !! "sales" = Some sales_col
    /\ ("fb_in", Data [of_cell <$> fb_col] ["date"]) ∈ nodes m
    /\ ("google_in", Data [of_cell <$> google_col] ["date"]) ∈ nodes m
    /\ exists d,
         ("y", Observed d
                 (divide_by (salesscale (metrics_base self0))
                    (of_cell <$> sales_col)) ["date"]) ∈ nodes m.
Proof.
  intros H0 H Hfb Hfbs Hg Hgs Hsales.
  unfold Metrics_init in H0. apply bind_Ok in H0 as (b & Hb & H0).
  injection H0 as <-.
  destruct (MMM_init_scaled _ _ _ Hb) as (Hdn & Hsn & scaled & Hd & Htwo).
  destruct Htwo as (sales & Hsl & _ & Hsc & Hother).
  rewrite (proj1 (occurrences_not_elem_of _ _) Hsales) in Hsl.
  cbn [Nat.iter] in Hsl.
  unfold Metrics_define_model, get_data_scaled in H.
  cbn [metrics_base fb_metric google_metric] in H. rewrite Hd, Hdn, Hsn in H.
  cbn [mbind result_bind] in H.
  apply bind_Ok in H as (fbv & Hfbv & H).
  apply bind_Ok in H as (m1 & [_ ->]%pm_Data_Ok & H).
  apply bind_Ok in H as (gv & Hgv & H).
  apply bind_Ok in H as (m2 & [_ ->]%pm_Data_Ok & H).
  apply bind_Ok in H as (sv & Hsv & H). injection H as <-.
  apply getcol_Ok in Hfbv, Hgv, Hsv.
  rewrite (Hother fb Hfbs), (proj1 (occurrences_not_elem_of _ _) Hfb) in Hfbv.
  rewrite (Hother google Hgs), (proj1 (occurrences_not_elem_of _ _) Hg) in Hgv.
  cbn [Nat.iter] in Hfbv, Hgv. unfold copy_frame in Hfbv, Hgv, Hsl.
  rewrite lookup_fmap in Hfbv, Hgv, Hsl.
  destruct (data !! fb) as [fb_col|]; [|done].
  destruct (data !! google) as [google_col|]; [|done].
  destruct (data !! "sales") as [sales_col|]; [|done].
  injection Hfbv as <-. injection Hgv as <-. injection Hsl as <-.
  rewrite Hsc in Hsv. injection Hsv as <-.
  eexists _, fb_col, google_col, sales_col.
  cbn [metrics_base model set_model].
  split; [reflexivity|]. repeat (split; [reflexivity|]).
  cbn [register nodes app].
  split; [set_solver|]. split; [set_solver|].
  eexists. repeat (apply elem_of_cons; first [left; reflexivity | right]).
Qed.

Lemma metrics_graph_inputs_are_unscaled_witness :
  exists self0 self m,
    Metrics_init clicks_days ["spend_fb"; "spend_google"]
      "clicks_fb" "clicks_google" = Ok self0
    /\ Metrics_define_model self0 = Ok self
    /\ model (metrics_base self) = Some m
    /\ ("fb_in", Data [of_cell <$> nums [120; 80; 100; 90]%Z] ["date"])
       ∈ nodes m.
Proof.
  destruct clicks_days_instances as (_ & _ & self0 & self & H0 & H1).
  destruct (metrics_graph_inputs_are_unscaled clicks_days
              ["spend_fb"; "spend_google"] "clicks_fb" "clicks_google"
              self0 self H0 H1)
    as (m & fb_col & google_col & sales_col & Hm & Hfb & _ & _ & Hin & _).
  - apply (bool_decide_unpack _). vm_compute. exact I.
  - discriminate.
  - apply (bool_decide_unpack _). vm_compute. exact I.
  - discriminate.
  - apply (bool_decide_unpack _). vm_compute. exact I.
  - exists self0, self, m. split; [assumption|]. split; [assumption|].
    split; [assumption|].
    assert (E : fb_col = nums [120; 80; 100; 90]%Z).
    { apply (inj Some). rewrite <- Hfb. apply (bool_decide_eq_true_1 _).
      vm_compute. reflexivity. }
    rewrite <- E. exact Hin.
Defined.
